(** * Turn engines of the three games: TicTacToe, Reversi, Kirzhanovsky

    A shallow embedding of [tictactoe.py], [reversi.py] and
    [kirzhanovsky.py]: the boards, the rule engines, the retry loop of the
    turn engines and the round scoring of the numeric game, followed by the
    properties of the specification settled on them. *)

From Stdlib Require Import ZArith QArith Lia.
From stdpp Require Import base gmap list sorting.

Local Open Scope Z_scope.

(** ** Python values and control flow shared by the three engines *)

Module Py.

(** The result of a Python call: it returns a value or raises.
    [OutOfFuel] is the answer of a loop of the model whose fuel ran out
    before the loop of the program was over; no Python run ends so. *)
Inductive result (E A : Type) : Type :=
| Ok (a : A)
| Raise (e : E)
| OutOfFuel.
Arguments Ok {E A} a.
Arguments Raise {E A} e.
Arguments OutOfFuel {E A}.

Definition bind {E A B} (r : result E A) (k : A -> result E B) : result E B :=
  match r with
  | Ok a => k a
  | Raise e => Raise e
  | OutOfFuel => OutOfFuel
  end.

(** The place of index [i] in a list of length [len]: a negative index
    counts from the end, an index outside [-len, len) is an IndexError
    ([None] here). *)
Definition position (len : nat) (i : Z) : option nat :=
  if (0 <=? i) && (i <? Z.of_nat len) then Some (Z.to_nat i)
  else if (i <? 0) && (- Z.of_nat len <=? i) then Some (Z.to_nat (Z.of_nat len + i))
  else None.

(** [l[i]] on a Python list. *)
Definition index {A} (l : list A) (i : Z) : option A :=
  match position (length l) i with
  | Some n => l !! n
  | None => None
  end.

(** [l[i] = v] on a Python list. *)
Definition set_index {A} (l : list A) (i : Z) (v : A) : option (list A) :=
  match position (length l) i with
  | Some n => Some (<[n := v]> l)
  | None => None
  end.

(** [range(n)] *)
Definition range (n : Z) : list Z := Z.of_nat <$> seq 0 (Z.to_nat n).

(** [b[r][c]] and [b[r][c] = v] on a list of lists; [None] is the
    IndexError. *)
Definition get2 {A} (b : list (list A)) (r c : Z) : option A :=
  match index b r with
  | Some line => index line c
  | None => None
  end.

Definition set2 {A} (b : list (list A)) (r c : Z) (v : A) : option (list (list A)) :=
  match index b r with
  | Some line =>
      match set_index line c v with
      | Some line' => set_index b r line'
      | None => None
      end
  | None => None
  end.

(** The cell in place [j] of the list in place [i] of a list of lists. *)
Definition cell_at {A} (b : list (list A)) (i j : nat) : option A :=
  match b !! i with
  | Some line => line !! j
  | None => None
  end.

End Py.

Notation "'let*' x ':=' e 'in' k" := (Py.bind e (fun x => k))
  (at level 10, x name, e at level 100, k at level 200).

(** ** TicTacToe (tictactoe.py) *)

Module TicTacToe.

Module BoardCell.
Inductive t := EMPTY | X | O.
Definition value (c : t) : Z :=
  match c with EMPTY => 0 | X => 1 | O => 2 end.
(** [BoardCell(v)]: ValueError ([None]) outside 0..2. *)
Definition of_value (v : Z) : option t :=
  match v with 0 => Some EMPTY | 1 => Some X | 2 => Some O | _ => None end.
Definition eqb (a b : t) : bool :=
  match a, b with
  | EMPTY, EMPTY | X, X | O, O => true
  | _, _ => false
  end.
End BoardCell.

Module PlayerType.
Inductive t := X | O.
Definition value (p : t) : Z := match p with X => 1 | O => 2 end.
Definition of_value (v : Z) : option t :=
  match v with 1 => Some X | 2 => Some O | _ => None end.
(** [PlayerType(3 - self.value)], which is defined for both members. *)
Definition inverse (p : t) : t := match p with X => O | O => X end.
Definition eqb (a b : t) : bool :=
  match a, b with X, X | O, O => true | _, _ => false end.
End PlayerType.

Module Winner.
Inductive t := X | O | DRAW.
Definition value (w : t) : Z := match w with X => 1 | O => 2 | DRAW => 3 end.
Definition of_value (v : Z) : option t :=
  match v with 1 => Some X | 2 => Some O | 3 => Some DRAW | _ => None end.
(** [Winner(p.value)] for a player [p]. *)
Definition of_player (p : PlayerType.t) : t :=
  match p with PlayerType.X => X | PlayerType.O => O end.
End Winner.

(** [BoardCell(p.value)] for a player [p]. *)
Definition BoardCell_of_player (p : PlayerType.t) : BoardCell.t :=
  match p with PlayerType.X => BoardCell.X | PlayerType.O => BoardCell.O end.

(** The messages of [IncorrectMove], by the place that raises them. *)
Inductive reason :=
| BadCoordinates   (* apply_move: coordinates outside 0..size-1 *)
| CellNotEmpty     (* apply_move: the cell is taken *)
| NotAMove         (* _make_one_move: the player returned no Move *)
| MoveError.       (* _make_one_move: the player's call raised *)

Inductive exn :=
| IncorrectMove (r : reason)
| ValueError
| IndexError.

Record Move := { row : Z; column : Z }.

Abbreviation cells := (list (list BoardCell.t)).

(** [GameBoard.size] is 3 for every board. *)
Definition size : Z := 3.

(** [GameBoard.__init__] *)
Definition GameBoard_init : cells :=
  replicate (Z.to_nat size) (replicate (Z.to_nat size) BoardCell.EMPTY).

(** [self.board[r][c]] *)
Definition get (b : cells) (r c : Z) : Py.result exn BoardCell.t :=
  match Py.get2 b r c with
  | Some v => Py.Ok v
  | None => Py.Raise IndexError
  end.

(** [self.board[r][c] = v] *)
Definition set (b : cells) (r c : Z) (v : BoardCell.t) : Py.result exn cells :=
  match Py.set2 b r c v with
  | Some b' => Py.Ok b'
  | None => Py.Raise IndexError
  end.

(** [GameBoard.apply_move]: the board after the call and how the call
    ended. *)
Definition apply_move (b : cells) (player_type : PlayerType.t) (move : Move)
  : cells * Py.result exn unit :=
  if (row move <? 0) || (row move >=? size)
     || (column move <? 0) || (column move >=? size)
  then (b, Py.Raise (IncorrectMove BadCoordinates))
  else
    match get b (row move) (column move) with
    | Py.Ok c =>
        if negb (BoardCell.eqb c BoardCell.EMPTY)
        then (b, Py.Raise (IncorrectMove CellNotEmpty))
        else
          let new_cell := BoardCell_of_player player_type in
          match set b (row move) (column move) new_cell with
          | Py.Ok b' => (b', Py.Ok tt)
          | Py.Raise e => (b, Py.Raise e)
          | Py.OutOfFuel => (b, Py.OutOfFuel)
          end
    | Py.Raise e => (b, Py.Raise e)
    | Py.OutOfFuel => (b, Py.OutOfFuel)
    end.

(** [GameBoard.is_full]: the two [for] loops, left at the first empty
    cell. *)
Fixpoint is_full_columns (b : cells) (r : Z) (cols : list Z) : Py.result exn bool :=
  match cols with
  | [] => Py.Ok true
  | c :: cols' =>
      let* v := get b r c in
      if BoardCell.eqb v BoardCell.EMPTY then Py.Ok false
      else is_full_columns b r cols'
  end.

Fixpoint is_full_rows (b : cells) (rows : list Z) : Py.result exn bool :=
  match rows with
  | [] => Py.Ok true
  | r :: rows' =>
      let* full := is_full_columns b r (Py.range size) in
      if full then is_full_rows b rows' else Py.Ok false
  end.

Definition is_full (b : cells) : Py.result exn bool :=
  is_full_rows b (Py.range size).

(** [GameBoard._is_cells_full_by_player]: [set(cells)] has one element
    exactly when the list is not empty and all its elements are equal;
    [None] is Python's [False]. *)
Definition _is_cells_full_by_player (cs : list BoardCell.t) : option Winner.t :=
  match cs with
  | [] => None
  | c :: rest =>
      if forallb (BoardCell.eqb c) rest then
        if negb (BoardCell.eqb c BoardCell.EMPTY)
        then Winner.of_value (BoardCell.value c)
        else None
      else None
  end.

(** [GameBoard._get_column] *)
Fixpoint _get_column (b : cells) (column_id : Z) : Py.result exn (list BoardCell.t) :=
  match b with
  | [] => Py.Ok []
  | line :: b' =>
      match Py.index line column_id with
      | None => Py.Raise IndexError
      | Some v => let* rest := _get_column b' column_id in Py.Ok (v :: rest)
      end
  end.

(** The [for row in range(self.size)] loop of [get_winner]. *)
Fixpoint winner_in_rows (b : cells) (rows : list Z) : Py.result exn (option Winner.t) :=
  match rows with
  | [] => Py.Ok None
  | r :: rows' =>
      match Py.index b r with
      | None => Py.Raise IndexError
      | Some line =>
          match _is_cells_full_by_player line with
          | Some w => Py.Ok (Some w)
          | None => winner_in_rows b rows'
          end
      end
  end.

(** The [for column in range(self.size)] loop of [get_winner]. *)
Fixpoint winner_in_columns (b : cells) (cols : list Z) : Py.result exn (option Winner.t) :=
  match cols with
  | [] => Py.Ok None
  | c :: cols' =>
      let* col := _get_column b c in
      match _is_cells_full_by_player col with
      | Some w => Py.Ok (Some w)
      | None => winner_in_columns b cols'
      end
  end.

(** [GameBoard.get_winner]; [None] is Python's [False]. *)
Definition get_winner (b : cells) : Py.result exn (option Winner.t) :=
  let* full := is_full b in
  if full then Py.Ok (Some Winner.DRAW)
  else
    let* w := winner_in_rows b (Py.range size) in
    match w with
    | Some w => Py.Ok (Some w)
    | None =>
        let* w := winner_in_columns b (Py.range size) in
        match w with
        | Some w => Py.Ok (Some w)
        | None =>
            let* a := get b 0 0 in let* m := get b 1 1 in let* z := get b 2 2 in
            match _is_cells_full_by_player [a; m; z] with
            | Some w => Py.Ok (Some w)
            | None =>
                let* a := get b 0 2 in let* m := get b 1 1 in let* z := get b 2 0 in
                match _is_cells_full_by_player [a; m; z] with
                | Some w => Py.Ok (Some w)
                | None => Py.Ok None
                end
            end
        end
    end.

(** [GameBoard.create_copy_for_player], as the values the copy holds:
    every cell replaced by its [.value]. *)
Definition create_copy_for_player (b : cells) : list (list Z) :=
  map (map BoardCell.value) b.

(** *** The turn engine ([Game]) *)

(** What a call of [player.move] through [_safe_run] comes to. *)
Inductive Response :=
| Returned (m : Move)   (* a Move instance *)
| ReturnedOther         (* any other object, None included *)
| Raised                (* the call raised *)
| TimedOut.             (* no answer within the timeout: _safe_run gives None *)

(** A player answers from the boards it has been handed so far, the
    latest first. *)
Definition Player := list (list (list Z)) -> Response.

Definition INCORRECT_MOVE_TRIES_LIMIT : Z := 5.

(** The fields of [Game]; [x_seen] and [o_seen] record the calls made to
    each player: the board copies handed over, the latest first. *)
Record Game := {
  board : cells;
  current_move : PlayerType.t;
  move_counter : Z;
  winner : option Winner.t;
  x_seen : list (list (list Z));
  o_seen : list (list (list Z))
}.

(** [Game._init_game] *)
Definition _init_game : Game :=
  {| board := GameBoard_init; current_move := PlayerType.X;
     move_counter := 0; winner := None; x_seen := []; o_seen := [] |}.

Section Engine.
Variables x_player o_player : Player.

(** The body of the [try] in [_make_one_move]: one call of the current
    player and the validation of its answer. *)
Definition try_once (g : Game) : Game * Py.result exn unit :=
  let board_copy := create_copy_for_player (board g) in
  let ask (p : Player) (seen : list (list (list Z))) := p (board_copy :: seen) in
  let answer :=
    match current_move g with
    | PlayerType.X => ask x_player (x_seen g)
    | PlayerType.O => ask o_player (o_seen g)
    end in
  let g1 :=
    match current_move g with
    | PlayerType.X =>
        {| board := board g; current_move := current_move g;
           move_counter := move_counter g; winner := winner g;
           x_seen := board_copy :: x_seen g; o_seen := o_seen g |}
    | PlayerType.O =>
        {| board := board g; current_move := current_move g;
           move_counter := move_counter g; winner := winner g;
           x_seen := x_seen g; o_seen := board_copy :: o_seen g |}
    end in
  match answer with
  | Raised => (g1, Py.Raise (IncorrectMove MoveError))
  | TimedOut | ReturnedOther => (g1, Py.Raise (IncorrectMove NotAMove))
  | Returned move =>
      let '(b', r) := apply_move (board g1) (current_move g1) move in
      ({| board := b'; current_move := current_move g1;
          move_counter := move_counter g1; winner := winner g1;
          x_seen := x_seen g1; o_seen := o_seen g1 |}, r)
  end.

(** The [while try_index < INCORRECT_MOVE_TRIES_LIMIT] loop: [Ok true]
    when it is left by [break], [Ok false] when its [else] runs, and
    the exception when one other than [IncorrectMove] passes through. *)
Fixpoint tries (fuel : nat) (g : Game) (try_index : Z)
  : Game * Py.result exn bool :=
  match fuel with
  | O => (g, Py.OutOfFuel)
  | S fuel' =>
      if try_index <? INCORRECT_MOVE_TRIES_LIMIT then
        match try_once g with
        | (g', Py.Ok _) => (g', Py.Ok true)
        | (g', Py.Raise (IncorrectMove _)) => tries fuel' g' (try_index + 1)
        | (g', Py.Raise e) => (g', Py.Raise e)
        | (g', Py.OutOfFuel) => (g', Py.OutOfFuel)
        end
      else (g, Py.Ok false)
  end.

(** [Game._make_one_move] *)
Definition _make_one_move (fuel : nat) (g : Game) : Game * Py.result exn unit :=
  let g0 :=
    {| board := board g; current_move := current_move g;
       move_counter :=
         if PlayerType.eqb (current_move g) PlayerType.X
         then move_counter g + 1 else move_counter g;
       winner := winner g; x_seen := x_seen g; o_seen := o_seen g |} in
  match tries fuel g0 1 with
  | (g1, Py.Ok false) =>
      ({| board := board g1; current_move := current_move g1;
          move_counter := move_counter g1;
          winner := Some (Winner.of_player (PlayerType.inverse (current_move g1)));
          x_seen := x_seen g1; o_seen := o_seen g1 |}, Py.Ok tt)
  | (g1, Py.Ok true) =>
      ({| board := board g1;
          current_move := PlayerType.inverse (current_move g1);
          move_counter := move_counter g1; winner := winner g1;
          x_seen := x_seen g1; o_seen := o_seen g1 |}, Py.Ok tt)
  | (g1, Py.Raise e) => (g1, Py.Raise e)
  | (g1, Py.OutOfFuel) => (g1, Py.OutOfFuel)
  end.

(** [Game._check_for_winner] *)
Definition _check_for_winner (g : Game) : Game * Py.result exn unit :=
  match get_winner (board g) with
  | Py.Raise e => (g, Py.Raise e)
  | Py.OutOfFuel => (g, Py.OutOfFuel)
  | Py.Ok None => (g, Py.Ok tt)
  | Py.Ok (Some w) =>
      ({| board := board g; current_move := current_move g;
          move_counter := move_counter g; winner := Some w;
          x_seen := x_seen g; o_seen := o_seen g |}, Py.Ok tt)
  end.

(** The [while not self._is_game_finished()] loop of [Game.play]. *)
Fixpoint play_loop (tfuel fuel : nat) (g : Game) : Game * Py.result exn unit :=
  match fuel with
  | O => (g, Py.OutOfFuel)
  | S fuel' =>
      match winner g with
      | Some _ => (g, Py.Ok tt)
      | None =>
          match _make_one_move tfuel g with
          | (g1, Py.Ok _) =>
              match _check_for_winner g1 with
              | (g2, Py.Ok _) => play_loop tfuel fuel' g2
              | (g2, r) => (g2, r)
              end
          | (g1, r) => (g1, r)
          end
      end
  end.

(** [Game.play]: the winner it returns. *)
Definition play (tfuel fuel : nat) : Py.result exn (option Winner.t) :=
  match play_loop tfuel fuel _init_game with
  | (g, Py.Ok _) => Py.Ok (winner g)
  | (_, Py.Raise e) => Py.Raise e
  | (_, Py.OutOfFuel) => Py.OutOfFuel
  end.
End Engine.

(** A player that plays a fixed list of moves, one per call. *)
Definition scripted (moves : list Move) : Player :=
  fun seen =>
    match moves !! (length seen - 1)%nat with
    | Some m => Returned m
    | None => ReturnedOther
    end.

(** The boards that calls of [apply_move] lead to, whatever the calls
    and however they end. *)
Inductive moves_to : cells -> cells -> Prop :=
| moves_none b : moves_to b b
| moves_more b player_type move b1 r b2 :
    apply_move b player_type move = (b1, r) ->
    moves_to b1 b2 ->
    moves_to b b2.

(** The changes of a cell the specification allows: from EMPTY to the
    mark of a player. *)
Definition allowed_change (v v' : BoardCell.t) : Prop :=
  v' = v \/ (v = BoardCell.EMPTY /\ v' <> BoardCell.EMPTY).

Definition move_at (r c : Z) : Move := {| row := r; column := c |}.

(** A player whose every answer is the cell (-1, -1). *)
Definition out_of_range_player : Player := fun _ => Returned (move_at (-1) (-1)).

(** An answer that [_make_one_move] turns into an IncorrectMove on any
    board: no Move, or a Move outside the board. *)
Definition bad_answer (a : Response) : Prop :=
  match a with
  | Returned m => row m < 0 \/ row m >= size \/ column m < 0 \/ column m >= size
  | _ => True
  end.

(** The board after X has taken the cell (0, 0) of a new board. *)
Definition after_first_move : cells :=
  [ [BoardCell.X; BoardCell.EMPTY; BoardCell.EMPTY];
    [BoardCell.EMPTY; BoardCell.EMPTY; BoardCell.EMPTY];
    [BoardCell.EMPTY; BoardCell.EMPTY; BoardCell.EMPTY] ].

(** A game in which X completes the top row with the last free cell. *)
Definition last_cell_x : Player :=
  scripted [move_at 1 2; move_at 2 0; move_at 0 0; move_at 0 1; move_at 0 2].
Definition last_cell_o : Player :=
  scripted [move_at 1 0; move_at 1 1; move_at 2 1; move_at 2 2].
Definition last_cell_board : cells :=
  [ [BoardCell.X; BoardCell.X; BoardCell.X];
    [BoardCell.O; BoardCell.O; BoardCell.X];
    [BoardCell.X; BoardCell.O; BoardCell.O] ].

End TicTacToe.

(** ** Reversi (reversi.py) *)

Module Reversi.

Module BoardCell.
Inductive t := EMPTY | BLACK | WHITE.
Definition value (c : t) : Z :=
  match c with EMPTY => 0 | BLACK => 1 | WHITE => 2 end.
(** [BoardCell(v)]: ValueError ([None]) outside 0..2. *)
Definition of_value (v : Z) : option t :=
  match v with 0 => Some EMPTY | 1 => Some BLACK | 2 => Some WHITE | _ => None end.
(** [BoardCell.inverse]: [BoardCell(3 - self.value)]; on [EMPTY] this is
    [BoardCell(3)], a ValueError. *)
Definition inverse (c : t) : option t := of_value (3 - value c).
Definition eqb (a b : t) : bool :=
  match a, b with
  | EMPTY, EMPTY | BLACK, BLACK | WHITE, WHITE => true
  | _, _ => false
  end.
End BoardCell.

Module PlayerType.
Inductive t := BLACK | WHITE.
Definition value (p : t) : Z := match p with BLACK => 1 | WHITE => 2 end.
Definition of_value (v : Z) : option t :=
  match v with 1 => Some BLACK | 2 => Some WHITE | _ => None end.
(** [PlayerType(3 - self.value)], defined for both members. *)
Definition inverse (p : t) : t := match p with BLACK => WHITE | WHITE => BLACK end.
Definition eqb (a b : t) : bool :=
  match a, b with BLACK, BLACK | WHITE, WHITE => true | _, _ => false end.
End PlayerType.

Module Winner.
Inductive t := BLACK | WHITE | DRAW.
Definition value (w : t) : Z := match w with BLACK => 1 | WHITE => 2 | DRAW => 3 end.
Definition of_value (v : Z) : option t :=
  match v with 1 => Some BLACK | 2 => Some WHITE | 3 => Some DRAW | _ => None end.
(** [Winner(p.value)] for a player [p]. *)
Definition of_player (p : PlayerType.t) : t :=
  match p with PlayerType.BLACK => BLACK | PlayerType.WHITE => WHITE end.
End Winner.

(** [BoardCell(p.value)] for a player [p]. *)
Definition BoardCell_of_player (p : PlayerType.t) : BoardCell.t :=
  match p with
  | PlayerType.BLACK => BoardCell.BLACK
  | PlayerType.WHITE => BoardCell.WHITE
  end.

(** The messages of [IncorrectMove], by the place that raises them. *)
Inductive reason :=
| BadCoordinates   (* apply_move: coordinates outside 0..size-1 *)
| CellNotEmpty     (* apply_move: the cell is taken *)
| NoFlips          (* apply_move: no disc would be turned *)
| NotAMove         (* _make_one_move: the player returned no Move *)
| MoveError.       (* _make_one_move: the player's call raised *)

Inductive exn :=
| IncorrectMove (r : reason)
| ValueError
| IndexError.

Record Move := { row : Z; column : Z }.

Abbreviation cells := (list (list BoardCell.t)).

(** [GameBoard.size] is 8 for every board. *)
Definition size : Z := 8.

(** [self.board[r][c]] *)
Definition get (b : cells) (r c : Z) : Py.result exn BoardCell.t :=
  match Py.get2 b r c with
  | Some v => Py.Ok v
  | None => Py.Raise IndexError
  end.

(** [self.board[r][c] = v] *)
Definition set (b : cells) (r c : Z) (v : BoardCell.t) : Py.result exn cells :=
  match Py.set2 b r c v with
  | Some b' => Py.Ok b'
  | None => Py.Raise IndexError
  end.

(** [GameBoard.__init__] *)
Definition GameBoard_init : cells :=
  let e := BoardCell.EMPTY in
  let b := BoardCell.BLACK in
  let w := BoardCell.WHITE in
  replicate 3 (replicate 8 e)
    ++ [ [e; e; e; w; b; e; e; e];
         [e; e; e; b; w; e; e; e] ]
    ++ replicate 3 (replicate 8 e).

(** [GameBoard._is_valid_coordinates] *)
Definition _is_valid_coordinates (row column : Z) : bool :=
  (0 <=? row) && (row <? size) && (0 <=? column) && (column <? size).

Definition directions : list (Z * Z) :=
  [(0, 1); (0, -1); (1, 0); (-1, 0); (1, 1); (1, -1); (-1, 1); (-1, -1)].

(** The [while self._is_valid_coordinates(x, y)] loop of
    [_get_flipped_cells_for_move] in one direction: what it adds to
    [flipped_cells]. *)
Fixpoint walk (fuel : nat) (b : cells) (board_cell : BoardCell.t)
    (direction_x direction_y x y : Z) (flipped_in_direction : list (Z * Z))
  : Py.result exn (list (Z * Z)) :=
  match fuel with
  | O => Py.OutOfFuel
  | S fuel' =>
      if _is_valid_coordinates x y then
        let* c := get b x y in
        if BoardCell.eqb c board_cell then Py.Ok flipped_in_direction
        else walk fuel' b board_cell direction_x direction_y
               (x + direction_x) (y + direction_y)
               (flipped_in_direction ++ [(x, y)])
      else Py.Ok []
  end.

(** A walk visits at most [size] cells and then tests the cell after
    them. *)
Definition walk_fuel : nat := S (Z.to_nat size).

(** One pass of the [for direction_x, direction_y in directions] loop. *)
Definition flipped_in (b : cells) (row column : Z) (board_cell : BoardCell.t)
    (direction : Z * Z) : Py.result exn (list (Z * Z)) :=
  let '(direction_x, direction_y) := direction in
  let x := row + direction_x in
  let y := column + direction_y in
  if negb (_is_valid_coordinates x y) then Py.Ok []
  else
    let* c := get b x y in
    if BoardCell.eqb c BoardCell.EMPTY || BoardCell.eqb c board_cell then Py.Ok []
    else walk walk_fuel b board_cell direction_x direction_y x y [].

Fixpoint flipped_over (b : cells) (row column : Z) (board_cell : BoardCell.t)
    (ds : list (Z * Z)) (flipped_cells : list (Z * Z))
  : Py.result exn (list (Z * Z)) :=
  match ds with
  | [] => Py.Ok flipped_cells
  | d :: ds' =>
      let* more := flipped_in b row column board_cell d in
      flipped_over b row column board_cell ds' (flipped_cells ++ more)
  end.

(** [GameBoard._get_flipped_cells_for_move] *)
Definition _get_flipped_cells_for_move (b : cells) (row column : Z)
    (board_cell : BoardCell.t) : Py.result exn (list (Z * Z)) :=
  flipped_over b row column board_cell directions [].

(** [GameBoard._is_valid_move] *)
Definition _is_valid_move (b : cells) (row column : Z) (board_cell : BoardCell.t)
  : Py.result exn bool :=
  let* flipped := _get_flipped_cells_for_move b row column board_cell in
  Py.Ok (0 <? Z.of_nat (length flipped)).

(** The loop of [apply_move] over [flipped_cells]: each cell is replaced
    by its [inverse()]; the board keeps the cells turned before a call
    raises. *)
Fixpoint flip_cells (b : cells) (flipped_cells : list (Z * Z))
  : cells * Py.result exn unit :=
  match flipped_cells with
  | [] => (b, Py.Ok tt)
  | (flipped_x, flipped_y) :: rest =>
      match get b flipped_x flipped_y with
      | Py.Ok c =>
          match BoardCell.inverse c with
          | None => (b, Py.Raise ValueError)
          | Some c' =>
              match set b flipped_x flipped_y c' with
              | Py.Ok b' => flip_cells b' rest
              | Py.Raise e => (b, Py.Raise e)
              | Py.OutOfFuel => (b, Py.OutOfFuel)
              end
          end
      | Py.Raise e => (b, Py.Raise e)
      | Py.OutOfFuel => (b, Py.OutOfFuel)
      end
  end.

(** [GameBoard.apply_move]: the board after the call and how the call
    ended. *)
Definition apply_move (b : cells) (player_type : PlayerType.t) (move : Move)
  : cells * Py.result exn unit :=
  if negb (_is_valid_coordinates (row move) (column move))
  then (b, Py.Raise (IncorrectMove BadCoordinates))
  else
    match get b (row move) (column move) with
    | Py.Ok c =>
        if negb (BoardCell.eqb c BoardCell.EMPTY)
        then (b, Py.Raise (IncorrectMove CellNotEmpty))
        else
          let new_cell := BoardCell_of_player player_type in
          match _is_valid_move b (row move) (column move) new_cell with
          | Py.Ok false => (b, Py.Raise (IncorrectMove NoFlips))
          | Py.Ok true =>
              match set b (row move) (column move) new_cell with
              | Py.Ok b1 =>
                  match _get_flipped_cells_for_move b1 (row move) (column move) new_cell with
                  | Py.Ok flipped_cells => flip_cells b1 flipped_cells
                  | Py.Raise e => (b1, Py.Raise e)
                  | Py.OutOfFuel => (b1, Py.OutOfFuel)
                  end
              | Py.Raise e => (b, Py.Raise e)
              | Py.OutOfFuel => (b, Py.OutOfFuel)
              end
          | Py.Raise e => (b, Py.Raise e)
          | Py.OutOfFuel => (b, Py.OutOfFuel)
          end
    | Py.Raise e => (b, Py.Raise e)
    | Py.OutOfFuel => (b, Py.OutOfFuel)
    end.

(** [GameBoard.has_player_correct_move]: the two [for] loops. *)
Fixpoint correct_move_in_columns (b : cells) (new_cell : BoardCell.t) (r : Z)
    (cols : list Z) : Py.result exn bool :=
  match cols with
  | [] => Py.Ok false
  | c :: cols' =>
      let* v := get b r c in
      if negb (BoardCell.eqb v BoardCell.EMPTY)
      then correct_move_in_columns b new_cell r cols'
      else
        let* ok := _is_valid_move b r c new_cell in
        if ok then Py.Ok true else correct_move_in_columns b new_cell r cols'
  end.

Fixpoint correct_move_in_rows (b : cells) (new_cell : BoardCell.t) (rows : list Z)
  : Py.result exn bool :=
  match rows with
  | [] => Py.Ok false
  | r :: rows' =>
      let* found := correct_move_in_columns b new_cell r (Py.range size) in
      if found then Py.Ok true else correct_move_in_rows b new_cell rows'
  end.

Definition has_player_correct_move (b : cells) (current_move : PlayerType.t)
  : Py.result exn bool :=
  correct_move_in_rows b (BoardCell_of_player current_move) (Py.range size).

(** [GameBoard.has_anybody_correct_move] *)
Definition has_anybody_correct_move (b : cells) : Py.result exn bool :=
  let* black := has_player_correct_move b PlayerType.BLACK in
  if black then Py.Ok true else has_player_correct_move b PlayerType.WHITE.

(** [all_cells.count(v)] *)
Definition count_cells (b : cells) (v : BoardCell.t) : Z :=
  Z.of_nat (length (filter (fun c => BoardCell.eqb c v = true) (concat b))).

(** [GameBoard.get_winner]; [None] is Python's [False]. *)
Definition get_winner (b : cells) : Py.result exn (option Winner.t) :=
  let* any := has_anybody_correct_move b in
  if any then Py.Ok None
  else
    let black_count := count_cells b BoardCell.BLACK in
    let white_count := count_cells b BoardCell.WHITE in
    if black_count >? white_count then Py.Ok (Some Winner.BLACK)
    else if white_count >? black_count then Py.Ok (Some Winner.WHITE)
    else Py.Ok (Some Winner.DRAW).

(** [GameBoard.create_copy_for_player], as the values the copy holds:
    every cell replaced by its [.value]. *)
Definition create_copy_for_player (b : cells) : list (list Z) :=
  map (map BoardCell.value) b.

(** *** The turn engine ([Game]) *)

(** What a call of [player.move] through [_safe_run] comes to. *)
Inductive Response :=
| Returned (m : Move)   (* a Move instance *)
| ReturnedOther         (* any other object, None included *)
| Raised                (* the call raised *)
| TimedOut.             (* no answer within the timeout: _safe_run gives None *)

(** A player answers from the boards it has been handed so far, the
    latest first. *)
Definition Player := list (list (list Z)) -> Response.

Definition INCORRECT_MOVE_TRIES_LIMIT : Z := 5.

(** The fields of [Game]; [black_seen] and [white_seen] record the calls
    made to each player: the board copies handed over, the latest first. *)
Record Game := {
  board : cells;
  current_move : PlayerType.t;
  move_counter : Z;
  winner : option Winner.t;
  black_seen : list (list (list Z));
  white_seen : list (list (list Z))
}.

(** [Game._init_game] *)
Definition _init_game : Game :=
  {| board := GameBoard_init; current_move := PlayerType.BLACK;
     move_counter := 0; winner := None; black_seen := []; white_seen := [] |}.

Definition with_board (g : Game) (b : cells) : Game :=
  {| board := b; current_move := current_move g;
     move_counter := move_counter g; winner := winner g;
     black_seen := black_seen g; white_seen := white_seen g |}.

Definition with_current_move (g : Game) (p : PlayerType.t) : Game :=
  {| board := board g; current_move := p;
     move_counter := move_counter g; winner := winner g;
     black_seen := black_seen g; white_seen := white_seen g |}.

Definition with_winner (g : Game) (w : option Winner.t) : Game :=
  {| board := board g; current_move := current_move g;
     move_counter := move_counter g; winner := w;
     black_seen := black_seen g; white_seen := white_seen g |}.

Section Engine.
Variables black_player white_player : Player.

(** The body of the [try] in [_make_one_move]: one call of the current
    player and the validation of its answer. *)
Definition try_once (g : Game) : Game * Py.result exn unit :=
  let board_copy := create_copy_for_player (board g) in
  let ask (p : Player) (seen : list (list (list Z))) := p (board_copy :: seen) in
  let answer :=
    match current_move g with
    | PlayerType.BLACK => ask black_player (black_seen g)
    | PlayerType.WHITE => ask white_player (white_seen g)
    end in
  let g1 :=
    match current_move g with
    | PlayerType.BLACK =>
        {| board := board g; current_move := current_move g;
           move_counter := move_counter g; winner := winner g;
           black_seen := board_copy :: black_seen g; white_seen := white_seen g |}
    | PlayerType.WHITE =>
        {| board := board g; current_move := current_move g;
           move_counter := move_counter g; winner := winner g;
           black_seen := black_seen g; white_seen := board_copy :: white_seen g |}
    end in
  match answer with
  | Raised => (g1, Py.Raise (IncorrectMove MoveError))
  | TimedOut | ReturnedOther => (g1, Py.Raise (IncorrectMove NotAMove))
  | Returned move =>
      let '(b', r) := apply_move (board g1) (current_move g1) move in
      (with_board g1 b', r)
  end.

(** The [while try_index < INCORRECT_MOVE_TRIES_LIMIT] loop: [Ok true]
    when it is left by [break], [Ok false] when its [else] runs, and
    the exception when one other than [IncorrectMove] passes through. *)
Fixpoint tries (fuel : nat) (g : Game) (try_index : Z)
  : Game * Py.result exn bool :=
  match fuel with
  | O => (g, Py.OutOfFuel)
  | S fuel' =>
      if try_index <? INCORRECT_MOVE_TRIES_LIMIT then
        match try_once g with
        | (g', Py.Ok _) => (g', Py.Ok true)
        | (g', Py.Raise (IncorrectMove _)) => tries fuel' g' (try_index + 1)
        | (g', Py.Raise e) => (g', Py.Raise e)
        | (g', Py.OutOfFuel) => (g', Py.OutOfFuel)
        end
      else (g, Py.Ok false)
  end.

(** [Game._make_one_move] *)
Definition _make_one_move (fuel : nat) (g : Game) : Game * Py.result exn unit :=
  let g0 :=
    {| board := board g; current_move := current_move g;
       move_counter :=
         if PlayerType.eqb (current_move g) PlayerType.BLACK
         then move_counter g + 1 else move_counter g;
       winner := winner g; black_seen := black_seen g; white_seen := white_seen g |} in
  match has_player_correct_move (board g0) (current_move g0) with
  | Py.Ok false =>
      (with_current_move g0 (PlayerType.inverse (current_move g0)), Py.Ok tt)
  | Py.Ok true =>
      match tries fuel g0 1 with
      | (g1, Py.Ok false) =>
          (with_winner g1
             (Some (Winner.of_player (PlayerType.inverse (current_move g1)))),
           Py.Ok tt)
      | (g1, Py.Ok true) =>
          (with_current_move g1 (PlayerType.inverse (current_move g1)), Py.Ok tt)
      | (g1, Py.Raise e) => (g1, Py.Raise e)
      | (g1, Py.OutOfFuel) => (g1, Py.OutOfFuel)
      end
  | Py.Raise e => (g0, Py.Raise e)
  | Py.OutOfFuel => (g0, Py.OutOfFuel)
  end.

(** [Game._check_for_winner] *)
Definition _check_for_winner (g : Game) : Game * Py.result exn unit :=
  match get_winner (board g) with
  | Py.Ok None => (g, Py.Ok tt)
  | Py.Ok (Some w) => (with_winner g (Some w), Py.Ok tt)
  | Py.Raise e => (g, Py.Raise e)
  | Py.OutOfFuel => (g, Py.OutOfFuel)
  end.

(** The [while not self._is_game_finished()] loop of [Game.play]. *)
Fixpoint play_loop (tfuel fuel : nat) (g : Game) : Game * Py.result exn unit :=
  match fuel with
  | O => (g, Py.OutOfFuel)
  | S fuel' =>
      match winner g with
      | Some _ => (g, Py.Ok tt)
      | None =>
          match _make_one_move tfuel g with
          | (g1, Py.Ok _) =>
              match _check_for_winner g1 with
              | (g2, Py.Ok _) => play_loop tfuel fuel' g2
              | (g2, r) => (g2, r)
              end
          | (g1, r) => (g1, r)
          end
      end
  end.

(** [Game.play]: the winner it returns. *)
Definition play (tfuel fuel : nat) : Py.result exn (option Winner.t) :=
  match play_loop tfuel fuel _init_game with
  | (g, Py.Ok _) => Py.Ok (winner g)
  | (_, Py.Raise e) => Py.Raise e
  | (_, Py.OutOfFuel) => Py.OutOfFuel
  end.
End Engine.

(** A player that plays a fixed list of moves, one per call. *)
Definition scripted (moves : list Move) : Player :=
  fun seen =>
    match moves !! (length seen - 1)%nat with
    | Some m => Returned m
    | None => ReturnedOther
    end.

(** The boards that calls of [apply_move] lead to, whatever the calls
    and however they end. *)
Inductive moves_to : cells -> cells -> Prop :=
| moves_none b : moves_to b b
| moves_more b player_type move b1 r b2 :
    apply_move b player_type move = (b1, r) ->
    moves_to b1 b2 ->
    moves_to b b2.

(** The changes of a cell the specification allows: from EMPTY to the
    disc of a player, and from the disc of a player to the disc of the
    other. *)
Definition allowed_change (v v' : BoardCell.t) : Prop :=
  v' = v
  \/ (v = BoardCell.EMPTY /\ v' <> BoardCell.EMPTY)
  \/ (v <> BoardCell.EMPTY /\ v' <> BoardCell.EMPTY /\ v' <> v).

(** How many cells of the board a walk from (x, y) can still visit. *)
Definition walk_distance (direction_x direction_y x y : Z) : Z :=
  if direction_x =? 1 then size - x
  else if direction_x =? -1 then x + 1
  else if direction_y =? 1 then size - y
  else y + 1.

(** *** The capture rule in the words of the specification

    In one direction the run is the opposing cells next to the target,
    kept only when a cell of the mover ends them; an empty cell or the
    edge of the board ends the direction with nothing. *)
Fixpoint spec_run (fuel : nat) (b : cells) (board_cell : BoardCell.t)
    (direction_x direction_y x y : Z) (run : list (Z * Z)) : list (Z * Z) :=
  match fuel with
  | O => []
  | S fuel' =>
      if _is_valid_coordinates x y then
        match get b x y with
        | Py.Ok c =>
            if BoardCell.eqb c board_cell then run
            else if BoardCell.eqb c BoardCell.EMPTY then []
            else spec_run fuel' b board_cell direction_x direction_y
                   (x + direction_x) (y + direction_y) (run ++ [(x, y)])
        | _ => []
        end
      else []
  end.

Definition spec_flipped (b : cells) (row column : Z) (board_cell : BoardCell.t)
  : list (Z * Z) :=
  flat_map
    (fun d => spec_run walk_fuel b board_cell (fst d) (snd d)
                (row + fst d) (column + snd d) [])
    directions.

Definition move_at (r c : Z) : Move := {| row := r; column := c |}.

(** A player whose every answer is the cell (-1, -1). *)
Definition out_of_range_player : Player := fun _ => Returned (move_at (-1) (-1)).

(** An answer that [_make_one_move] turns into an IncorrectMove on any
    board: no Move, or a Move outside the board. *)
Definition bad_answer (a : Response) : Prop :=
  match a with
  | Returned m => _is_valid_coordinates (row m) (column m) = false
  | _ => True
  end.

(** The board after black has taken the cell (2, 3) of a new board. *)
Definition after_first_move : cells :=
  let e := BoardCell.EMPTY in
  let b := BoardCell.BLACK in
  let w := BoardCell.WHITE in
  [ [e; e; e; e; e; e; e; e];
    [e; e; e; e; e; e; e; e];
    [e; e; e; b; e; e; e; e];
    [e; e; e; b; b; e; e; e];
    [e; e; e; b; w; e; e; e];
    [e; e; e; e; e; e; e; e];
    [e; e; e; e; e; e; e; e];
    [e; e; e; e; e; e; e; e] ].

(** Calls of [apply_move] one after the other, up to the first that
    raises. *)
Fixpoint apply_moves (b : cells) (moves : list (PlayerType.t * Move))
  : cells * Py.result exn unit :=
  match moves with
  | [] => (b, Py.Ok tt)
  | (player_type, move) :: rest =>
      match apply_move b player_type move with
      | (b', Py.Ok _) => apply_moves b' rest
      | (b', r) => (b', r)
      end
  end.

(** A game of five moves, and the board after its first four. *)
Definition gap_moves : list (PlayerType.t * Move) :=
  [ (PlayerType.BLACK, move_at 2 3); (PlayerType.WHITE, move_at 4 2);
    (PlayerType.BLACK, move_at 5 1); (PlayerType.WHITE, move_at 2 2) ].
Definition gap_black : Player := scripted [move_at 2 3; move_at 5 1; move_at 1 2].
Definition gap_white : Player := scripted [move_at 4 2; move_at 2 2].
Definition gap_board : cells :=
  let e := BoardCell.EMPTY in
  let b := BoardCell.BLACK in
  let w := BoardCell.WHITE in
  [ [e; e; e; e; e; e; e; e];
    [e; e; e; e; e; e; e; e];
    [e; e; w; b; e; e; e; e];
    [e; e; e; w; b; e; e; e];
    [e; e; b; w; w; e; e; e];
    [e; b; e; e; e; e; e; e];
    [e; e; e; e; e; e; e; e];
    [e; e; e; e; e; e; e; e] ].
(** The board the fifth move, black at (1, 2), leaves behind. *)
Definition gap_board_after : cells :=
  let e := BoardCell.EMPTY in
  let b := BoardCell.BLACK in
  let w := BoardCell.WHITE in
  [ [e; e; e; e; e; e; e; e];
    [e; e; b; e; e; e; e; e];
    [e; e; b; b; e; e; e; e];
    [e; e; e; w; b; e; e; e];
    [e; e; b; w; w; e; e; e];
    [e; b; e; e; e; e; e; e];
    [e; e; e; e; e; e; e; e];
    [e; e; e; e; e; e; e; e] ].

End Reversi.

(** ** Kirzhanovsky, the numeric game (kirzhanovsky.py) *)

Module Kirzhanovsky.

(** The objects a player may return. A float stands for its exact
    (finite) value; [PyObj] is any object that is no number (a string, a
    tuple, a list). *)
Inductive PyVal :=
| PyInt (n : Z)
| PyFloat (q : Q)
| PyNone
| PyObj.

(** What a call of [player.move] through [_safe_run] comes to. *)
Inductive Response :=
| Returned (v : PyVal)
| Raised        (* the call raised *)
| TimedOut.     (* no answer within the timeout: _safe_run gives None *)

(** What the [except Exception] of [_safe_move] caught. *)
Inductive cause :=
| PlayerRaised   (* the exception of the player's call *)
| TypeError      (* the %d format or the comparison refused the object *)
| BadValue.      (* the IncorrectMove of the range test *)

(** The messages of [IncorrectMove], by the place that raises them. *)
Inductive reason :=
| MoveError (c : cause)   (* the handler of the inner try, around its cause *)
| NotAnInt.               (* the isinstance test *)

Inductive exn :=
| IncorrectMove (r : reason)
| ValueError
| IndexError
| KeyError.

(** A player answers from the history copies it has been handed so far,
    the latest first. *)
Definition Player := list (list (list Z)) -> Response.

Definition INCORRECT_MOVE_TRIES_LIMIT : Z := 5.
Definition ROUNDS_IN_GAME : Z := 100.

(** ['%d' % move] is defined for numbers only. *)
Definition formats_as_d (v : PyVal) : bool :=
  match v with
  | PyInt _ | PyFloat _ => true
  | PyNone | PyObj => false
  end.

(** [move < k] and [move > k] for an int [k]; [None] is the TypeError of
    an object that is no number. *)
Definition py_lt (v : PyVal) (k : Z) : option bool :=
  match v with
  | PyInt n => Some (n <? k)
  | PyFloat q => Some (negb (Qle_bool (inject_Z k) q))
  | PyNone | PyObj => None
  end.

Definition py_gt (v : PyVal) (k : Z) : option bool :=
  match v with
  | PyInt n => Some (n >? k)
  | PyFloat q => Some (negb (Qle_bool q (inject_Z k)))
  | PyNone | PyObj => None
  end.

(** [isinstance(move, int)] *)
Definition isinstance_int (v : PyVal) : option Z :=
  match v with
  | PyInt n => Some n
  | _ => None
  end.

(** The inner [try] of [_safe_move]: the call, the log line with [%d] and
    the range test, for [players_count = len(self.players)]. *)
Definition checked_call (players_count : Z) (answer : Response)
  : Py.result cause PyVal :=
  match answer with
  | Raised => Py.Raise PlayerRaised
  | TimedOut | Returned _ =>
      let move := match answer with Returned v => v | _ => PyNone end in
      if negb (formats_as_d move) then Py.Raise TypeError
      else
        match py_lt move 1 with
        | None => Py.Raise TypeError
        | Some true => Py.Raise BadValue
        | Some false =>
            match py_gt move players_count with
            | None => Py.Raise TypeError
            | Some true => Py.Raise BadValue
            | Some false => Py.Ok move
            end
        end
  end.

(** The body of the outer [try] of [_safe_move]. *)
Definition validate (players_count : Z) (answer : Response) : Py.result exn Z :=
  match checked_call players_count answer with
  | Py.Raise c => Py.Raise (IncorrectMove (MoveError c))
  | Py.OutOfFuel => Py.OutOfFuel
  | Py.Ok move =>
      match isinstance_int move with
      | None => Py.Raise (IncorrectMove NotAnInt)
      | Some n => Py.Ok n
      end
  end.

(** The [while try_index < INCORRECT_MOVE_TRIES_LIMIT] loop of
    [_safe_move] and its [else]: the move returned and the history
    copies the player has seen. [copy.deepcopy(self.history)] holds the
    values of [history]. *)
Fixpoint tries (fuel : nat) (players_count : Z) (history : list (list Z))
    (player : Player) (seen : list (list (list Z))) (try_index : Z)
  : list (list (list Z)) * Py.result exn Z :=
  match fuel with
  | O => (seen, Py.OutOfFuel)
  | S fuel' =>
      if try_index <? INCORRECT_MOVE_TRIES_LIMIT then
        let history_copy := history in
        let seen' := history_copy :: seen in
        match validate players_count (player seen') with
        | Py.Ok move => (seen', Py.Ok move)
        | Py.Raise (IncorrectMove _) =>
            tries fuel' players_count history player seen' (try_index + 1)
        | Py.Raise e => (seen', Py.Raise e)
        | Py.OutOfFuel => (seen', Py.OutOfFuel)
        end
      else (seen, Py.Ok (-1))
  end.

(** [Game._safe_move] *)
Definition _safe_move (fuel : nat) (players_count : Z) (history : list (list Z))
    (player : Player) (seen : list (list (list Z)))
  : list (list (list Z)) * Py.result exn Z :=
  tries fuel players_count history player seen 1.

(** The fields of [Game]; [seen] records, player by player, the history
    copies handed over, the latest first. *)
Record Game := {
  history : list (list Z);
  move_number : Z;
  winner : option nat;
  seen : list (list (list (list Z)))
}.

(** [Game._init_game], for [n] players. *)
Definition _init_game (n : nat) : Game :=
  {| history := []; move_number := 0; winner := None; seen := replicate n [] |}.

(** [[self._safe_move(player) for player in self.players]] *)
Fixpoint safe_moves (fuel : nat) (players_count : Z) (history : list (list Z))
    (players : list Player) (seens : list (list (list (list Z))))
  : list (list (list (list Z))) * Py.result exn (list Z) :=
  match players, seens with
  | player :: players', s :: seens' =>
      match _safe_move fuel players_count history player s with
      | (s', Py.Ok move) =>
          match safe_moves fuel players_count history players' seens' with
          | (ss, Py.Ok moves) => (s' :: ss, Py.Ok (move :: moves))
          | (ss, Py.Raise e) => (s' :: ss, Py.Raise e)
          | (ss, Py.OutOfFuel) => (s' :: ss, Py.OutOfFuel)
          end
      | (s', Py.Raise e) => (s' :: seens', Py.Raise e)
      | (s', Py.OutOfFuel) => (s' :: seens', Py.OutOfFuel)
      end
  | _, _ => (seens, Py.Ok [])
  end.

(** [Game._make_one_move] *)
Definition _make_one_move (fuel : nat) (players : list Player) (g : Game)
  : Game * Py.result exn unit :=
  let n := Z.of_nat (length players) in
  match safe_moves fuel n (history g) players (seen g) with
  | (ss, Py.Ok moves) =>
      ({| history := history g ++ [moves]; move_number := move_number g + 1;
          winner := winner g; seen := ss |}, Py.Ok tt)
  | (ss, Py.Raise e) =>
      ({| history := history g; move_number := move_number g + 1;
          winner := winner g; seen := ss |}, Py.Raise e)
  | (ss, Py.OutOfFuel) =>
      ({| history := history g; move_number := move_number g + 1;
          winner := winner g; seen := ss |}, Py.OutOfFuel)
  end.

(** *** Scoring ([Game._find_winner]) *)

(** [round.count(x)] *)
Definition count (x : Z) (round : list Z) : nat := count_occ Z.eq_dec round x.

(** [{x: round.count(x) for x in set(round)}] *)
Definition counts (round : list Z) : gmap Z nat :=
  set_to_map (fun x => (x, count x round)) (list_to_set round : gset Z).

(** [enumerate(round)] *)
Definition enumerate (round : list Z) : list (nat * Z) :=
  imap (fun i x => (i, x)) round.

(** [sorted(pairs, key=operator.itemgetter(1))]: the stable sort by the
    second component, as a stable insertion sort. *)
Fixpoint insert_by_move (p : nat * Z) (l : list (nat * Z)) : list (nat * Z) :=
  match l with
  | [] => [p]
  | q :: l' => if snd p <=? snd q then p :: q :: l' else q :: insert_by_move p l'
  end.

Definition sorted_by_move (l : list (nat * Z)) : list (nat * Z) :=
  foldr insert_by_move [] l.

(** The inner [for] of [_find_winner]: the first pair, in sorted order,
    whose move was played once. *)
Fixpoint first_unique (cs : gmap Z nat) (l : list (nat * Z))
  : Py.result exn (option (nat * Z)) :=
  match l with
  | [] => Py.Ok None
  | (player_id, player_move) :: l' =>
      match cs !! player_move with
      | None => Py.Raise KeyError
      | Some c =>
          if Nat.eqb c 1 then Py.Ok (Some (player_id, player_move))
          else first_unique cs l'
      end
  end.

(** The body of the [for round_id, round in enumerate(self.history)] loop:
    [scores] after the round. *)
Definition score_round (scores : list Z) (round : list Z) : Py.result exn (list Z) :=
  let* hit := first_unique (counts round) (sorted_by_move (enumerate round)) in
  match hit with
  | None => Py.Ok scores
  | Some (player_id, player_move) =>
      match scores !! player_id with
      | None => Py.Raise IndexError
      | Some s => Py.Ok (<[player_id := s + player_move]> scores)
      end
  end.

Fixpoint score_rounds (scores : list Z) (rounds : list (list Z))
  : Py.result exn (list Z) :=
  match rounds with
  | [] => Py.Ok scores
  | round :: rounds' =>
      let* scores' := score_round scores round in
      score_rounds scores' rounds'
  end.

(** [scores] at the end of the first loop of [_find_winner]. *)
Definition compute_scores (players_count : nat) (h : list (list Z))
  : Py.result exn (list Z) :=
  score_rounds (replicate players_count 0) h.

(** [max(scores)]: ValueError on an empty list. *)
Definition py_max (l : list Z) : Py.result exn Z :=
  match l with
  | [] => Py.Raise ValueError
  | x :: l' => Py.Ok (foldl Z.max x l')
  end.

(** [[i for i, x in enumerate(scores) if x == max_score]] *)
Definition best_players (scores : list Z) (max_score : Z) : list nat :=
  fst <$> filter (fun p => snd p = max_score) (imap (fun i x => (i, x)) scores).

(** [Game._find_winner]: the game after the call and the value
    returned. *)
Definition _find_winner (players_count : nat) (g : Game) : Game * Py.result exn bool :=
  match compute_scores players_count (history g) with
  | Py.Ok scores =>
      match py_max scores with
      | Py.Ok max_score =>
          match best_players scores max_score with
          | [best] =>
              ({| history := history g; move_number := move_number g;
                  winner := Some best; seen := seen g |}, Py.Ok true)
          | _ => (g, Py.Ok false)
          end
      | Py.Raise e => (g, Py.Raise e)
      | Py.OutOfFuel => (g, Py.OutOfFuel)
      end
  | Py.Raise e => (g, Py.Raise e)
  | Py.OutOfFuel => (g, Py.OutOfFuel)
  end.

Section Engine.
Variable players : list Player.

(** The first loop of [Game.play]:
    [while not self._is_game_finished(): self._make_one_move()]. *)
Fixpoint base_rounds (tfuel fuel : nat) (g : Game) : Game * Py.result exn unit :=
  match fuel with
  | O => (g, Py.OutOfFuel)
  | S fuel' =>
      if move_number g =? ROUNDS_IN_GAME then (g, Py.Ok tt)
      else
        match _make_one_move tfuel players g with
        | (g', Py.Ok _) => base_rounds tfuel fuel' g'
        | (g', r) => (g', r)
        end
  end.

(** The second loop of [Game.play]:
    [while not self._find_winner(): self._make_one_move()]. *)
Fixpoint extra_rounds (tfuel fuel : nat) (g : Game) : Game * Py.result exn unit :=
  match fuel with
  | O => (g, Py.OutOfFuel)
  | S fuel' =>
      match _find_winner (length players) g with
      | (g', Py.Ok true) => (g', Py.Ok tt)
      | (g', Py.Ok false) =>
          match _make_one_move tfuel players g' with
          | (g'', Py.Ok _) => extra_rounds tfuel fuel' g''
          | (g'', r) => (g'', r)
          end
      | (g', Py.Raise e) => (g', Py.Raise e)
      | (g', Py.OutOfFuel) => (g', Py.OutOfFuel)
      end
  end.

(** [Game.play]: the winner it returns. *)
Definition play (tfuel fuel : nat) : Py.result exn (option nat) :=
  match base_rounds tfuel fuel (_init_game (length players)) with
  | (g, Py.Ok _) =>
      match extra_rounds tfuel fuel g with
      | (g', Py.Ok _) => Py.Ok (winner g')
      | (_, Py.Raise e) => Py.Raise e
      | (_, Py.OutOfFuel) => Py.OutOfFuel
      end
  | (_, Py.Raise e) => Py.Raise e
  | (_, Py.OutOfFuel) => Py.OutOfFuel
  end.
End Engine.

(** A player that always returns the same object. *)
Definition constant (v : PyVal) : Player := fun _ => Returned v.

(** An answer that [_safe_move] turns into an IncorrectMove. *)
Definition bad_answer (players_count : Z) (a : Response) : Prop :=
  exists r, validate players_count a = Py.Raise (IncorrectMove r).

(** The order of [sorted]: by the move. *)
Definition move_le (p q : nat * Z) : Prop := snd p <= snd q.

(** Three players: the first always answers 0, the others 1 and 2. *)
Definition forfeit_players : list Player :=
  [constant (PyInt 0); constant (PyInt 1); constant (PyInt 2)].

End Kirzhanovsky.

(** ** The objects behind a board and a history: references and copies

    [create_copy_for_player] and [copy.deepcopy] are about which list
    objects are shared between the engine and a player, so here the boards
    and the history live in a store of mutable objects. *)

Module Store.

Definition loc := positive.

Inductive value :=
| VInt (n : Z)      (* an int *)
| VMember (n : Z)   (* the member of BoardCell whose [.value] is [n] *)
| VRef (l : loc).   (* a reference to an object of the store *)

Inductive object :=
| OList (items : list value)           (* a list *)
| OGameBoard (size board : value).     (* a GameBoard and its attributes *)

Abbreviation heap := (gmap loc object).

(** The references an object holds. *)
Definition value_refs (v : value) : gset loc :=
  match v with
  | VRef l => {[ l ]}
  | _ => ∅
  end.

Definition refs (o : object) : gset loc :=
  match o with
  | OList items => ⋃ (value_refs <$> items)
  | OGameBoard s b => value_refs s ∪ value_refs b
  end.

(** A new object is stored where nothing is. *)
Definition alloc (h : heap) (o : object) : heap * loc :=
  let l := fresh (dom h) in (<[l := o]> h, l).

Fixpoint alloc_lists (h : heap) (lines : list (list value)) : heap * list loc :=
  match lines with
  | [] => (h, [])
  | line :: lines' =>
      let '(h1, l) := alloc h (OList line) in
      let '(h2, ls) := alloc_lists h1 lines' in
      (h2, l :: ls)
  end.

(** [GameBoard()]: [__init__] sets [size] and builds the lists of the
    starting position [init], given by the values of its cells. *)
Definition new_GameBoard (sz : Z) (init : list (list Z)) (h : heap) : heap * loc :=
  let '(h1, lines) := alloc_lists h (map (map VMember) init) in
  let '(h2, outer) := alloc h1 (OList (VRef <$> lines)) in
  alloc h2 (OGameBoard (VInt sz) (VRef outer)).

(** [cell.value]: an attribute of the members of an Enum only. *)
Definition member_value (v : value) : option value :=
  match v with
  | VMember n => Some (VInt n)
  | _ => None
  end.

(** [[[cell.value for cell in row] for row in self.board]]: the new
    lists, one for each row. *)
Fixpoint copy_rows (h : heap) (rows : list value) : option (heap * list loc) :=
  match rows with
  | [] => Some (h, [])
  | VRef lr :: rows' =>
      match h !! lr with
      | Some (OList cells) =>
          match mapM member_value cells with
          | Some ints =>
              let '(h1, l) := alloc h (OList ints) in
              match copy_rows h1 rows' with
              | Some (h2, ls) => Some (h2, l :: ls)
              | None => None
              end
          | None => None
          end
      | _ => None
      end
  | _ :: _ => None
  end.

(** [GameBoard.create_copy_for_player] of both board games, for the
    board object at [self]: the store after the call and the object
    returned. [None] when the call raises. *)
Definition create_copy_for_player (sz : Z) (init : list (list Z))
    (h : heap) (self : loc) : option (heap * loc) :=
  let '(h1, board_copy) := new_GameBoard sz init h in
  match h1 !! self with
  | Some (OGameBoard _ (VRef lb)) =>
      match h1 !! lb with
      | Some (OList rows) =>
          match copy_rows h1 rows with
          | Some (h2, ls) =>
              let '(h3, outer) := alloc h2 (OList (VRef <$> ls)) in
              match h3 !! board_copy with
              | Some (OGameBoard s _) =>
                  Some (<[board_copy := OGameBoard s (VRef outer)]> h3, board_copy)
              | _ => None
              end
          | None => None
          end
      | _ => None
      end
  | _ => None
  end.

(** [copy.deepcopy] on ints, Enum members and lists: [memo] maps the
    lists already copied to their copies; a list is copied by
    [y = []; memo[id(x)] = y; for a in x: y.append(deepcopy(a, memo))]. *)
Fixpoint copy_items (rec : heap -> gmap loc loc -> value -> option (heap * gmap loc loc * value))
    (y : loc) (items : list value) (h : heap) (memo : gmap loc loc)
  : option (heap * gmap loc loc) :=
  match items with
  | [] => Some (h, memo)
  | a :: rest =>
      match rec h memo a with
      | Some (h1, memo1, a') =>
          match h1 !! y with
          | Some (OList ys) => copy_items rec y rest (<[y := OList (ys ++ [a'])]> h1) memo1
          | _ => None
          end
      | None => None
      end
  end.

Fixpoint deepcopy (fuel : nat) (h : heap) (memo : gmap loc loc) (v : value)
  : option (heap * gmap loc loc * value) :=
  match v with
  | VInt _ | VMember _ => Some (h, memo, v)
  | VRef l =>
      match memo !! l with
      | Some l' => Some (h, memo, VRef l')
      | None =>
          match fuel with
          | O => None
          | S fuel' =>
              match h !! l with
              | Some (OList items) =>
                  let '(h1, y) := alloc h (OList []) in
                  match copy_items (deepcopy fuel') y items h1 (<[l := y]> memo) with
                  | Some (h2, memo2) => Some (h2, memo2, VRef y)
                  | None => None
                  end
              | _ => None
              end
          end
      end
  end.

(** *** What a player can do to the store

    A player holds the references it was given, those it reads out of
    the objects it holds and those of the objects it creates. It can
    change any object it holds in any way, and store there what it
    holds. *)
Inductive action :=
| ARead (l : loc)                 (* look into an object *)
| AWrite (l : loc) (o : object)   (* change an object in place: it becomes [o] *)
| AAlloc (o : object).            (* create an object *)

(** The store after the actions of a player that holds [known]; [None]
    when an action needs a reference the player does not hold. *)
Fixpoint run_agent (h : heap) (known : gset loc) (acts : list action) : option heap :=
  match acts with
  | [] => Some h
  | ARead l :: rest =>
      if decide (l ∈ known) then
        match h !! l with
        | Some o => run_agent h (known ∪ refs o) rest
        | None => None
        end
      else None
  | AWrite l o :: rest =>
      if decide (l ∈ known ∧ refs o ⊆ known ∧ is_Some (h !! l))
      then run_agent (<[l := o]> h) known rest
      else None
  | AAlloc o :: rest =>
      if decide (refs o ⊆ known)
      then run_agent (<[fresh (dom h) := o]> h) (known ∪ {[ fresh (dom h) ]}) rest
      else None
  end.

(** *** Reading a board or a history out of the store *)

(** The list at [outer] is a list of lists that hold [grid]. *)
Definition holds_grid (h : heap) (outer : loc) (grid : list (list value)) : Prop :=
  ∃ lines : list loc,
    h !! outer = Some (OList (VRef <$> lines))
    ∧ Forall2 (fun l line => h !! l = Some (OList line)) lines grid.

(** The object at [self] is a GameBoard whose [board] holds [grid]. *)
Definition holds_board (h : heap) (self : loc) (sz : Z) (grid : list (list value)) : Prop :=
  ∃ outer : loc,
    h !! self = Some (OGameBoard (VInt sz) (VRef outer)) ∧ holds_grid h outer grid.

(** The objects a board is made of: the GameBoard, the list of its rows
    and the rows. *)
Definition grid_locs (h : heap) (outer : loc) : gset loc :=
  {[ outer ]} ∪ match h !! outer with Some o => refs o | None => ∅ end.

Definition board_locs (h : heap) (self : loc) : gset loc :=
  {[ self ]} ∪
    match h !! self with
    | Some (OGameBoard _ (VRef outer)) => grid_locs h outer
    | _ => ∅
    end.

(** A grid of numbers as the members of BoardCell with these values, and
    as ints. *)
Definition members (grid : list (list Z)) : list (list value) := map (map VMember) grid.
Definition ints (grid : list (list Z)) : list (list value) := map (map VInt) grid.

(** The objects of [E] are out of the reach of a player that holds
    [known]: no reference the player holds, and no reference stored in
    an object outside [E], leads into [E]. *)
Definition separate (E : gset loc) (h : heap) (known : gset loc) : Prop :=
  E ⊆ dom h
  ∧ known ## E
  ∧ ∀ l o, l ∉ E → h !! l = Some o → refs o ## E.

(** What [memo] holds while the list [hist] is copied into [y]: [hist]
    itself, and rows of [h0] with their finished copies in [h]. *)
Definition memo_ok (h0 h : heap) (hist y : loc) (memo : gmap loc loc) : Prop :=
  ∀ l l', memo !! l = Some l' →
    (l = hist ∧ l' = y)
    ∨ ((l' ≠ y) ∧ (l' ∉ dom h0)
       ∧ ∃ items, h0 !! l = Some (OList items) ∧ h !! l' = Some (OList items)).

(** [h'] has the objects of [h], unchanged. *)
Definition agrees (h h' : heap) : Prop :=
  ∀ l, l ∈ dom h → h' !! l = h !! l.

(** [h] is [h0] and new objects that hold no reference to an object of
    [h0]. *)
Definition grows (h0 h : heap) : Prop :=
  agrees h0 h ∧ ∀ l o, l ∉ dom h0 → h !! l = Some o → refs o ## dom h0.

End Store.

(** ** The boards and the history of the engines in the store *)

Module InStore.
Import Store.

(** The board of a TicTacToe game is the GameBoard at [self]. *)
Definition ttt_board (h : heap) (self : loc) (b : list (list TicTacToe.BoardCell.t)) : Prop :=
  holds_board h self TicTacToe.size (members (map (map TicTacToe.BoardCell.value) b)).

(** The GameBoard at [board_copy] is a TicTacToe board of ints. *)
Definition ttt_snapshot (h : heap) (board_copy : loc) (snapshot : list (list Z)) : Prop :=
  holds_board h board_copy TicTacToe.size (ints snapshot).

(** [GameBoard.create_copy_for_player] of tictactoe.py. *)
Definition ttt_create_copy_for_player (h : heap) (self : loc) : option (heap * loc) :=
  create_copy_for_player TicTacToe.size
    (map (map TicTacToe.BoardCell.value) TicTacToe.GameBoard_init) h self.

(** The board of a Reversi game is the GameBoard at [self]. *)
Definition rev_board (h : heap) (self : loc) (b : list (list Reversi.BoardCell.t)) : Prop :=
  holds_board h self Reversi.size (members (map (map Reversi.BoardCell.value) b)).

(** The GameBoard at [board_copy] is a Reversi board of ints. *)
Definition rev_snapshot (h : heap) (board_copy : loc) (snapshot : list (list Z)) : Prop :=
  holds_board h board_copy Reversi.size (ints snapshot).

(** [GameBoard.create_copy_for_player] of reversi.py. *)
Definition rev_create_copy_for_player (h : heap) (self : loc) : option (heap * loc) :=
  create_copy_for_player Reversi.size
    (map (map Reversi.BoardCell.value) Reversi.GameBoard_init) h self.

(** The history of a Kirzhanovsky game is the list at [hist]. *)
Definition kir_history (h : heap) (hist : loc) (history : list (list Z)) : Prop :=
  holds_grid h hist (ints history).

(** A store with a new TicTacToe board, a new Reversi board, and a
    history of two rounds. *)
Definition ttt_store : heap * loc :=
  new_GameBoard TicTacToe.size
    (map (map TicTacToe.BoardCell.value) TicTacToe.GameBoard_init) ∅.
Definition rev_store : heap * loc :=
  new_GameBoard Reversi.size
    (map (map Reversi.BoardCell.value) Reversi.GameBoard_init) ∅.
Definition kir_store : heap * loc :=
  let '(h1, lines) := alloc_lists ∅ (ints [[1; 2]; [2; 2]]) in
  alloc h1 (OList (VRef <$> lines)).

(** What a player may do with the copy of the new TicTacToe board: look
    into it, overwrite a row, make a list of its own and put it in the place
    of the rows. *)
Definition ttt_meddling (board_copy outer line : loc) : list action :=
  [ ARead board_copy; ARead outer;
    AWrite line (OList [VInt 7; VInt 7; VInt 7]);
    AAlloc (OList [VRef line]);
    AWrite board_copy (OGameBoard (VInt 0) (VRef line)) ].

(** What a player may do with any copy: look into it, make a list that
    refers to it, and empty it. *)
Definition meddling (copy : loc) : list action :=
  [ ARead copy; AAlloc (OList [VRef copy]); AWrite copy (OList []) ].

End InStore.

(** ** TicTacToe: the rules the board is judged by *)

Module TicTacToeRules.
Import TicTacToe.

#[global] Instance BoardCell_eq_dec : EqDecision BoardCell.t.
Proof. solve_decision. Defined.

(** The shape [GameBoard.__init__] gives a board: [size] rows of [size]
    cells. *)
Definition well_formed (b : cells) : Prop :=
  length b = Z.to_nat size
  /\ Forall (fun line : list BoardCell.t => length line = Z.to_nat size) b.

(** The three rows, the three columns and the two diagonals, as places
    (row, column). *)
Definition lines : list (list (nat * nat)) :=
  [ [(0, 0); (0, 1); (0, 2)]; [(1, 0); (1, 1); (1, 2)]; [(2, 0); (2, 1); (2, 2)];
    [(0, 0); (1, 0); (2, 0)]; [(0, 1); (1, 1); (2, 1)]; [(0, 2); (1, 2); (2, 2)];
    [(0, 0); (1, 1); (2, 2)]; [(0, 2); (1, 1); (2, 0)] ]%nat.

(** Every place of [line] holds the mark of [p]. *)
Definition owns (b : cells) (p : PlayerType.t) (line : list (nat * nat)) : Prop :=
  Forall (fun place => Py.cell_at b place.1 place.2 = Some (BoardCell_of_player p)) line.

(** No cell of the board is EMPTY. *)
Definition full (b : cells) : Prop :=
  Forall (Forall (fun c => c <> BoardCell.EMPTY)) b.

(** The number of EMPTY cells of the board. *)
Definition empties (b : cells) : nat :=
  sum_list ((fun c => if BoardCell.eqb c BoardCell.EMPTY then 1%nat else 0%nat)
              <$> concat b).

(** The player on the side [p] of a game. *)
Definition player_of (x_player o_player : Player) (p : PlayerType.t) : Player :=
  match p with
  | PlayerType.X => x_player
  | PlayerType.O => o_player
  end.

(** The board copies handed to a player so far. *)
Definition seen_by (g : Game) (p : PlayerType.t) : list (list (list Z)) :=
  match p with
  | PlayerType.X => x_seen g
  | PlayerType.O => o_seen g
  end.

(** What [calls] calls of the mover change in the game, the board apart:
    the mover has been handed [calls] copies of the board of [g], and
    nothing else has changed. *)
Definition asked (g g' : Game) (calls : nat) : Prop :=
  current_move g' = current_move g
  /\ winner g' = winner g
  /\ move_counter g' = move_counter g
  /\ seen_by g' (current_move g)
     = replicate calls (create_copy_for_player (board g)) ++ seen_by g (current_move g)
  /\ seen_by g' (PlayerType.inverse (current_move g))
     = seen_by g (PlayerType.inverse (current_move g)).

(** [StupidBot.move] of the module's own test game: the two loops over
    [range(board.size)], left at the first cell of the copy that holds 0;
    without one the loops end and the method returns None. *)
Fixpoint first_zero_in_columns (board : list (list Z)) (row : Z) (columns : list Z)
  : Py.result exn (option Move) :=
  match columns with
  | [] => Py.Ok None
  | column :: columns' =>
      match Py.get2 board row column with
      | None => Py.Raise IndexError
      | Some v =>
          if v =? BoardCell.value BoardCell.EMPTY
          then Py.Ok (Some {| row := row; column := column |})
          else first_zero_in_columns board row columns'
      end
  end.

Fixpoint first_zero_in_rows (board : list (list Z)) (rows : list Z)
  : Py.result exn (option Move) :=
  match rows with
  | [] => Py.Ok None
  | row :: rows' =>
      let* found := first_zero_in_columns board row (Py.range size) in
      match found with
      | Some move => Py.Ok (Some move)
      | None => first_zero_in_rows board rows'
      end
  end.

Definition StupidBot : Player :=
  fun seen =>
    match seen with
    | board :: _ =>
        match first_zero_in_rows board (Py.range size) with
        | Py.Ok (Some move) => Returned move
        | Py.Ok None => ReturnedOther
        | _ => Raised
        end
    | [] => ReturnedOther
    end.

(** The place (i, j) comes before the cell of [m] in the order of the two
    loops of [StupidBot.move]. *)
Definition before (i j : nat) (m : Move) : Prop :=
  (j < Z.to_nat size)%nat
  /\ (Z.of_nat i < row m \/ (Z.of_nat i = row m /\ Z.of_nat j < column m)).

End TicTacToeRules.

(** ** The TicTacToe tournament (battle.py) *)

Module Battle.
Import TicTacToe.


Inductive exn :=
| GameError (e : TicTacToe.exn)   (* an exception of [Game.play] *)
| IndexError.











End Battle.

(** ** Kirzhanovsky: what a round and a game hold *)

Module KirzhanovskyRules.
Import Kirzhanovsky.

(** A move as [_safe_move] returns it: the forfeit -1 or a number of
    1..players_count. *)
Definition recorded_move (players_count : Z) (move : Z) : Prop :=
  move = -1 \/ 1 <= move <= players_count.

(** The history of a game of [n] players: every round holds one recorded
    move per player. *)
Definition rounds_of (n : nat) (h : list (list Z)) : Prop :=
  Forall (fun round => length round = n
                       /\ Forall (recorded_move (Z.of_nat n)) round) h.

(** Every player of the round has played the same move. *)
Definition same_moves (n : nat) (h : list (list Z)) : Prop :=
  Forall (fun round => exists move, round = replicate n move) h.

(** A game whose players have all seen the same and played the same. *)
Definition in_step (n : nat) (g : Game) : Prop :=
  same_moves n (history g) /\ exists s, seen g = replicate n s.

End KirzhanovskyRules.

(** ** Reversi: the rules the board is judged by *)

Module ReversiRules.
Import Reversi.

#[global] Instance BoardCell_eq_dec : EqDecision BoardCell.t.
Proof. solve_decision. Defined.

(** The shape [GameBoard.__init__] gives a board: [size] rows of [size]
    cells. *)
Definition well_formed (b : cells) : Prop :=
  length b = Z.to_nat size
  /\ Forall (fun line : list BoardCell.t => length line = Z.to_nat size) b.

(** The cell (x, y) of the board, for coordinates that are not
    negative. *)
Definition cell (b : cells) (place : Z * Z) : option BoardCell.t :=
  Py.cell_at b (Z.to_nat place.1) (Z.to_nat place.2).

(** The [k] places from (x, y) on in the direction (dx, dy). *)
Definition ray (dx dy x y : Z) (k : nat) : list (Z * Z) :=
  (fun i : nat => (x + Z.of_nat i * dx, y + Z.of_nat i * dy)) <$> seq 0 k.

(** [GameBoard.is_full]: the two [for] loops, left at the first empty
    cell. *)
Fixpoint is_full_columns (b : cells) (r : Z) (cols : list Z) : Py.result exn bool :=
  match cols with
  | [] => Py.Ok true
  | c :: cols' =>
      let* v := get b r c in
      if BoardCell.eqb v BoardCell.EMPTY then Py.Ok false
      else is_full_columns b r cols'
  end.

Fixpoint is_full_rows (b : cells) (rows : list Z) : Py.result exn bool :=
  match rows with
  | [] => Py.Ok true
  | r :: rows' =>
      let* full := is_full_columns b r (Py.range size) in
      if full then is_full_rows b rows' else Py.Ok false
  end.

Definition is_full (b : cells) : Py.result exn bool :=
  is_full_rows b (Py.range size).

(** A cell the player may take by the code: an EMPTY cell of the board
    for which [_get_flipped_cells_for_move] finds a cell. *)
Definition takes (b : cells) (board_cell : BoardCell.t) (row column : Z) : Prop :=
  _is_valid_coordinates row column = true
  /\ cell b (row, column) = Some BoardCell.EMPTY
  /\ exists flipped,
       _get_flipped_cells_for_move b row column board_cell = Py.Ok flipped
       /\ flipped <> [].


(** A place the walk from (row, column) in the direction [d] passes: at
    one step or more from (row, column). *)
Definition on_ray (row column : Z) (d : Z * Z) (place : Z * Z) : Prop :=
  In d directions
  /\ exists j : nat, (1 <= j)%nat
       /\ place = (row + Z.of_nat j * d.1, column + Z.of_nat j * d.2).

(** A cell that [inverse()] can turn for the mover with the cell
    [board_cell]: a cell of the board that holds the disc of the other
    player. *)
Definition turnable (b : cells) (board_cell : BoardCell.t) (place : Z * Z) : Prop :=
  _is_valid_coordinates place.1 place.2 = true
  /\ exists v, cell b place = Some v /\ v <> board_cell.

(** The cell of the board at [place] is not EMPTY. *)
Definition holds_disc (b : cells) (place : Z * Z) : Prop :=
  cell b place <> Some BoardCell.EMPTY.

End ReversiRules.

(** ** Reversi: what a turn and a game come to *)

Module ReversiTurns.
Import Reversi ReversiRules.

(** The places of the board, row by row. *)
Definition places : list (Z * Z) :=
  row ← Py.range size; column ← Py.range size; [(row, column)].

(** The number of EMPTY cells of the board. *)
Definition empties (b : cells) : nat :=
  length (filter (fun place => cell b place = Some BoardCell.EMPTY) places).

(** The player on the side [p] of a game. *)
Definition player_of (black_player white_player : Player) (p : PlayerType.t) : Player :=
  match p with
  | PlayerType.BLACK => black_player
  | PlayerType.WHITE => white_player
  end.

(** The board copies handed to a player so far. *)
Definition seen_by (g : Game) (p : PlayerType.t) : list (list (list Z)) :=
  match p with
  | PlayerType.BLACK => black_seen g
  | PlayerType.WHITE => white_seen g
  end.

(** What [calls] calls of the mover change in the game, the board apart:
    the mover has been handed [calls] copies of the board of [g], and
    nothing else has changed. *)
Definition asked (g g' : Game) (calls : nat) : Prop :=
  current_move g' = current_move g
  /\ winner g' = winner g
  /\ move_counter g' = move_counter g
  /\ seen_by g' (current_move g)
     = replicate calls (create_copy_for_player (board g)) ++ seen_by g (current_move g)
  /\ seen_by g' (PlayerType.inverse (current_move g))
     = seen_by g (PlayerType.inverse (current_move g)).




End ReversiTurns.

(** Closes a conjunction of closed equations by evaluation. *)
Ltac by_evaluation :=
  vm_compute; repeat match goal with |- _ /\ _ => split end; reflexivity.

(** * Properties *)

(** ** Indexing lists of lists *)

Section Indexing.
Context {A : Type}.
Implicit Types (b : list (list A)) (line : list A).

Lemma position_lt (len : nat) (i : Z) (n : nat) :
  Py.position len i = Some n -> (n < len)%nat.
Proof.
  unfold Py.position. intros H.
  destruct ((0 <=? i) && (i <? Z.of_nat len)) eqn:E1.
  - injection H as <-. apply andb_true_iff in E1 as [? ?]. lia.
  - destruct ((i <? 0) && (- Z.of_nat len <=? i)) eqn:E2; [|discriminate].
    injection H as <-. apply andb_true_iff in E2 as [? ?]. lia.
Qed.

Lemma position_in_range (len : nat) (i : Z) :
  0 <= i < Z.of_nat len -> Py.position len i = Some (Z.to_nat i).
Proof.
  intros [H1 H2]. unfold Py.position.
  replace (0 <=? i) with true by (symmetry; apply Z.leb_le; lia).
  replace (i <? Z.of_nat len) with true by (symmetry; apply Z.ltb_lt; lia).
  reflexivity.
Qed.

Lemma cell_at_insert b (i j : nat) line (v : A) (i' j' : nat) :
  b !! i = Some line -> (j < length line)%nat ->
  Py.cell_at (<[i := <[j := v]> line]> b) i' j'
  = if decide (i' = i /\ j' = j) then Some v else Py.cell_at b i' j'.
Proof.
  intros Hline Hj. unfold Py.cell_at.
  assert (Hi : (i < length b)%nat) by (eapply lookup_lt_Some; eauto).
  destruct (decide (i' = i)) as [->|Hne].
  - rewrite list_lookup_insert_eq by exact Hi. rewrite Hline.
    destruct (decide (j' = j)) as [->|Hnj].
    + rewrite list_lookup_insert_eq by exact Hj.
      rewrite decide_True by auto. reflexivity.
    + rewrite list_lookup_insert_ne by auto.
      rewrite decide_False by tauto. reflexivity.
  - rewrite list_lookup_insert_ne by auto.
    rewrite decide_False by tauto. reflexivity.
Qed.

(** [b[r][c]] reads one cell of [b]. *)
Lemma get2_cell_at b (r c : Z) (v : A) :
  Py.get2 b r c = Some v -> exists i j, Py.cell_at b i j = Some v.
Proof.
  unfold Py.get2, Py.index. intros H.
  destruct (Py.position (length b) r) as [i|]; [|discriminate].
  destruct (b !! i) as [line|] eqn:Hl; [|discriminate].
  destruct (Py.position (length line) c) as [j|]; [|discriminate].
  exists i, j. unfold Py.cell_at. rewrite Hl. exact H.
Qed.

(** [b[r][c] = v] changes the cell [b[r][c]] reads, and no other. *)
Lemma set2_cell_at b (r c : Z) (v : A) b' :
  Py.set2 b r c v = Some b' ->
  exists i j, Py.get2 b r c = Py.cell_at b i j
    /\ is_Some (Py.cell_at b i j)
    /\ forall i' j', Py.cell_at b' i' j'
         = if decide (i' = i /\ j' = j) then Some v else Py.cell_at b i' j'.
Proof.
  unfold Py.set2, Py.get2, Py.index, Py.set_index. intros H.
  destruct (Py.position (length b) r) as [i|] eqn:Hi; [|discriminate].
  destruct (b !! i) as [line|] eqn:Hl; [|discriminate].
  destruct (Py.position (length line) c) as [j|] eqn:Hj; [|discriminate].
  injection H as <-.
  apply position_lt in Hj.
  exists i, j. split; [|split].
  - unfold Py.cell_at. rewrite Hl. reflexivity.
  - unfold Py.cell_at. rewrite Hl. apply lookup_lt_is_Some. exact Hj.
  - intros i' j'. apply cell_at_insert; assumption.
Qed.

Lemma set2_total b (r c : Z) (v : A) :
  is_Some (Py.get2 b r c) -> is_Some (Py.set2 b r c v).
Proof.
  unfold Py.set2, Py.get2, Py.index, Py.set_index. intros [x H].
  destruct (Py.position (length b) r) as [i|] eqn:Hi; [|discriminate].
  destruct (b !! i) as [line|] eqn:Hl; [|discriminate].
  destruct (Py.position (length line) c) as [j|] eqn:Hj; [|discriminate].
  eauto.
Qed.
End Indexing.

(** ** TicTacToe: the board *)

Section TicTacToeBoard.
Import TicTacToe.

Lemma ttt_inverse_value (p : PlayerType.t) :
  PlayerType.of_value (3 - PlayerType.value p) = Some (PlayerType.inverse p).
Proof. destruct p; reflexivity. Qed.

Lemma ttt_cell_of_player_value (p : PlayerType.t) :
  BoardCell.of_value (PlayerType.value p) = Some (BoardCell_of_player p).
Proof. destruct p; reflexivity. Qed.

Lemma ttt_winner_of_player_value (p : PlayerType.t) :
  Winner.of_value (PlayerType.value p) = Some (Winner.of_player p).
Proof. destruct p; reflexivity. Qed.

Lemma ttt_cell_eqb_eq (a b : BoardCell.t) : BoardCell.eqb a b = true <-> a = b.
Proof. destruct a, b; simpl; split; congruence. Qed.

(** A call of [apply_move] that does not return leaves the board as it
    was. *)
Lemma ttt_apply_move_failure b p m b' :
  forall r, apply_move b p m = (b', r) -> r <> Py.Ok tt -> b' = b.
Proof.
  intros r H Hr. unfold apply_move in H.
  destruct ((row m <? 0) || (row m >=? size) || (column m <? 0) || (column m >=? size));
    [congruence|].
  destruct (get b (row m) (column m)) as [c| |]; [|congruence..].
  destruct (negb (BoardCell.eqb c BoardCell.EMPTY)); [congruence|].
  destruct (set b (row m) (column m) (BoardCell_of_player p)); [|congruence..].
  injection H as <- <-. congruence.
Qed.

(** A call of [apply_move] changes at most one cell, from EMPTY to the
    mark of the mover. *)
Lemma ttt_apply_move_cells b p m b' r :
  apply_move b p m = (b', r) ->
  forall i j v,
    Py.cell_at b i j = Some v ->
    Py.cell_at b' i j = Some v
    \/ (v = BoardCell.EMPTY /\ Py.cell_at b' i j = Some (BoardCell_of_player p)).
Proof.
  intros H i j v Hv. unfold apply_move in H.
  destruct ((row m <? 0) || (row m >=? size) || (column m <? 0) || (column m >=? size));
    [injection H as <- <-; auto|].
  unfold get, set in H.
  destruct (Py.get2 b (row m) (column m)) as [c|] eqn:Hget;
    [|injection H as <- <-; auto].
  destruct (negb (BoardCell.eqb c BoardCell.EMPTY)) eqn:Hc;
    [injection H as <- <-; auto|].
  apply negb_false_iff, ttt_cell_eqb_eq in Hc. subst c.
  destruct (Py.set2 b (row m) (column m) (BoardCell_of_player p)) as [b1|] eqn:Hset;
    [|injection H as <- <-; auto].
  injection H as <- <-.
  apply set2_cell_at in Hset as (i0 & j0 & Hsame & _ & Hall).
  rewrite Hall. destruct (decide (i = i0 /\ j = j0)) as [[-> ->]|]; [|auto].
  right. split; [|reflexivity]. congruence.
Qed.

Lemma ttt_allowed_change_trans (u v w : BoardCell.t) :
  allowed_change u v -> allowed_change v w -> allowed_change u w.
Proof.
  unfold allowed_change. intros [->|[-> Hv]] [->|[-> Hw]]; auto.
Qed.

Lemma ttt_moves_to_cells b b' :
  moves_to b b' ->
  forall i j v,
    Py.cell_at b i j = Some v ->
    exists v', Py.cell_at b' i j = Some v' /\ allowed_change v v'.
Proof.
  induction 1 as [b|b p m b1 r b2 Hstep _ IH]; intros i j v Hv.
  - exists v. split; [exact Hv|left; reflexivity].
  - destruct (ttt_apply_move_cells _ _ _ _ _ Hstep i j v Hv) as [H1|[-> H1]];
      destruct (IH i j _ H1) as (v' & Hv' & Hch); exists v'; split; try assumption.
    eapply ttt_allowed_change_trans; [|exact Hch].
    right. split; [reflexivity|]. destruct p; discriminate.
Qed.

(** On a board that is not full, a top row of one mark is a win of that
    mark, whatever the other cells hold. *)
Lemma ttt_top_row_not_full (c : BoardCell.t) (rest : cells) :
  c <> BoardCell.EMPTY ->
  is_full ([c; c; c] :: rest) = Py.Ok false ->
  get_winner ([c; c; c] :: rest) = Py.Ok (Winner.of_value (BoardCell.value c)).
Proof.
  intros Hc Hfull. unfold get_winner. rewrite Hfull. simpl.
  destruct c; [contradiction|reflexivity..].
Qed.
End TicTacToeBoard.

(** ** TicTacToe: the retry loop *)

Section TicTacToeEngine.
Import TicTacToe.
Variables x_player o_player : Player.

Lemma ttt_apply_move_out_of_range b p m :
  row m < 0 \/ row m >= size \/ column m < 0 \/ column m >= size ->
  apply_move b p m = (b, Py.Raise (IncorrectMove BadCoordinates)).
Proof.
  intros H. unfold apply_move.
  replace ((row m <? 0) || (row m >=? size) || (column m <? 0) || (column m >=? size))
    with true; [reflexivity|].
  symmetry. rewrite !orb_true_iff, !Z.ltb_lt, !Z.geb_le. lia.
Qed.

Lemma ttt_try_once_bad g :
  current_move g = PlayerType.X ->
  (forall seen, bad_answer (x_player seen)) ->
  exists r,
    try_once x_player o_player g
    = ({| board := board g; current_move := current_move g;
          move_counter := move_counter g; winner := winner g;
          x_seen := create_copy_for_player (board g) :: x_seen g;
          o_seen := o_seen g |}, Py.Raise (IncorrectMove r)).
Proof.
  intros Hx Hbad. unfold try_once. rewrite Hx.
  specialize (Hbad (create_copy_for_player (board g) :: x_seen g)).
  destruct (x_player _) as [m| | |]; simpl in *; eauto.
  rewrite (ttt_apply_move_out_of_range _ _ _ Hbad). eauto.
Qed.

(** When every answer of X is bad, the loop that starts at [try_index]
    asks X [LIMIT - try_index] times and then runs its [else]. *)
Lemma ttt_tries_bad (n : nat) :
  forall fuel g,
    (n < fuel)%nat -> (Z.of_nat n <= INCORRECT_MOVE_TRIES_LIMIT) ->
    current_move g = PlayerType.X ->
    (forall seen, bad_answer (x_player seen)) ->
    exists g',
      tries x_player o_player fuel g (INCORRECT_MOVE_TRIES_LIMIT - Z.of_nat n)
      = (g', Py.Ok false)
      /\ length (x_seen g') = (length (x_seen g) + n)%nat
      /\ board g' = board g /\ current_move g' = current_move g
      /\ winner g' = winner g /\ o_seen g' = o_seen g
      /\ move_counter g' = move_counter g.
Proof.
  induction n as [|n IH]; intros fuel g Hfuel Hn Hx Hbad.
  - destruct fuel as [|fuel]; [lia|]. cbn [tries].
    replace (_ <? _) with false by (symmetry; apply Z.ltb_ge; lia).
    exists g. repeat split; lia.
  - destruct fuel as [|fuel]; [lia|]. cbn [tries].
    replace (_ <? _) with true by (symmetry; apply Z.ltb_lt; lia).
    destruct (ttt_try_once_bad g Hx Hbad) as [r ->].
    replace (INCORRECT_MOVE_TRIES_LIMIT - Z.of_nat (S n) + 1)
      with (INCORRECT_MOVE_TRIES_LIMIT - Z.of_nat n) by lia.
    edestruct (IH fuel) as (g' & -> & Hlen & Hb & Hc & Hw & Ho & Hm);
      [lia|lia| |exact Hbad|]; [exact Hx|].
    exists g'. simpl in *. repeat split; try assumption. lia.
Qed.

(** The number of calls before the forfeit: with the loop starting at
    [try_index = 1], X is asked [LIMIT - 1] times. *)
Lemma ttt_forfeit_calls fuel g :
  (Z.to_nat INCORRECT_MOVE_TRIES_LIMIT <= fuel)%nat ->
  current_move g = PlayerType.X ->
  (forall seen, bad_answer (x_player seen)) ->
  exists g',
    _make_one_move x_player o_player fuel g = (g', Py.Ok tt)
    /\ winner g' = Some Winner.O
    /\ board g' = board g
    /\ Z.of_nat (length (x_seen g'))
       = Z.of_nat (length (x_seen g)) + (INCORRECT_MOVE_TRIES_LIMIT - 1).
Proof.
  intros Hfuel Hx Hbad. unfold _make_one_move.
  set (g0 := {| board := board g; current_move := current_move g;
                move_counter := _; winner := winner g;
                x_seen := x_seen g; o_seen := o_seen g |}).
  destruct (ttt_tries_bad 4 fuel g0) as (g' & Ht & Hlen & Hb & Hc & Hw & Ho & Hm);
    [unfold INCORRECT_MOVE_TRIES_LIMIT in *; lia
    |unfold INCORRECT_MOVE_TRIES_LIMIT; lia|exact Hx|exact Hbad|].
  change (INCORRECT_MOVE_TRIES_LIMIT - Z.of_nat 4) with 1 in Ht. rewrite Ht.
  eexists. split; [reflexivity|]. simpl.
  rewrite Hc. simpl. rewrite Hx. simpl.
  repeat split; [exact Hb|]. rewrite Hlen. simpl.
  unfold INCORRECT_MOVE_TRIES_LIMIT. lia.
Qed.

(** An answer that is no Move is reported as such, whatever else is wrong
    with it: the type is tested before [apply_move] sees the answer. *)
Lemma ttt_type_checked_first g :
  match current_move g with
  | PlayerType.X => x_player (create_copy_for_player (board g) :: x_seen g)
  | PlayerType.O => o_player (create_copy_for_player (board g) :: o_seen g)
  end = ReturnedOther ->
  snd (try_once x_player o_player g) = Py.Raise (IncorrectMove NotAMove).
Proof.
  intros H. unfold try_once. destruct (current_move g); rewrite H; reflexivity.
Qed.
End TicTacToeEngine.

(** ** Reversi: the board *)

Section ReversiBoard.
Import Reversi.

Lemma rev_inverse_value (p : PlayerType.t) :
  PlayerType.of_value (3 - PlayerType.value p) = Some (PlayerType.inverse p).
Proof. destruct p; reflexivity. Qed.

Lemma rev_cell_of_player_value (p : PlayerType.t) :
  BoardCell.of_value (PlayerType.value p) = Some (BoardCell_of_player p).
Proof. destruct p; reflexivity. Qed.

Lemma rev_cell_eqb_eq (a b : BoardCell.t) : BoardCell.eqb a b = true <-> a = b.
Proof. destruct a, b; simpl; split; congruence. Qed.

Lemma rev_cell_of_player_owned (p : PlayerType.t) :
  BoardCell_of_player p <> BoardCell.EMPTY.
Proof. destruct p; discriminate. Qed.

(** [inverse()] is defined on the cells of the players only, and gives
    the cell of the other player. *)
Lemma rev_inverse_owned (c c' : BoardCell.t) :
  BoardCell.inverse c = Some c' ->
  c <> BoardCell.EMPTY /\ c' <> BoardCell.EMPTY /\ c' <> c.
Proof. destruct c; simpl; intros H; inversion H; repeat split; discriminate. Qed.

Lemma rev_inverse_empty : BoardCell.inverse BoardCell.EMPTY = None.
Proof. reflexivity. Qed.

(** *** The walks end *)

Lemma rev_walk_distance_valid dx dy x y :
  In (dx, dy) directions ->
  _is_valid_coordinates x y = true ->
  1 <= walk_distance dx dy x y
  /\ walk_distance dx dy x y <= size
  /\ walk_distance dx dy (x + dx) (y + dy) = walk_distance dx dy x y - 1.
Proof.
  intros Hd Hv. unfold _is_valid_coordinates in Hv.
  rewrite !andb_true_iff, !Z.leb_le, !Z.ltb_lt in Hv.
  unfold directions in Hd. simpl in Hd.
  unfold walk_distance, size in *.
  repeat (destruct Hd as [Hd|Hd]; [injection Hd as <- <-; simpl; lia|]).
  contradiction.
Qed.

Lemma rev_walk_fuel dx dy b cell :
  In (dx, dy) directions ->
  forall fuel x y run,
    (1 <= fuel)%nat ->
    (_is_valid_coordinates x y = true -> walk_distance dx dy x y < Z.of_nat fuel) ->
    walk fuel b cell dx dy x y run <> Py.OutOfFuel.
Proof.
  intros Hd. induction fuel as [|fuel IH]; intros x y run Hf Hm; [lia|].
  cbn [walk].
  destruct (_is_valid_coordinates x y) eqn:Hv; [|discriminate].
  destruct (rev_walk_distance_valid dx dy x y Hd Hv) as (H1 & H2 & H3).
  specialize (Hm eq_refl).
  destruct (get b x y) as [c| |] eqn:Hg; simpl; [|discriminate|].
  - destruct (BoardCell.eqb c cell); [discriminate|].
    apply IH; [lia|]. intros _. rewrite H3. lia.
  - unfold get in Hg. destruct (Py.get2 b x y); discriminate.
Qed.

Lemma rev_flipped_in_ends b row column cell d :
  In d directions -> flipped_in b row column cell d <> Py.OutOfFuel.
Proof.
  destruct d as [dx dy]. intros Hd. unfold flipped_in.
  destruct (negb (_is_valid_coordinates (row + dx) (column + dy))) eqn:Hv;
    [discriminate|].
  apply negb_false_iff in Hv.
  unfold get. destruct (Py.get2 b (row + dx) (column + dy)); [|discriminate].
  cbn [Py.bind]. destruct (_ || _); [discriminate|].
  apply rev_walk_fuel; [exact Hd|unfold walk_fuel; lia|].
  intros _. destruct (rev_walk_distance_valid dx dy _ _ Hd Hv) as (_ & H2 & _).
  unfold walk_fuel, size in *. lia.
Qed.

Lemma rev_flipped_over_ends b row column cell ds :
  (forall d, In d ds -> In d directions) ->
  forall acc, flipped_over b row column cell ds acc <> Py.OutOfFuel.
Proof.
  induction ds as [|d ds IH]; intros Hin acc; [discriminate|].
  cbn [flipped_over].
  assert (Hone := rev_flipped_in_ends b row column cell d (Hin d (or_introl eq_refl))).
  destruct (flipped_in b row column cell d) as [more| |];
    [|discriminate|contradiction].
  simpl. apply IH. intros d' Hd'. apply Hin. right. exact Hd'.
Qed.

(** [_get_flipped_cells_for_move] comes to an end on every board: the
    fuel of its walks never runs out. *)
Lemma rev_get_flipped_cells_ends b row column cell :
  _get_flipped_cells_for_move b row column cell <> Py.OutOfFuel.
Proof. apply rev_flipped_over_ends. auto. Qed.

(** *** What a call of [apply_move] does to the cells *)

Lemma rev_allowed_change_owned (v v' : BoardCell.t) :
  allowed_change v v' <-> (v <> BoardCell.EMPTY -> v' <> BoardCell.EMPTY).
Proof.
  unfold allowed_change. split.
  - intros [->|[[-> _]|(_ & H & _)]]; auto.
  - intros H.
    destruct v, v';
      first [ left; reflexivity
            | right; left; split; [reflexivity|discriminate]
            | right; right; repeat split; discriminate
            | exfalso; apply H; [discriminate|reflexivity] ].
Qed.

Lemma rev_allowed_change_trans (u v w : BoardCell.t) :
  allowed_change u v -> allowed_change v w -> allowed_change u w.
Proof. rewrite !rev_allowed_change_owned. auto. Qed.

Lemma rev_set_cell_at b r c v b1 old :
  get b r c = Py.Ok old -> set b r c v = Py.Ok b1 ->
  exists i0 j0, Py.cell_at b i0 j0 = Some old
    /\ forall i j, Py.cell_at b1 i j
         = if decide (i = i0 /\ j = j0) then Some v else Py.cell_at b i j.
Proof.
  unfold get, set. intros Hg Hs.
  destruct (Py.set2 b r c v) as [b1'|] eqn:Hset; [|discriminate].
  injection Hs as ->.
  apply set2_cell_at in Hset as (i0 & j0 & Hsame & _ & Hall).
  exists i0, j0. split; [|exact Hall].
  rewrite <- Hsame. destruct (Py.get2 b r c); congruence.
Qed.

(** The loop over [flipped_cells] gives a disc to the other player, or
    stops; it leaves the cells in place. *)
Lemma rev_flip_cells_cells flipped :
  forall b b' r,
    flip_cells b flipped = (b', r) ->
    forall i j v,
      Py.cell_at b i j = Some v ->
      exists v', Py.cell_at b' i j = Some v' /\ allowed_change v v'.
Proof.
  induction flipped as [|[fx fy] rest IH]; intros b b' r H i j v Hv.
  - injection H as <- <-. exists v. split; [exact Hv|left; reflexivity].
  - cbn [flip_cells] in H.
    destruct (get b fx fy) as [c| |] eqn:Hg;
      [|injection H as <- <-; exists v; split; [exact Hv|left; reflexivity]..].
    destruct (BoardCell.inverse c) as [c'|] eqn:Hinv;
      [|injection H as <- <-; exists v; split; [exact Hv|left; reflexivity]].
    destruct (set b fx fy c') as [b1| |] eqn:Hs;
      [|injection H as <- <-; exists v; split; [exact Hv|left; reflexivity]..].
    destruct (rev_set_cell_at _ _ _ _ _ _ Hg Hs) as (i0 & j0 & Hold & Hall).
    apply rev_inverse_owned in Hinv as (Hc & Hc' & _).
    specialize (Hall i j).
    destruct (decide (i = i0 /\ j = j0)) as [[-> ->]|Hne].
    + destruct (IH _ _ _ H _ _ _ Hall) as (v' & Hv' & Hch).
      exists v'. split; [exact Hv'|].
      apply rev_allowed_change_owned. intros _.
      exact (proj1 (rev_allowed_change_owned _ _) Hch Hc').
    + rewrite Hv in Hall. exact (IH _ _ _ H _ _ _ Hall).
Qed.

(** A call of [apply_move], however it ends, leaves every cell in place;
    a cell that changes was EMPTY and gets a disc, or had a disc and
    gets the disc of the other player. *)
Lemma rev_apply_move_cells b p m b' r :
  apply_move b p m = (b', r) ->
  forall i j v,
    Py.cell_at b i j = Some v ->
    exists v', Py.cell_at b' i j = Some v' /\ allowed_change v v'.
Proof.
  intros H i j v Hv.
  assert (Hsame : exists v', Py.cell_at b i j = Some v' /\ allowed_change v v')
    by (exists v; split; [exact Hv|left; reflexivity]).
  unfold apply_move in H.
  destruct (negb _); [injection H as <- <-; exact Hsame|].
  destruct (get b (row m) (column m)) as [c| |] eqn:Hg;
    [|injection H as <- <-; exact Hsame..].
  destruct (negb _); [injection H as <- <-; exact Hsame|].
  destruct (_is_valid_move b (row m) (column m) (BoardCell_of_player p)) as [[|]| |];
    [|injection H as <- <-; exact Hsame..].
  destruct (set b (row m) (column m) (BoardCell_of_player p)) as [b1| |] eqn:Hs;
    [|injection H as <- <-; exact Hsame..].
  destruct (rev_set_cell_at _ _ _ _ _ _ Hg Hs) as (i0 & j0 & Hold & Hall).
  assert (H1 : exists v1, Py.cell_at b1 i j = Some v1 /\ allowed_change v v1).
  { rewrite Hall. destruct (decide (i = i0 /\ j = j0)); [|exact Hsame].
    eexists. split; [reflexivity|].
    apply rev_allowed_change_owned. intros _. apply rev_cell_of_player_owned. }
  destruct H1 as (v1 & Hv1 & Hch1).
  destruct (_get_flipped_cells_for_move b1 (row m) (column m) (BoardCell_of_player p))
    as [flipped| |];
    [|injection H as <- <-; eauto..].
  destruct (rev_flip_cells_cells _ _ _ _ H _ _ _ Hv1) as (v' & Hv' & Hch).
  exists v'. split; [exact Hv'|]. eapply rev_allowed_change_trans; eassumption.
Qed.

Lemma rev_moves_to_cells b b' :
  moves_to b b' ->
  forall i j v,
    Py.cell_at b i j = Some v ->
    exists v', Py.cell_at b' i j = Some v' /\ allowed_change v v'.
Proof.
  induction 1 as [b|b p m b1 r b2 Hstep _ IH]; intros i j v Hv.
  - exists v. split; [exact Hv|left; reflexivity].
  - destruct (rev_apply_move_cells _ _ _ _ _ Hstep i j v Hv) as (v1 & Hv1 & Hch1).
    destruct (IH i j _ Hv1) as (v' & Hv' & Hch).
    exists v'. split; [exact Hv'|]. eapply rev_allowed_change_trans; eassumption.
Qed.

(** *** Which calls of [apply_move] leave the board as it was *)

Lemma rev_get_raises b r c e : get b r c = Py.Raise e -> e = IndexError.
Proof. unfold get. destruct (Py.get2 b r c); congruence. Qed.

Lemma rev_set_raises b r c v e : set b r c v = Py.Raise e -> e = IndexError.
Proof. unfold set. destruct (Py.set2 b r c v); congruence. Qed.

Lemma rev_walk_raises b cell dx dy e :
  forall fuel x y run,
    walk fuel b cell dx dy x y run = Py.Raise e -> e = IndexError.
Proof.
  induction fuel as [|fuel IH]; intros x y run H; [discriminate|].
  cbn [walk] in H. destruct (_is_valid_coordinates x y); [|discriminate].
  destruct (get b x y) as [c| |] eqn:Hg; cbn [Py.bind] in H; [| |discriminate].
  - destruct (BoardCell.eqb c cell); [discriminate|]. eapply IH; exact H.
  - injection H as <-. eapply rev_get_raises; exact Hg.
Qed.

Lemma rev_flipped_over_raises b row column cell e :
  forall ds acc,
    flipped_over b row column cell ds acc = Py.Raise e -> e = IndexError.
Proof.
  induction ds as [|[dx dy] ds IH]; intros acc H; [discriminate|].
  cbn [flipped_over] in H.
  destruct (flipped_in b row column cell (dx, dy)) as [more| |] eqn:Hin;
    cbn [Py.bind] in H; [eapply IH; exact H| |discriminate].
  injection H as <-. unfold flipped_in in Hin.
  destruct (negb _); [discriminate|].
  destruct (get b (row + dx) (column + dy)) as [c| |] eqn:Hg;
    cbn [Py.bind] in Hin; [| |discriminate].
  - destruct (_ || _); [discriminate|]. eapply rev_walk_raises; exact Hin.
  - injection Hin as <-. eapply rev_get_raises; exact Hg.
Qed.

Lemma rev_flip_cells_raises flipped e :
  forall b b',
    flip_cells b flipped = (b', Py.Raise e) -> e = ValueError \/ e = IndexError.
Proof.
  induction flipped as [|[fx fy] rest IH]; intros b b' H; [discriminate|].
  cbn [flip_cells] in H.
  destruct (get b fx fy) as [c| |] eqn:Hg; [| |discriminate].
  - destruct (BoardCell.inverse c) as [c'|]; [|injection H as _ <-; auto].
    destruct (set b fx fy c') as [b1| |] eqn:Hs; [| |discriminate].
    + eapply IH; exact H.
    + injection H as _ <-. right. eapply rev_set_raises; exact Hs.
  - injection H as _ <-. right. eapply rev_get_raises; exact Hg.
Qed.

(** A call of [apply_move] that raises IncorrectMove leaves the board as
    it was: the three tests come before the first assignment. *)
Lemma rev_apply_move_incorrect b p m b' reason :
  apply_move b p m = (b', Py.Raise (IncorrectMove reason)) -> b' = b.
Proof.
  unfold apply_move. intros H.
  destruct (negb _); [congruence|].
  destruct (get b (row m) (column m)) as [c| |]; [|congruence..].
  destruct (negb _); [congruence|].
  destruct (_is_valid_move b (row m) (column m) (BoardCell_of_player p)) as [[|]| |];
    [|congruence..].
  destruct (set b (row m) (column m) (BoardCell_of_player p)) as [b1| |];
    [|congruence..].
  destruct (_get_flipped_cells_for_move b1 (row m) (column m) (BoardCell_of_player p))
    as [flipped|e|] eqn:Hf; [| |congruence].
  - apply rev_flip_cells_raises in H as [H|H]; discriminate.
  - injection H as _ ->. apply rev_flipped_over_raises in Hf. discriminate.
Qed.
End ReversiBoard.

(** ** Reversi: the retry loop *)

Section ReversiEngine.
Import Reversi.
Variables black_player white_player : Player.

Lemma rev_apply_move_out_of_range b p m :
  _is_valid_coordinates (row m) (column m) = false ->
  apply_move b p m = (b, Py.Raise (IncorrectMove BadCoordinates)).
Proof. intros H. unfold apply_move. rewrite H. reflexivity. Qed.

Lemma rev_try_once_bad g :
  current_move g = PlayerType.BLACK ->
  (forall seen, bad_answer (black_player seen)) ->
  exists r,
    try_once black_player white_player g
    = ({| board := board g; current_move := current_move g;
          move_counter := move_counter g; winner := winner g;
          black_seen := create_copy_for_player (board g) :: black_seen g;
          white_seen := white_seen g |}, Py.Raise (IncorrectMove r)).
Proof.
  intros Hx Hbad. unfold try_once. rewrite Hx.
  specialize (Hbad (create_copy_for_player (board g) :: black_seen g)).
  destruct (black_player _) as [m| | |]; simpl in *; eauto.
  rewrite (rev_apply_move_out_of_range _ _ _ Hbad). eauto.
Qed.

(** When every answer of black is bad, the loop that starts at
    [try_index] asks black [LIMIT - try_index] times and then runs its
    [else]. *)
Lemma rev_tries_bad (n : nat) :
  forall fuel g,
    (n < fuel)%nat -> (Z.of_nat n <= INCORRECT_MOVE_TRIES_LIMIT) ->
    current_move g = PlayerType.BLACK ->
    (forall seen, bad_answer (black_player seen)) ->
    exists g',
      tries black_player white_player fuel g (INCORRECT_MOVE_TRIES_LIMIT - Z.of_nat n)
      = (g', Py.Ok false)
      /\ length (black_seen g') = (length (black_seen g) + n)%nat
      /\ board g' = board g /\ current_move g' = current_move g
      /\ winner g' = winner g /\ white_seen g' = white_seen g
      /\ move_counter g' = move_counter g.
Proof.
  induction n as [|n IH]; intros fuel g Hfuel Hn Hx Hbad.
  - destruct fuel as [|fuel]; [lia|]. cbn [tries].
    replace (_ <? _) with false by (symmetry; apply Z.ltb_ge; lia).
    exists g. repeat split; lia.
  - destruct fuel as [|fuel]; [lia|]. cbn [tries].
    replace (_ <? _) with true by (symmetry; apply Z.ltb_lt; lia).
    destruct (rev_try_once_bad g Hx Hbad) as [r ->].
    replace (INCORRECT_MOVE_TRIES_LIMIT - Z.of_nat (S n) + 1)
      with (INCORRECT_MOVE_TRIES_LIMIT - Z.of_nat n) by lia.
    edestruct (IH fuel) as (g' & -> & Hlen & Hb & Hc & Hw & Ho & Hm);
      [lia|lia| |exact Hbad|]; [exact Hx|].
    exists g'. simpl in *. repeat split; try assumption. lia.
Qed.

(** The number of calls before the forfeit: with the loop starting at
    [try_index = 1], black is asked [LIMIT - 1] times. *)
Lemma rev_forfeit_calls fuel g :
  (Z.to_nat INCORRECT_MOVE_TRIES_LIMIT <= fuel)%nat ->
  current_move g = PlayerType.BLACK ->
  has_player_correct_move (board g) PlayerType.BLACK = Py.Ok true ->
  (forall seen, bad_answer (black_player seen)) ->
  exists g',
    _make_one_move black_player white_player fuel g = (g', Py.Ok tt)
    /\ winner g' = Some Winner.WHITE
    /\ board g' = board g
    /\ Z.of_nat (length (black_seen g'))
       = Z.of_nat (length (black_seen g)) + (INCORRECT_MOVE_TRIES_LIMIT - 1).
Proof.
  intros Hfuel Hx Hcan Hbad. unfold _make_one_move.
  set (g0 := {| board := board g; current_move := current_move g;
                move_counter := _; winner := winner g;
                black_seen := black_seen g; white_seen := white_seen g |}).
  change (board g0) with (board g). change (current_move g0) with (current_move g).
  rewrite Hx, Hcan.
  destruct (rev_tries_bad 4 fuel g0) as (g' & Ht & Hlen & Hb & Hc & Hw & Ho & Hm);
    [unfold INCORRECT_MOVE_TRIES_LIMIT in *; lia
    |unfold INCORRECT_MOVE_TRIES_LIMIT; lia|exact Hx|exact Hbad|].
  change (INCORRECT_MOVE_TRIES_LIMIT - Z.of_nat 4) with 1 in Ht. rewrite Ht.
  eexists. split; [reflexivity|]. simpl.
  rewrite Hc. simpl. rewrite Hx. simpl.
  repeat split; [exact Hb|]. rewrite Hlen. simpl.
  unfold INCORRECT_MOVE_TRIES_LIMIT. lia.
Qed.

(** An answer that is no Move is reported as such, whatever else is wrong
    with it: the type is tested before [apply_move] sees the answer. *)
Lemma rev_type_checked_first g :
  match current_move g with
  | PlayerType.BLACK => black_player (create_copy_for_player (board g) :: black_seen g)
  | PlayerType.WHITE => white_player (create_copy_for_player (board g) :: white_seen g)
  end = ReturnedOther ->
  snd (try_once black_player white_player g) = Py.Raise (IncorrectMove NotAMove).
Proof.
  intros H. unfold try_once. destruct (current_move g); rewrite H; reflexivity.
Qed.
End ReversiEngine.

(** ** Kirzhanovsky: the retry loop and the order of the tests *)

Section KirzhanovskyMoves.
Import Kirzhanovsky.

(** When every answer of the player is bad, the loop that starts at
    [try_index] asks [LIMIT - try_index] times and then returns -1. *)
Lemma kir_tries_bad players_count history player (n : nat) :
  (forall seen, bad_answer players_count (player seen)) ->
  forall fuel seen,
    (n < fuel)%nat -> (Z.of_nat n <= INCORRECT_MOVE_TRIES_LIMIT) ->
    tries fuel players_count history player seen
      (INCORRECT_MOVE_TRIES_LIMIT - Z.of_nat n)
    = (replicate n history ++ seen, Py.Ok (-1)).
Proof.
  intros Hbad. induction n as [|n IH]; intros fuel seen Hfuel Hn.
  - destruct fuel as [|fuel]; [lia|]. cbn [tries].
    replace (_ <? _) with false by (symmetry; apply Z.ltb_ge; lia).
    reflexivity.
  - destruct fuel as [|fuel]; [lia|]. cbn [tries].
    replace (_ <? _) with true by (symmetry; apply Z.ltb_lt; lia).
    destruct (Hbad (history :: seen)) as [r ->].
    replace (INCORRECT_MOVE_TRIES_LIMIT - Z.of_nat (S n) + 1)
      with (INCORRECT_MOVE_TRIES_LIMIT - Z.of_nat n) by lia.
    rewrite IH by lia.
    f_equal. change (history :: seen) with ([history] ++ seen).
    rewrite app_assoc. f_equal.
    change (replicate (S n) history) with ([history] ++ replicate n history).
    clear. induction n as [|n IHn]; [reflexivity|]. simpl in *. congruence.
Qed.

(** The number of calls before the forfeit of a round: with the loop
    starting at [try_index = 1], the player is asked [LIMIT - 1] times. *)
Lemma kir_forfeit_calls players_count history player fuel seen :
  (Z.to_nat INCORRECT_MOVE_TRIES_LIMIT <= fuel)%nat ->
  (forall seen, bad_answer players_count (player seen)) ->
  _safe_move fuel players_count history player seen
  = (replicate (Z.to_nat (INCORRECT_MOVE_TRIES_LIMIT - 1)) history ++ seen, Py.Ok (-1)).
Proof.
  intros Hfuel Hbad. unfold _safe_move.
  change 1 with (INCORRECT_MOVE_TRIES_LIMIT - Z.of_nat 4) at 1.
  apply kir_tries_bad; [exact Hbad| |];
    unfold INCORRECT_MOVE_TRIES_LIMIT in *; lia.
Qed.

(** A float outside 1..players_count is refused by the range test: the
    test of the type, which comes after it, is not reached. *)
Lemma kir_float_out_of_range players_count (q : Q) :
  (q < 1 \/ inject_Z players_count < q)%Q ->
  validate players_count (Returned (PyFloat q))
  = Py.Raise (IncorrectMove (MoveError BadValue)).
Proof.
  intros H. unfold validate, checked_call. cbn [formats_as_d negb py_lt py_gt].
  destruct (Qle_bool (inject_Z 1) q) eqn:E1; cbn [negb]; [|reflexivity].
  destruct (Qle_bool q (inject_Z players_count)) eqn:E2; cbn [negb]; [|reflexivity].
  apply Qle_bool_iff in E1, E2. exfalso.
  destruct H as [H|H].
  - apply (Qlt_irrefl q). eapply Qlt_le_trans; [exact H|exact E1].
  - apply (Qlt_irrefl q). eapply Qle_lt_trans; [exact E2|exact H].
Qed.

(** The test of the type refuses only what has passed the range test. *)
Lemma kir_not_an_int_in_range players_count (a : Response) :
  validate players_count a = Py.Raise (IncorrectMove NotAnInt) ->
  exists q, a = Returned (PyFloat q) /\ (1 <= q <= inject_Z players_count)%Q.
Proof.
  unfold validate, checked_call. intros H.
  destruct a as [[n|q| |]| |]; cbn in H; try discriminate.
  - destruct (n <? 1); [discriminate|]. destruct (n >? players_count); discriminate.
  - exists q. split; [reflexivity|].
    destruct (Qle_bool (inject_Z 1) q) eqn:E1; cbn in H; [|discriminate].
    destruct (Qle_bool q (inject_Z players_count)) eqn:E2; cbn in H; [|discriminate].
    apply Qle_bool_iff in E1, E2. split; assumption.
Qed.
End KirzhanovskyMoves.

(** ** Kirzhanovsky: the scoring of a round *)

Section KirzhanovskyScoring.
Import Kirzhanovsky.

Lemma kir_count_elem_of (x : Z) (round : list Z) :
  (0 < count x round)%nat <-> x ∈ round.
Proof.
  unfold count. rewrite list_elem_of_In. symmetry. apply count_occ_In.
Qed.

(** The dictionary [counts] holds, for every move of the round, how many
    times it was played. *)
Lemma kir_counts_lookup (x : Z) (round : list Z) :
  x ∈ round -> counts round !! x = Some (count x round).
Proof.
  intros Hx. unfold counts. apply lookup_set_to_map.
  - intros y y' _ _ H. exact H.
  - exists x. split; [|reflexivity]. apply elem_of_list_to_set. exact Hx.
Qed.

Lemma kir_enumerate_elem_of (round : list Z) (i : nat) (x : Z) :
  (i, x) ∈ enumerate round <-> round !! i = Some x.
Proof.
  unfold enumerate. rewrite elem_of_lookup_imap. split.
  - intros (j & y & Heq & Hl). injection Heq as -> ->. exact Hl.
  - intros Hl. exists i, x. auto.
Qed.

(** *** [sorted]: a permutation in the order of the moves *)

Lemma kir_insert_by_move_perm p l : insert_by_move p l ≡ₚ p :: l.
Proof.
  induction l as [|q l IH]; [reflexivity|]. cbn [insert_by_move].
  destruct (snd p <=? snd q); [reflexivity|].
  rewrite IH. apply Permutation_swap.
Qed.

Lemma kir_sorted_by_move_perm l : sorted_by_move l ≡ₚ l.
Proof.
  induction l as [|p l IH]; [reflexivity|]. cbn [sorted_by_move foldr].
  rewrite kir_insert_by_move_perm. fold (sorted_by_move l). rewrite IH. reflexivity.
Qed.

Lemma kir_insert_by_move_sorted p l :
  StronglySorted move_le l -> StronglySorted move_le (insert_by_move p l).
Proof.
  induction 1 as [|q l Hs IH Hq]; cbn [insert_by_move].
  - repeat constructor.
  - destruct (snd p <=? snd q) eqn:E.
    + apply Z.leb_le in E. constructor; [constructor; assumption|].
      constructor; [exact E|].
      eapply Forall_impl; [exact Hq|]. unfold move_le. intros r Hr. lia.
    + apply Z.leb_gt in E. constructor; [exact IH|].
      rewrite kir_insert_by_move_perm. constructor; [unfold move_le; lia|exact Hq].
Qed.

Lemma kir_sorted_by_move_sorted l : StronglySorted move_le (sorted_by_move l).
Proof.
  induction l as [|p l IH]; [constructor|].
  cbn [sorted_by_move foldr]. apply kir_insert_by_move_sorted. exact IH.
Qed.

(** *** The first move played once, in sorted order, is the lowest *)

Lemma kir_first_unique_spec (round : list Z) (l : list (nat * Z)) :
  (forall p, p ∈ l -> snd p ∈ round) ->
  StronglySorted move_le l ->
  match first_unique (counts round) l with
  | Py.Ok (Some (player_id, player_move)) =>
      (player_id, player_move) ∈ l
      /\ count player_move round = 1%nat
      /\ forall q, q ∈ l -> count (snd q) round = 1%nat -> player_move <= snd q
  | Py.Ok None => forall q, q ∈ l -> count (snd q) round <> 1%nat
  | _ => False
  end.
Proof.
  induction l as [|[i v] l IH]; intros Hin Hs.
  - cbn [first_unique]. intros q Hq. inversion Hq.
  - cbn [first_unique].
    rewrite (kir_counts_lookup v round) by (apply (Hin (i, v)); left).
    apply StronglySorted_cons in Hs as [Hall Hs].
    destruct (Nat.eqb (count v round) 1) eqn:E.
    + apply Nat.eqb_eq in E. split; [left|split; [exact E|]].
      intros q Hq _. apply elem_of_cons in Hq as [->|Hq]; [simpl; lia|].
      rewrite Forall_forall in Hall. exact (Hall q Hq).
    + apply Nat.eqb_neq in E.
      assert (Hin' : forall p, p ∈ l -> snd p ∈ round)
        by (intros p Hp; apply Hin; right; exact Hp).
      specialize (IH Hin' Hs).
      destruct (first_unique (counts round) l) as [[[j w]|]| |]; [| |exact IH..].
      * destruct IH as (Hj & Hw & Hmin). split; [right; exact Hj|split; [exact Hw|]].
        intros q Hq Hone. apply elem_of_cons in Hq as [->|Hq]; [contradiction|].
        exact (Hmin q Hq Hone).
      * intros q Hq. apply elem_of_cons in Hq as [->|Hq]; [exact E|]. exact (IH q Hq).
Qed.

(** What the inner loop of [_find_winner] finds in a round. *)
Lemma kir_first_unique_round (round : list Z) :
  match first_unique (counts round) (sorted_by_move (enumerate round)) with
  | Py.Ok (Some (player_id, player_move)) =>
      round !! player_id = Some player_move
      /\ count player_move round = 1%nat
      /\ forall w, count w round = 1%nat -> player_move <= w
  | Py.Ok None => forall w, count w round <> 1%nat
  | _ => False
  end.
Proof.
  assert (Hin : forall p, p ∈ sorted_by_move (enumerate round) <-> round !! fst p = Some (snd p)).
  { intros [i x]. rewrite kir_sorted_by_move_perm. apply kir_enumerate_elem_of. }
  assert (Hspec := kir_first_unique_spec round (sorted_by_move (enumerate round))).
  destruct (first_unique _ _) as [[[i v]|]| |].
  - destruct Hspec as (Hi & Hone & Hmin).
    + intros p Hp. apply Hin in Hp. eapply list_elem_of_lookup_2. exact Hp.
    + apply kir_sorted_by_move_sorted.
    + split; [apply (Hin (i, v)); exact Hi|split; [exact Hone|]].
      intros w Hw.
      assert (Hw' : w ∈ round) by (apply kir_count_elem_of; lia).
      apply list_elem_of_lookup in Hw' as [j Hj].
      apply (Hmin (j, w)); [apply Hin; exact Hj|exact Hw].
  - intros w Hw.
    assert (Hw' : w ∈ round) by (apply kir_count_elem_of; lia).
    apply list_elem_of_lookup in Hw' as [j Hj].
    refine (Hspec _ _ (j, w) _ Hw).
    + intros p Hp. apply Hin in Hp. eapply list_elem_of_lookup_2. exact Hp.
    + apply kir_sorted_by_move_sorted.
    + apply Hin. exact Hj.
  - apply Hspec.
    + intros p Hp. apply Hin in Hp. eapply list_elem_of_lookup_2. exact Hp.
    + apply kir_sorted_by_move_sorted.
  - apply Hspec.
    + intros p Hp. apply Hin in Hp. eapply list_elem_of_lookup_2. exact Hp.
    + apply kir_sorted_by_move_sorted.
Qed.

(** *** Every round of a history is scored *)

Lemma kir_score_round_total (scores round : list Z) :
  length scores = length round ->
  exists scores',
    score_round scores round = Py.Ok scores' /\ length scores' = length scores.
Proof.
  intros Hlen. unfold score_round.
  assert (Hfirst := kir_first_unique_round round).
  destruct (first_unique _ _) as [[[i v]|]| |]; [| |contradiction..].
  - destruct Hfirst as (Hi & _ & _). cbn [Py.bind].
    assert (Hs : is_Some (scores !! i)).
    { apply lookup_lt_is_Some. rewrite Hlen. eapply lookup_lt_Some. exact Hi. }
    destruct Hs as [s Hs]. rewrite Hs. eexists. split; [reflexivity|].
    apply length_insert.
  - exists scores. split; reflexivity.
Qed.

Lemma kir_score_rounds_total (rounds : list (list Z)) :
  forall scores,
    Forall (fun round => length round = length scores) rounds ->
    exists scores',
      score_rounds scores rounds = Py.Ok scores' /\ length scores' = length scores.
Proof.
  induction rounds as [|round rounds IH]; intros scores Hall.
  - exists scores. split; reflexivity.
  - apply Forall_cons in Hall as [Hround Hall]. cbn [score_rounds].
    destruct (kir_score_round_total scores round) as (s1 & -> & Hlen1); [congruence|].
    cbn [Py.bind]. destruct (IH s1) as (s2 & Hs2 & Hlen2).
    + eapply Forall_impl; [exact Hall|]. cbn. congruence.
    + exists s2. split; [exact Hs2|congruence].
Qed.

(** The scoring loop of [_find_winner] ends with a score for each player
    on every history whose rounds hold a move of each player, and scores
    the rounds one after the other. *)
Lemma kir_compute_scores_total (players_count : nat) (h : list (list Z)) :
  Forall (fun round => length round = players_count) h ->
  exists scores,
    compute_scores players_count h = Py.Ok scores /\ length scores = players_count.
Proof.
  intros Hall. unfold compute_scores.
  destruct (kir_score_rounds_total h (replicate players_count 0)) as (s & Hs & Hlen).
  - eapply Forall_impl; [exact Hall|]. cbn. intros r ->.
    symmetry. apply length_replicate.
  - exists s. split; [exact Hs|]. rewrite Hlen. apply length_replicate.
Qed.

Lemma kir_score_rounds_snoc (rounds : list (list Z)) (round : list Z) :
  forall scores,
    score_rounds scores (rounds ++ [round])
    = Py.bind (score_rounds scores rounds) (fun s => score_round s round).
Proof.
  induction rounds as [|r rounds IH]; intros scores; cbn [app score_rounds Py.bind].
  - destruct (score_round scores round); reflexivity.
  - destruct (score_round scores r) as [s1| |]; cbn [Py.bind]; [apply IH|reflexivity..].
Qed.
End KirzhanovskyScoring.

(** ** The store: copies share nothing with their originals *)

Section StoreFacts.
Import Store.
Implicit Types (h : heap) (E known : gset loc) (l : loc) (o : object).

Lemma store_refs_of_refs (ls : list loc) l :
  l ∈ refs (OList (VRef <$> ls)) <-> l ∈ ls.
Proof.
  cbn [refs]. rewrite elem_of_union_list. split.
  - intros (X & HX & Hl). apply list_elem_of_fmap in HX as (v & -> & Hv).
    apply list_elem_of_fmap in Hv as (l' & -> & Hl'). cbn in Hl.
    apply elem_of_singleton in Hl as ->. exact Hl'.
  - intros Hl. exists {[ l ]}. split; [|apply elem_of_singleton; reflexivity].
    apply list_elem_of_fmap. exists (VRef l). split; [reflexivity|].
    apply list_elem_of_fmap. exists l. auto.
Qed.

Lemma store_refs_of_atoms (items : list value) :
  Forall (fun v => value_refs v = ∅) items -> refs (OList items) = ∅.
Proof.
  intros H. cbn [refs]. apply leibniz_equiv. apply empty_union_list.
  apply Forall_fmap. eapply Forall_impl; [exact H|]. cbn. intros v ->. reflexivity.
Qed.

Lemma store_refs_of_members (line : list Z) : refs (OList (map VMember line)) = ∅.
Proof. apply store_refs_of_atoms. apply Forall_fmap, Forall_true. reflexivity. Qed.

Lemma store_refs_of_ints (line : list Z) : refs (OList (map VInt line)) = ∅.
Proof. apply store_refs_of_atoms. apply Forall_fmap, Forall_true. reflexivity. Qed.

(** *** [agrees] and [grows] *)

Lemma store_agrees_refl h : agrees h h.
Proof. intros l _. reflexivity. Qed.

Lemma store_agrees_dom h h' : agrees h h' -> dom h ⊆ dom h'.
Proof.
  intros H l Hl. apply elem_of_dom. rewrite (H l Hl). apply elem_of_dom. exact Hl.
Qed.

Lemma store_agrees_trans h1 h2 h3 : agrees h1 h2 -> agrees h2 h3 -> agrees h1 h3.
Proof.
  intros H12 H23 l Hl. rewrite (H23 l), (H12 l); auto.
  apply (store_agrees_dom _ _ H12). exact Hl.
Qed.

Lemma store_agrees_insert h h' l o :
  agrees h h' -> l ∉ dom h -> agrees h (<[l := o]> h').
Proof.
  intros H Hl l' Hl'. rewrite lookup_insert_ne; [apply H; exact Hl'|].
  intros ->. contradiction.
Qed.

Lemma store_fresh_not_in h h0 : agrees h0 h -> fresh (dom h) ∉ dom h0.
Proof.
  intros H Hin. apply (is_fresh (dom h)). apply (store_agrees_dom _ _ H). exact Hin.
Qed.

Lemma store_grows_refl h : grows h h.
Proof.
  split; [apply store_agrees_refl|]. intros l o Hl Ho.
  exfalso. apply Hl. apply elem_of_dom. eauto.
Qed.

Lemma store_grows_insert h0 h l o :
  grows h0 h -> l ∉ dom h0 -> refs o ## dom h0 -> grows h0 (<[l := o]> h).
Proof.
  intros [Ha Hc] Hl Ho. split; [apply store_agrees_insert; assumption|].
  intros l' o' Hl' Hlook. destruct (decide (l = l')) as [->|Hne].
  - rewrite lookup_insert_eq in Hlook. injection Hlook as <-. exact Ho.
  - rewrite lookup_insert_ne in Hlook by exact Hne. eapply Hc; eassumption.
Qed.

Lemma store_grows_separate h0 h E known :
  grows h0 h -> separate E h0 known -> separate E h known.
Proof.
  intros [Ha Hc] (HE & HK & Hsep). split; [|split; [exact HK|]].
  - etrans; [exact HE|]. apply store_agrees_dom. exact Ha.
  - intros l o Hl Ho. destruct (decide (l ∈ dom h0)) as [Hin|Hout].
    + rewrite (Ha l Hin) in Ho. eapply Hsep; eassumption.
    + specialize (Hc l o Hout Ho). set_solver.
Qed.

(** *** A player cannot change what is separate from it *)

Lemma store_run_agent_separate (acts : list action) :
  forall h known E h2,
    separate E h known ->
    run_agent h known acts = Some h2 ->
    forall l, l ∈ E -> h2 !! l = h !! l.
Proof.
  induction acts as [|[lr|lw o|o] acts IH]; intros h known E h2 Hsep Hrun l Hl.
  - injection Hrun as <-. reflexivity.
  - cbn [run_agent] in Hrun.
    destruct (decide (lr ∈ known)) as [Hk|]; [|discriminate].
    destruct (h !! lr) as [o|] eqn:Ho; [|discriminate].
    refine (IH _ _ E _ _ Hrun l Hl).
    destruct Hsep as (HE & HK & Hc). split; [exact HE|split; [|exact Hc]].
    assert (Hlr : lr ∉ E) by set_solver.
    specialize (Hc lr o Hlr Ho). set_solver.
  - cbn [run_agent] in Hrun.
    destruct (decide _) as [(Hk & Ho & _)|]; [|discriminate].
    destruct Hsep as (HE & HK & Hc).
    assert (Hlw : lw ∉ E) by set_solver.
    transitivity (<[lw := o]> h !! l);
      [eapply IH; [|exact Hrun|exact Hl]
      |apply lookup_insert_ne; intros ->; contradiction].
    split; [|split; [exact HK|]].
    +
      rewrite dom_insert_L. set_solver.
    + intros l' o' Hl' Hlook. destruct (decide (lw = l')) as [->|Hne].
      * rewrite lookup_insert_eq in Hlook. injection Hlook as <-. set_solver.
      * rewrite lookup_insert_ne in Hlook by exact Hne. eapply Hc; eassumption.
  - cbn [run_agent] in Hrun.
    destruct (decide _) as [Ho|]; [|discriminate].
    destruct Hsep as (HE & HK & Hc).
    assert (Hf : fresh (dom h) ∉ E).
    { intros Hin. apply (is_fresh (dom h)). apply HE. exact Hin. }
    transitivity (<[fresh (dom h) := o]> h !! l);
      [eapply IH; [|exact Hrun|exact Hl]
      |apply lookup_insert_ne; intros <-; contradiction].
    split; [|split].
    + rewrite dom_insert_L. set_solver.
    + set_solver.
    + intros l' o' Hl' Hlook. destruct (decide (fresh (dom h) = l')) as [<-|Hne].
      * rewrite lookup_insert_eq in Hlook. injection Hlook as <-. set_solver.
      * rewrite lookup_insert_ne in Hlook by exact Hne. eapply Hc; eassumption.
Qed.

(** *** [create_copy_for_player] *)

Lemma store_alloc_lists h0 (lines : list (list value)) :
  Forall (fun line => refs (OList line) = ∅) lines ->
  forall h, grows h0 h ->
    exists h' ls,
      alloc_lists h lines = (h', ls)
      /\ grows h0 h' /\ agrees h h'
      /\ Forall (fun l => l ∉ dom h) ls
      /\ Forall2 (fun l line => h' !! l = Some (OList line)) ls lines.
Proof.
  induction 1 as [|line lines Hline _ IH]; intros h Hg.
  - exists h, []. split; [reflexivity|]. split; [exact Hg|].
    split; [apply store_agrees_refl|]. split; constructor.
  - cbn [alloc_lists alloc].
    set (l := fresh (dom h)). set (h1 := <[l := OList line]> h).
    assert (Hl : l ∉ dom h) by apply is_fresh.
    assert (Hg1 : grows h0 h1).
    { apply store_grows_insert; [exact Hg| |rewrite Hline; set_solver].
      apply store_fresh_not_in. apply Hg. }
    assert (Ha1 : agrees h h1)
      by (apply store_agrees_insert; [apply store_agrees_refl|exact Hl]).
    destruct (IH h1 Hg1) as (h' & ls & -> & Hg' & Ha' & Hfresh & Hcont).
    exists h', (l :: ls). split; [reflexivity|]. split; [exact Hg'|].
    split; [eapply store_agrees_trans; eassumption|]. split.
    + constructor; [exact Hl|]. eapply Forall_impl; [exact Hfresh|].
      intros l' Hl' Hin. apply Hl'. apply (store_agrees_dom _ _ Ha1). exact Hin.
    + constructor; [|exact Hcont].
      rewrite (Ha' l); [apply lookup_insert_eq|].
      apply elem_of_dom. unfold h1. rewrite lookup_insert_eq. eauto.
Qed.

Lemma store_member_values (line : list Z) :
  mapM member_value (map VMember line) = Some (map VInt line).
Proof.
  induction line as [|n line IH]; [reflexivity|].
  cbn. cbn in IH. rewrite IH. reflexivity.
Qed.

Lemma store_copy_rows h0 (lines : list loc) (grid : list (list Z)) :
  forall h, grows h0 h ->
    Forall2 (fun l r => h !! l = Some (OList (map VMember r))) lines grid ->
    exists h' ls,
      copy_rows h (VRef <$> lines) = Some (h', ls)
      /\ grows h0 h' /\ agrees h h'
      /\ Forall (fun l => l ∉ dom h) ls
      /\ Forall2 (fun l r => h' !! l = Some (OList (map VInt r))) ls grid.
Proof.
  revert grid. induction lines as [|lr lines IH]; intros grid h Hg Hrows.
  - inversion Hrows; subst. exists h, []. split; [reflexivity|].
    split; [exact Hg|]. split; [apply store_agrees_refl|]. split; constructor.
  - inversion Hrows as [|? r ? grid' Hlr Hrest]; subst.
    cbn [fmap list_fmap copy_rows]. rewrite Hlr, store_member_values.
    cbn [alloc].
    set (l := fresh (dom h)). set (h1 := <[l := OList (map VInt r)]> h).
    assert (Hl : l ∉ dom h) by apply is_fresh.
    assert (Hg1 : grows h0 h1).
    { apply store_grows_insert; [exact Hg| |rewrite store_refs_of_ints; set_solver].
      apply store_fresh_not_in. apply Hg. }
    assert (Ha1 : agrees h h1)
      by (apply store_agrees_insert; [apply store_agrees_refl|exact Hl]).
    assert (Hrest1 : Forall2 (fun l r => h1 !! l = Some (OList (map VMember r))) lines grid').
    { eapply Forall2_impl; [exact Hrest|]. intros l' r' Hl'. cbn beta in Hl'.
      rewrite (Ha1 l'); [exact Hl'|]. apply elem_of_dom. rewrite Hl'. eauto. }
    destruct (IH grid' h1 Hg1 Hrest1) as (h' & ls & Hcopy & Hg' & Ha' & Hfresh & Hcont).
    fold (@fmap list _ loc value VRef lines). rewrite Hcopy.
    exists h', (l :: ls). split; [reflexivity|]. split; [exact Hg'|].
    split; [eapply store_agrees_trans; eassumption|]. split.
    + constructor; [exact Hl|]. eapply Forall_impl; [exact Hfresh|].
      intros l' Hl' Hin. apply Hl'. apply (store_agrees_dom _ _ Ha1). exact Hin.
    + constructor; [|exact Hcont].
      rewrite (Ha' l); [apply lookup_insert_eq|].
      apply elem_of_dom. unfold h1. rewrite lookup_insert_eq. eauto.
Qed.

(** The copy is made of new objects that hold no reference to an old
    one, and its cells hold the values of the cells of the board. *)
Lemma store_create_copy sz init h self (grid : list (list Z)) :
  holds_board h self sz (members grid) ->
  exists h1 board_copy,
    create_copy_for_player sz init h self = Some (h1, board_copy)
    /\ grows h h1
    /\ (board_copy ∉ dom h)
    /\ holds_board h1 board_copy sz (ints grid).
Proof.
  intros (outer & Hself & lines & Houter & Hrows).
  unfold create_copy_for_player, new_GameBoard.
  destruct (store_alloc_lists h (map (map VMember) init)) with (h := h)
    as (ha & la & -> & Hga & Haa & Hla & _).
  { apply Forall_fmap, Forall_true. intros line. apply store_refs_of_members. }
  { apply store_grows_refl. }
  cbn [alloc].
  set (lo := fresh (dom ha)). set (hb := <[lo := OList (VRef <$> la)]> ha).
  set (cp := fresh (dom hb)).
  set (hc := <[cp := OGameBoard (VInt sz) (VRef lo)]> hb).
  assert (Hlo : lo ∉ dom h) by (apply store_fresh_not_in; exact Haa).
  assert (Hgb : grows h hb).
  { apply store_grows_insert; [exact Hga|exact Hlo|].
    intros l Hl Hin. apply store_refs_of_refs in Hl.
    rewrite Forall_forall in Hla. exact (Hla l Hl Hin). }
  assert (Hcp : cp ∉ dom h) by (apply store_fresh_not_in; apply Hgb).
  assert (Hgc : grows h hc).
  { apply store_grows_insert; [exact Hgb|exact Hcp|]. cbn. set_solver. }
  assert (Hin : forall l o, h !! l = Some o -> l ∈ dom h)
    by (intros l o Hl; apply elem_of_dom; eauto).
  destruct Hgc as [Hac Hcc].
  rewrite (Hac self), Hself by eauto.
  rewrite (Hac outer), Houter by eauto.
  destruct (store_copy_rows h lines grid hc) as (hd & ls & -> & Hgd & Had & Hls & Hcont).
  { split; assumption. }
  { unfold members in Hrows. apply Forall2_fmap_r in Hrows.
    eapply Forall2_impl; [exact Hrows|]. intros l r Hl. cbn beta in Hl.
    rewrite (Hac l); eauto. }
  set (lo2 := fresh (dom hd)). set (he := <[lo2 := OList (VRef <$> ls)]> hd).
  assert (Hcpc : hc !! cp = Some (OGameBoard (VInt sz) (VRef lo)))
    by apply lookup_insert_eq.
  assert (Hcpd : cp ∈ dom hd).
  { apply (store_agrees_dom _ _ Had). apply elem_of_dom. rewrite Hcpc. eauto. }
  assert (Hlo2 : lo2 ∉ dom hd) by apply is_fresh.
  assert (Hne : lo2 <> cp) by (intros Heq; apply Hlo2; rewrite Heq; exact Hcpd).
  assert (Hcpe : he !! cp = Some (OGameBoard (VInt sz) (VRef lo))).
  { unfold he. rewrite lookup_insert_ne by exact Hne.
    rewrite (Had cp); [exact Hcpc|]. apply elem_of_dom. rewrite Hcpc. eauto. }
  rewrite Hcpe.
  exists (<[cp := OGameBoard (VInt sz) (VRef lo2)]> he), cp.
  split; [reflexivity|]. split; [|split; [exact Hcp|]].
  - apply store_grows_insert; [|exact Hcp|].
    + apply store_grows_insert; [exact Hgd| |].
      * intros Hin2. apply Hlo2. apply (store_agrees_dom _ _ Had).
        apply (store_agrees_dom _ _ Hac). exact Hin2.
      * intros l Hl Hl2. apply store_refs_of_refs in Hl.
        rewrite Forall_forall in Hls. apply (Hls l Hl).
        apply (store_agrees_dom _ _ Hac). exact Hl2.
    + cbn. intros l Hl Hl2. assert (l = lo2) as -> by set_solver.
      apply Hlo2. apply (store_agrees_dom _ _ Had).
      apply (store_agrees_dom _ _ Hac). exact Hl2.
  - exists lo2. split; [apply lookup_insert_eq|].
    exists ls. split.
    + rewrite lookup_insert_ne by (intros Heq; apply Hne; rewrite Heq; reflexivity).
      apply lookup_insert_eq.
    + unfold ints. apply Forall2_fmap_r.
      rewrite Forall_forall in Hls.
      apply Forall2_same_length_lookup in Hcont as [Hlen Hcont].
      apply Forall2_same_length_lookup. split; [exact Hlen|].
      intros i l r Hli Hri. specialize (Hcont i l r Hli Hri) as Hl.
      assert (Hlin : l ∈ ls) by (eapply list_elem_of_lookup_2; exact Hli).
      cbn [compose]. unfold he.
      rewrite lookup_insert_ne.
      * rewrite lookup_insert_ne; [exact Hl|].
        intros <-. apply Hlo2. apply elem_of_dom. rewrite Hl. eauto.
      * intros <-. apply (Hls cp Hlin). apply elem_of_dom. rewrite Hcpc. eauto.
Qed.

(** What is [separate] from the player stays as it is: a board. *)
Lemma store_holds_board_agrees h h2 self sz (grid : list (list value)) :
  holds_board h self sz grid ->
  (forall l, l ∈ board_locs h self -> h2 !! l = h !! l) ->
  holds_board h2 self sz grid.
Proof.
  intros (outer & Hself & lines & Houter & Hrows) Hsame.
  unfold board_locs, grid_locs in Hsame. rewrite Hself, Houter in Hsame.
  exists outer. split; [rewrite Hsame; [exact Hself|set_solver]|].
  exists lines. split; [rewrite Hsame; [exact Houter|set_solver]|].
  apply Forall2_same_length_lookup in Hrows as [Hlen Hrows].
  apply Forall2_same_length_lookup. split; [exact Hlen|].
  intros i l line Hl Hline. rewrite Hsame; [eapply Hrows; eassumption|].
  apply elem_of_union_r, elem_of_union_r. apply store_refs_of_refs.
  eapply list_elem_of_lookup_2. exact Hl.
Qed.

(** The same for a list of lists. *)
Lemma store_holds_grid_agrees h h2 outer (grid : list (list value)) :
  holds_grid h outer grid ->
  (forall l, l ∈ grid_locs h outer -> h2 !! l = h !! l) ->
  holds_grid h2 outer grid.
Proof.
  intros (lines & Houter & Hrows) Hsame.
  unfold grid_locs in Hsame. rewrite Houter in Hsame.
  exists lines. split; [rewrite Hsame; [exact Houter|set_solver]|].
  apply Forall2_same_length_lookup in Hrows as [Hlen Hrows].
  apply Forall2_same_length_lookup. split; [exact Hlen|].
  intros i l line Hl Hline. rewrite Hsame; [eapply Hrows; eassumption|].
  apply elem_of_union_r. apply store_refs_of_refs.
  eapply list_elem_of_lookup_2. exact Hl.
Qed.

(** *** [copy.deepcopy] of a history *)

Lemma store_deepcopy_int fuel h memo n :
  deepcopy fuel h memo (VInt n) = Some (h, memo, VInt n).
Proof. destruct fuel; reflexivity. Qed.

Lemma store_copy_items_ints rec y (r : list Z) :
  (forall h memo n, rec h memo (VInt n) = Some (h, memo, VInt n)) ->
  forall h memo ys,
    h !! y = Some (OList ys) ->
    copy_items rec y (map VInt r) h memo
    = Some (<[y := OList (ys ++ map VInt r)]> h, memo).
Proof.
  intros Hrec. induction r as [|n r IH]; intros h memo ys Hy.
  - cbn. rewrite app_nil_r, insert_id by exact Hy. reflexivity.
  - cbn [map copy_items]. rewrite Hrec, Hy.
    rewrite (IH _ memo (ys ++ [VInt n])) by apply lookup_insert_eq.
    rewrite insert_insert_eq, <- app_assoc. reflexivity.
Qed.

Lemma store_deepcopy_list fuel h memo l (items : list value) :
  memo !! l = None ->
  h !! l = Some (OList items) ->
  deepcopy (S fuel) h memo (VRef l)
  = match copy_items (deepcopy fuel) (fresh (dom h)) items
            (<[fresh (dom h) := OList []]> h) (<[l := fresh (dom h)]> memo) with
    | Some (h2, memo2) => Some (h2, memo2, VRef (fresh (dom h)))
    | None => None
    end.
Proof. intros Hm Hl. cbn [deepcopy]. rewrite Hm, Hl. reflexivity. Qed.

(** The copy of a row that is not in [memo]: a new list with the same
    ints. *)
Lemma store_deepcopy_row fuel h memo lr (r : list Z) :
  memo !! lr = None ->
  h !! lr = Some (OList (map VInt r)) ->
  deepcopy (S fuel) h memo (VRef lr)
  = Some (<[fresh (dom h) := OList (map VInt r)]> h,
          <[lr := fresh (dom h)]> memo, VRef (fresh (dom h))).
Proof.
  intros Hmemo Hlr. cbn [deepcopy]. rewrite Hmemo, Hlr. cbn [alloc].
  rewrite (store_copy_items_ints _ _ r (store_deepcopy_int fuel) _ _ []).
  - rewrite insert_insert_eq. reflexivity.
  - apply lookup_insert_eq.
Qed.

(** The loop [for a in x: y.append(deepcopy(a, memo))] over the rows of
    a history. *)
Lemma store_copy_history_rows fuel h0 hist y :
  y ∉ dom h0 ->
  forall (lines : list loc) (grid : list (list Z)) h memo (done : list loc),
    Forall2 (fun l r => h0 !! l = Some (OList (map VInt r))) lines grid ->
    Forall (fun l => l <> hist) lines ->
    grows h0 h ->
    h !! y = Some (OList (VRef <$> done)) ->
    memo_ok h0 h hist y memo ->
    exists h' memo' (copies : list loc),
      copy_items (deepcopy (S fuel)) y (VRef <$> lines) h memo = Some (h', memo')
      /\ h' !! y = Some (OList (VRef <$> (done ++ copies)))
      /\ grows h0 h'
      /\ Forall2 (fun c r => h' !! c = Some (OList (map VInt r))) copies grid
      /\ (forall c o, c <> y -> h !! c = Some o -> h' !! c = Some o).
Proof.
  intros Hy. induction lines as [|lr lines IH];
    intros grid h memo done Hrows Hne Hg Hhy Hmemo.
  - inversion Hrows; subst. exists h, memo, []. cbn.
    rewrite app_nil_r. repeat split; auto; apply Hg.
  - inversion Hrows as [|? r ? grid' Hlr Hrest]; subst.
    apply Forall_cons in Hne as [Hlrne Hne].
    assert (Hdone : forall c, c ∈ done -> c ∉ dom h0).
    { intros c Hc Hin. destruct Hg as [_ Hnew].
      apply (Hnew y _ Hy Hhy c); [apply store_refs_of_refs; exact Hc|exact Hin]. }
    assert (Hstep : exists h1 memo1 c,
               deepcopy (S fuel) h memo (VRef lr) = Some (h1, memo1, VRef c)
               /\ c <> y /\ (c ∉ dom h0) /\ grows h0 h1
               /\ h1 !! c = Some (OList (map VInt r))
               /\ memo_ok h0 h1 hist y memo1
               /\ (forall c' o, h !! c' = Some o -> h1 !! c' = Some o)).
    { destruct (memo !! lr) as [l'|] eqn:Hm.
      - destruct (Hmemo lr l' Hm) as [[? _]|(Hl'y & Hl'new & items & Hi0 & Hi)];
          [contradiction|].
        exists h, memo, l'. cbn [deepcopy]. rewrite Hm.
        repeat split; auto; try apply Hg. congruence.
      - assert (Hlrh : h !! lr = Some (OList (map VInt r))).
        { destruct Hg as [Ha _]. rewrite (Ha lr); [exact Hlr|].
          apply elem_of_dom. rewrite Hlr. eauto. }
        rewrite (store_deepcopy_row fuel h memo lr r Hm Hlrh).
        set (c := fresh (dom h)).
        assert (Hc : c ∉ dom h) by apply is_fresh.
        assert (Hcy : c <> y).
        { intros ->. apply Hc. apply elem_of_dom. rewrite Hhy. eauto. }
        assert (Hc0 : c ∉ dom h0) by (apply store_fresh_not_in; apply Hg).
        assert (Hkeep : forall c' o, h !! c' = Some o ->
                          <[c := OList (map VInt r)]> h !! c' = Some o).
        { intros c' o Ho. rewrite lookup_insert_ne; [exact Ho|].
          intros <-. apply Hc. apply elem_of_dom. rewrite Ho. eauto. }
        exists (<[c := OList (map VInt r)]> h), (<[lr := c]> memo), c.
        split; [reflexivity|]. split; [exact Hcy|]. split; [exact Hc0|].
        split; [apply store_grows_insert;
                [exact Hg|exact Hc0|rewrite store_refs_of_ints; set_solver]|].
        split; [apply lookup_insert_eq|]. split; [|exact Hkeep].
        intros l l' Hl. destruct (decide (lr = l)) as [<-|Hnel].
        + rewrite lookup_insert_eq in Hl. injection Hl as <-. right.
          split; [exact Hcy|]. split; [exact Hc0|].
          exists (map VInt r). split; [exact Hlr|apply lookup_insert_eq].
        + rewrite lookup_insert_ne in Hl by exact Hnel.
          destruct (Hmemo l l' Hl) as [?|(H1 & H2 & items & H3 & H4)]; [left; auto|].
          right. split; [exact H1|]. split; [exact H2|].
          exists items. split; [exact H3|]. apply Hkeep. exact H4. }
    destruct Hstep as (h1 & memo1 & c & Hcopy & Hcy & Hc0 & Hg1 & Hc1 & Hmemo1 & Hkeep1).
    cbn [fmap list_fmap copy_items]. rewrite Hcopy.
    rewrite (Hkeep1 y _ Hhy).
    set (h2 := <[y := OList ((VRef <$> done) ++ [VRef c])]> h1).
    assert (Hkeep2 : forall c' o, c' <> y -> h1 !! c' = Some o -> h2 !! c' = Some o).
    { intros c' o Hc' Ho. unfold h2. rewrite lookup_insert_ne by auto. exact Ho. }
    assert (Hy2 : h2 !! y = Some (OList (VRef <$> (done ++ [c])))).
    { unfold h2. rewrite lookup_insert_eq, fmap_app. reflexivity. }
    assert (Hg2 : grows h0 h2).
    { apply store_grows_insert; [exact Hg1|exact Hy|].
      change [VRef c] with (VRef <$> [c]). rewrite <- fmap_app.
      intros l Hl Hin. apply store_refs_of_refs in Hl.
      apply elem_of_app in Hl as [Hl|Hl].
      - exact (Hdone l Hl Hin).
      - apply list_elem_of_singleton in Hl as ->. exact (Hc0 Hin). }
    assert (Hmemo2 : memo_ok h0 h2 hist y memo1).
    { intros l l' Hl.
      destruct (Hmemo1 l l' Hl) as [?|(H1 & H2 & items & H3 & H4)]; [left; auto|].
      right. split; [exact H1|]. split; [exact H2|].
      exists items. split; [exact H3|]. apply Hkeep2; assumption. }
    destruct (IH grid' h2 memo1 (done ++ [c]) Hrest Hne Hg2 Hy2 Hmemo2)
      as (h' & memo' & copies & Hcp & Hy' & Hg' & Hcont & Hkeep').
    fold (@fmap list _ loc value VRef lines). rewrite Hcp.
    exists h', memo', (c :: copies). split; [reflexivity|].
    split; [rewrite Hy', <- app_assoc; reflexivity|]. split; [exact Hg'|].
    split.
    + constructor; [|exact Hcont]. apply Hkeep'; [exact Hcy|].
      apply Hkeep2; assumption.
    + intros c' o Hc' Ho. apply Hkeep'; [exact Hc'|].
      apply Hkeep2; [exact Hc'|]. apply Hkeep1. exact Ho.
Qed.

Lemma store_rows_not_outer h hist (lines : list loc) (grid : list (list Z)) :
  h !! hist = Some (OList (VRef <$> lines)) ->
  Forall2 (fun l r => h !! l = Some (OList (map VInt r))) lines grid ->
  Forall (fun l => l <> hist) lines.
Proof.
  intros Hh Hrows. apply Forall_forall. intros l Hl ->.
  apply list_elem_of_lookup in Hl as [i Hi].
  destruct (Forall2_lookup_l _ _ _ _ _ Hrows Hi) as (r & _ & Hr).
  rewrite Hh in Hr. injection Hr as Hr.
  destruct lines as [|l0 lines]; [inversion Hi|].
  destruct r; discriminate.
Qed.

(** The copy of a history is made of new objects that hold no reference
    to an old one, and it holds the same numbers. *)
Lemma store_deepcopy_history fuel h hist (history : list (list Z)) :
  holds_grid h hist (ints history) ->
  exists h1 memo history_copy,
    deepcopy (S (S fuel)) h ∅ (VRef hist) = Some (h1, memo, VRef history_copy)
    /\ grows h h1
    /\ (history_copy ∉ dom h)
    /\ holds_grid h1 history_copy (ints history).
Proof.
  intros (lines & Hh & Hrows).
  unfold ints in Hrows. apply Forall2_fmap_r in Hrows.
  assert (Hrows' : Forall2 (fun l r => h !! l = Some (OList (map VInt r))) lines history)
    by exact Hrows.
  rewrite (store_deepcopy_list (S fuel) h ∅ hist _ (lookup_empty _) Hh).
  set (y := fresh (dom h)).
  assert (Hy : y ∉ dom h) by apply is_fresh.
  destruct (store_copy_history_rows fuel h hist y Hy lines history
              (<[y := OList []]> h) (<[hist := y]> ∅) [])
    as (h' & memo' & copies & -> & Hy' & Hg' & Hcont & _).
  - exact Hrows'.
  - eapply store_rows_not_outer; eassumption.
  - apply store_grows_insert; [apply store_grows_refl|exact Hy|]. cbn. set_solver.
  - apply lookup_insert_eq.
  - intros l l' Hl. left. destruct (decide (hist = l)) as [<-|Hne].
    + rewrite lookup_insert_eq in Hl. injection Hl as <-. auto.
    + rewrite lookup_insert_ne, lookup_empty in Hl by exact Hne. discriminate.
  - exists h', memo', y. split; [reflexivity|]. split; [exact Hg'|].
    split; [exact Hy|]. exists copies. split; [exact Hy'|].
    unfold ints. apply Forall2_fmap_r. exact Hcont.
Qed.

(** *** The copies are out of the reach of the engine's objects *)

Lemma store_board_copy_independent sz init h E known self (grid : list (list Z)) :
  separate E h known ->
  board_locs h self ⊆ E ->
  holds_board h self sz (members grid) ->
  exists h1 board_copy,
    create_copy_for_player sz init h self = Some (h1, board_copy)
    /\ holds_board h1 board_copy sz (ints grid)
    /\ forall acts h2,
         run_agent h1 (known ∪ {[ board_copy ]}) acts = Some h2 ->
         holds_board h2 self sz (members grid).
Proof.
  intros Hsep Hlocs Hb.
  destruct (store_create_copy sz init h self grid Hb) as (h1 & cp & Hc & Hg & Hcp & Hs).
  exists h1, cp. split; [exact Hc|]. split; [exact Hs|].
  intros acts h2 Hrun.
  apply (store_holds_board_agrees h); [exact Hb|].
  intros l Hl. apply Hlocs in Hl.
  assert (Hsep1 : separate E h1 (known ∪ {[ cp ]})).
  { destruct (store_grows_separate _ _ _ _ Hg Hsep) as (HE & HK & Hcl).
    split; [exact HE|]. split; [|exact Hcl].
    destruct Hsep as (HE0 & _ & _). set_solver. }
  rewrite (store_run_agent_separate acts _ _ _ _ Hsep1 Hrun l Hl).
  apply Hg. destruct Hsep as (HE0 & _ & _). apply HE0. exact Hl.
Qed.

Lemma store_history_copy_independent fuel h E known hist (history : list (list Z)) :
  separate E h known ->
  grid_locs h hist ⊆ E ->
  holds_grid h hist (ints history) ->
  exists h1 memo history_copy,
    deepcopy (S (S fuel)) h ∅ (VRef hist) = Some (h1, memo, VRef history_copy)
    /\ holds_grid h1 history_copy (ints history)
    /\ forall acts h2,
         run_agent h1 (known ∪ {[ history_copy ]}) acts = Some h2 ->
         holds_grid h2 hist (ints history).
Proof.
  intros Hsep Hlocs Hb.
  destruct (store_deepcopy_history fuel h hist history Hb)
    as (h1 & memo & cp & Hc & Hg & Hcp & Hs).
  exists h1, memo, cp. split; [exact Hc|]. split; [exact Hs|].
  intros acts h2 Hrun.
  apply (store_holds_grid_agrees h); [exact Hb|].
  intros l Hl. apply Hlocs in Hl.
  assert (Hsep1 : separate E h1 (known ∪ {[ cp ]})).
  { destruct (store_grows_separate _ _ _ _ Hg Hsep) as (HE & HK & Hcl).
    split; [exact HE|]. split; [|exact Hcl].
    destruct Hsep as (HE0 & _ & _). set_solver. }
  rewrite (store_run_agent_separate acts _ _ _ _ Hsep1 Hrun l Hl).
  apply Hg. destruct Hsep as (HE0 & _ & _). apply HE0. exact Hl.
Qed.
End StoreFacts.

(** ** The store: the boards of new games *)

Section StoreGames.
Import Store.
Implicit Types (h : heap) (l : loc).

(** [GameBoard()] makes a board that holds the starting position. *)
Lemma store_new_GameBoard sz (init : list (list Z)) h :
  holds_board (new_GameBoard sz init h).1 (new_GameBoard sz init h).2 sz (members init).
Proof.
  unfold new_GameBoard.
  destruct (store_alloc_lists h (map (map VMember) init)) with (h := h)
    as (ha & la & Hal & _ & _ & _ & Hcont).
  { apply Forall_fmap, Forall_true. intros line. apply store_refs_of_members. }
  { apply store_grows_refl. }
  rewrite Hal. cbn [alloc fst snd].
  set (lo := fresh (dom ha)). set (hb := <[lo := OList (VRef <$> la)]> ha).
  set (self := fresh (dom hb)).
  assert (Hlo : lo ∉ dom ha) by apply is_fresh.
  assert (Hself : self ∉ dom hb) by apply is_fresh.
  assert (Hne : self <> lo).
  { intros Heq. apply Hself. rewrite Heq. unfold hb. rewrite dom_insert_L. set_solver. }
  exists lo. split; [apply lookup_insert_eq|].
  exists la. split.
  - rewrite lookup_insert_ne by exact Hne. apply lookup_insert_eq.
  - apply Forall2_same_length_lookup in Hcont as [Hlen Hcont].
    apply Forall2_same_length_lookup. split; [exact Hlen|].
    intros i l line Hl Hline. specialize (Hcont i l line Hl Hline).
    assert (Hin : l ∈ dom ha) by (apply elem_of_dom; rewrite Hcont; eauto).
    rewrite lookup_insert_ne.
    + unfold hb. rewrite lookup_insert_ne; [exact Hcont|]. intros <-. contradiction.
    + intros <-. apply Hself. unfold hb. rewrite dom_insert_L. set_solver.
Qed.

Lemma store_separate_all h : separate (dom h) h ∅.
Proof.
  split; [reflexivity|]. split; [set_solver|].
  intros l o Hl Ho. exfalso. apply Hl. apply elem_of_dom. eauto.
Qed.

Lemma store_refs_dom_list h (lines : list loc) (grid : list (list value)) l :
  Forall2 (fun l line => h !! l = Some (OList line)) lines grid ->
  l ∈ refs (OList (VRef <$> lines)) -> l ∈ dom h.
Proof.
  intros Hrows Hl. apply store_refs_of_refs in Hl.
  apply list_elem_of_lookup in Hl as [i Hi].
  destruct (Forall2_lookup_l _ _ _ _ _ Hrows Hi) as (line & _ & Hline).
  apply elem_of_dom. rewrite Hline. eauto.
Qed.

Lemma store_grid_locs_dom h outer (grid : list (list value)) :
  holds_grid h outer grid -> grid_locs h outer ⊆ dom h.
Proof.
  intros (lines & Houter & Hrows) l Hl. unfold grid_locs in Hl. rewrite Houter in Hl.
  apply elem_of_union in Hl as [Hl|Hl].
  - apply elem_of_singleton in Hl as ->. apply elem_of_dom. rewrite Houter. eauto.
  - eapply store_refs_dom_list; eassumption.
Qed.

Lemma store_board_locs_dom h self sz (grid : list (list value)) :
  holds_board h self sz grid -> board_locs h self ⊆ dom h.
Proof.
  intros (outer & Hself & Hgrid) l Hl. unfold board_locs in Hl. rewrite Hself in Hl.
  apply elem_of_union in Hl as [Hl|Hl].
  - apply elem_of_singleton in Hl as ->. apply elem_of_dom. rewrite Hself. eauto.
  - eapply store_grid_locs_dom; eassumption.
Qed.
End StoreGames.

(** ** The store: a player at work *)

Section StoreExamples.
Import Store InStore.

(** A player overwrites a row of the copy of a new TicTacToe board, makes
    a list of its own and puts it in the place of the rows: the rows of
    the board of the engine are as they were. *)
Example store_player_changes_its_copy :
  match ttt_create_copy_for_player ttt_store.1 ttt_store.2 with
  | Some (h1, board_copy) =>
      match run_agent h1 (∅ ∪ {[ board_copy ]})
              (ttt_meddling board_copy 14%positive 11%positive) with
      | Some h2 =>
          h2 !! 11%positive = Some (OList [VInt 7; VInt 7; VInt 7])
          /\ h2 !! board_copy = Some (OGameBoard (VInt 0) (VRef 11%positive))
          /\ h2 !! ttt_store.2 = Some (OGameBoard (VInt 3) (VRef 4%positive))
          /\ h2 !! 1%positive = Some (OList [VMember 0; VMember 0; VMember 0])
      | None => False
      end
  | None => False
  end.
Proof. by_evaluation. Qed.

(** The same on the copy of a new Reversi board and on the copy of a
    history: the player empties the copy. *)
Example store_player_empties_its_board :
  match rev_create_copy_for_player rev_store.1 rev_store.2 with
  | Some (h1, board_copy) =>
      match run_agent h1 (∅ ∪ {[ board_copy ]}) (meddling board_copy) with
      | Some h2 => h2 !! board_copy = Some (OList [])
      | None => False
      end
  | None => False
  end.
Proof. by_evaluation. Qed.

Example store_player_empties_its_history :
  match deepcopy 2 kir_store.1 ∅ (VRef kir_store.2) with
  | Some (h1, _, VRef history_copy) =>
      match run_agent h1 (∅ ∪ {[ history_copy ]}) (meddling history_copy) with
      | Some h2 =>
          h2 !! history_copy = Some (OList [])
          /\ h2 !! kir_store.2 = Some (OList [VRef 1%positive; VRef 2%positive])
      | None => False
      end
  | _ => False
  end.
Proof. by_evaluation. Qed.

(** The player that holds the copy cannot name a row of the board. *)
Example store_board_is_out_of_reach :
  match ttt_create_copy_for_player ttt_store.1 ttt_store.2 with
  | Some (h1, board_copy) =>
      run_agent h1 {[ board_copy ]} [AWrite 1%positive (OList [])] = None
  | None => False
  end.
Proof. by_evaluation. Qed.

(** Had the player been handed the board itself, it could have changed a
    row of it. *)
Example store_shared_board_can_be_changed :
  match run_agent ttt_store.1 {[ ttt_store.2 ]}
          [ARead ttt_store.2; ARead 4%positive;
           AWrite 1%positive (OList [VInt 7; VInt 7; VInt 7])] with
  | Some h2 => h2 !! 1%positive = Some (OList [VInt 7; VInt 7; VInt 7])
  | None => False
  end.
Proof. by_evaluation. Qed.
End StoreExamples.

(** * The claims of the specification *)

Section Claims.
Import Store InStore.

(** C1. The claim: the cells flipped by a move are the runs of opposing
    discs closed by a disc of the mover, a direction that meets an empty
    cell first gives nothing, and the move is legal exactly when some run
    is not empty. The code does otherwise: the walk of
    [_get_flipped_cells_for_move] does not stop at an empty cell. On the
    board reached by black (2,3), white (4,2), black (5,1), white (2,2),
    black at the empty cell (1,2) has the white disc (2,2), the empty cell
    (3,2) and the black disc (4,2) below it: the code flips (2,2) and
    (3,2) and takes the move for legal, where the rule of the
    specification flips nothing. *)
Theorem reversi_walk_crosses_empty_cell :
  Reversi.apply_moves Reversi.GameBoard_init Reversi.gap_moves
  = (Reversi.gap_board, Py.Ok tt)
  /\ Reversi.get Reversi.gap_board 1 2 = Py.Ok Reversi.BoardCell.EMPTY
  /\ Reversi._get_flipped_cells_for_move Reversi.gap_board 1 2 Reversi.BoardCell.BLACK
     = Py.Ok [(2, 2); (3, 2)]
  /\ Reversi.get Reversi.gap_board 3 2 = Py.Ok Reversi.BoardCell.EMPTY
  /\ Reversi.spec_flipped Reversi.gap_board 1 2 Reversi.BoardCell.BLACK = []
  /\ Reversi._is_valid_move Reversi.gap_board 1 2 Reversi.BoardCell.BLACK = Py.Ok true.
Proof. by_evaluation. Qed.

(** C2. The claim: a player whose every answer is invalid is asked 5
    times before the forfeit. The code asks 4 times: the loop starts at
    [try_index = 1] and runs while [try_index < 5]. In each of the three
    games a player that always answers out of range has been called 4
    times when the forfeit is declared (the opponent wins the board
    games, the round is given -1 in the numeric game). *)
Theorem forfeit_comes_after_four_calls :
  (let '(g, r) := TicTacToe._make_one_move TicTacToe.out_of_range_player
                    TicTacToe.last_cell_o 5 TicTacToe._init_game in
   r = Py.Ok tt
   /\ TicTacToe.winner g = Some TicTacToe.Winner.O
   /\ length (TicTacToe.x_seen g) = 4%nat)
  /\ (let '(g, r) := Reversi._make_one_move Reversi.out_of_range_player
                       Reversi.gap_white 5 Reversi._init_game in
      r = Py.Ok tt
      /\ Reversi.winner g = Some Reversi.Winner.WHITE
      /\ length (Reversi.black_seen g) = 4%nat)
  /\ Kirzhanovsky._safe_move 5 3 [] (Kirzhanovsky.constant (Kirzhanovsky.PyInt 0)) []
     = ([[]; []; []; []], Py.Ok (-1))
  /\ Kirzhanovsky.INCORRECT_MOVE_TRIES_LIMIT = 5.
Proof. by_evaluation. Qed.

(** C3. The claim: a top row of one mark is a win of that mark whatever
    the other cells hold, full boards included. The code tests [is_full]
    first: on a full board [get_winner] answers DRAW and looks at no line.
    In the game below X fills the top row with the last free cell and the
    game ends in a draw. *)
Theorem full_board_with_top_row_is_draw :
  Py.index TicTacToe.last_cell_board 0
  = Some [TicTacToe.BoardCell.X; TicTacToe.BoardCell.X; TicTacToe.BoardCell.X]
  /\ TicTacToe.is_full TicTacToe.last_cell_board = Py.Ok true
  /\ TicTacToe.get_winner TicTacToe.last_cell_board = Py.Ok (Some TicTacToe.Winner.DRAW)
  /\ TicTacToe.board
       (fst (TicTacToe.play_loop TicTacToe.last_cell_x TicTacToe.last_cell_o 5 20
               TicTacToe._init_game))
     = TicTacToe.last_cell_board
  /\ TicTacToe.play TicTacToe.last_cell_x TicTacToe.last_cell_o 5 20
     = Py.Ok (Some TicTacToe.Winner.DRAW).
Proof. by_evaluation. Qed.

(** C4. The claim: a call of [apply_move] that fails leaves every cell as
    it was. In Reversi the code breaks it on a move that captures nothing
    by the rule of the specification: black at (1,2) on [gap_board]. The
    walk crosses the empty cell (3,2), the move passes [_is_valid_move],
    the disc is placed, (2,2) is turned, and [inverse()] of the empty cell
    raises ValueError: the call fails with two cells changed. The same
    defect as in C1. *)
Theorem reversi_failed_move_changes_board :
  Reversi.spec_flipped Reversi.gap_board 1 2 Reversi.BoardCell.BLACK = []
  /\ Reversi.apply_move Reversi.gap_board Reversi.PlayerType.BLACK (Reversi.move_at 1 2)
     = (Reversi.gap_board_after, Py.Raise Reversi.ValueError)
  /\ Py.cell_at Reversi.gap_board 1 2 = Some Reversi.BoardCell.EMPTY
  /\ Py.cell_at Reversi.gap_board_after 1 2 = Some Reversi.BoardCell.BLACK
  /\ Py.cell_at Reversi.gap_board 2 2 = Some Reversi.BoardCell.WHITE
  /\ Py.cell_at Reversi.gap_board_after 2 2 = Some Reversi.BoardCell.BLACK
  /\ Reversi.play Reversi.gap_black Reversi.gap_white 5 20 = Py.Raise Reversi.ValueError.
Proof. by_evaluation. Qed.

(** C5. The claim: a player out of tries contributes no value to the
    round, keeps its score, and the others are scored by the usual rule.
    The code records -1 for the player and scores the round as any other:
    -1 is then the lowest move played once, the player gets -1 point and
    nobody else scores. With players answering 0 (out of range), 1 and 2
    the round is [-1; 1; 2] and the scores are [-1; 0; 0], where the claim
    gives [0; 1; 0]; after the hundred rounds of a game the players 1 and
    2 are tied and [_find_winner] finds no winner. *)
Theorem forfeit_wins_the_round_with_minus_one :
  Kirzhanovsky.history
    (fst (Kirzhanovsky._make_one_move 5 Kirzhanovsky.forfeit_players
            (Kirzhanovsky._init_game 3)))
  = [[-1; 1; 2]]
  /\ Kirzhanovsky.compute_scores 3 [[-1; 1; 2]] = Py.Ok [-1; 0; 0]
  /\ Kirzhanovsky.compute_scores 3 [[1; 2]] = Py.Ok [1; 0; 0]
  /\ (let '(g, r) := Kirzhanovsky.base_rounds Kirzhanovsky.forfeit_players 5 200
                       (Kirzhanovsky._init_game 3) in
      r = Py.Ok tt
      /\ Kirzhanovsky.compute_scores 3 (Kirzhanovsky.history g) = Py.Ok [-100; 0; 0]
      /\ snd (Kirzhanovsky._find_winner 3 g) = Py.Ok false).
Proof. by_evaluation. Qed.

(** C6. In the numeric game, a round in which some move was played once
    is scored to one player: the one holding the lowest move played once,
    who gets that move as points; the other scores stay. A round with no
    move played once changes no score. In the round 3, 3, 5 the player of
    5 gets 5 points. *)
Theorem lowest_unique_move_scores (scores round : list Z) :
  length scores = length round ->
  ((exists v, Kirzhanovsky.count v round = 1%nat) ->
   exists (player_id : nat) (v s : Z),
     round !! player_id = Some v
     /\ Kirzhanovsky.count v round = 1%nat
     /\ (forall w, Kirzhanovsky.count w round = 1%nat -> v <= w)
     /\ scores !! player_id = Some s
     /\ Kirzhanovsky.score_round scores round
        = Py.Ok (<[player_id := s + v]> scores))
  /\ ((forall v, Kirzhanovsky.count v round <> 1%nat) ->
      Kirzhanovsky.score_round scores round = Py.Ok scores)
  /\ Kirzhanovsky.score_round [0; 0; 0] [3; 3; 5] = Py.Ok [0; 0; 5].
Proof.
  intros Hlen. unfold Kirzhanovsky.score_round.
  assert (Hfirst := kir_first_unique_round round).
  split; [|split; [|by_evaluation]].
  - intros [v0 Hv0].
    destruct (Kirzhanovsky.first_unique _ _) as [[[i v]|]| |];
      [|exfalso; exact (Hfirst v0 Hv0)|contradiction..].
    destruct Hfirst as (Hi & Hone & Hmin). cbn [Py.bind].
    assert (Hs : is_Some (scores !! i)).
    { apply lookup_lt_is_Some. rewrite Hlen. eapply lookup_lt_Some. exact Hi. }
    destruct Hs as [s Hs]. rewrite Hs.
    exists i, v, s. repeat split; assumption.
  - intros Hnone.
    destruct (Kirzhanovsky.first_unique _ _) as [[[i v]|]| |];
      [|reflexivity|contradiction..].
    destruct Hfirst as (_ & Hone & _). exfalso. exact (Hnone v Hone).
Qed.

Lemma lowest_unique_move_scores_witness :
  (exists (player_id : nat) (v s : Z),
     [3; 3; 5] !! player_id = Some v
     /\ Kirzhanovsky.count v [3; 3; 5] = 1%nat
     /\ (forall w, Kirzhanovsky.count w [3; 3; 5] = 1%nat -> v <= w)
     /\ [0; 0; 0] !! player_id = Some s
     /\ Kirzhanovsky.score_round [0; 0; 0] [3; 3; 5]
        = Py.Ok (<[player_id := s + v]> [0; 0; 0]))
  /\ Kirzhanovsky.score_round [4; 0; 1] [2; 2; 2] = Py.Ok [4; 0; 1].
Proof.
  split.
  - apply (proj1 (lowest_unique_move_scores [0; 0; 0] [3; 3; 5] eq_refl)).
    exists 5. reflexivity.
  - apply (proj1 (proj2 (lowest_unique_move_scores [4; 0; 1] [2; 2; 2] eq_refl))).
    intros v. unfold Kirzhanovsky.count. cbn [count_occ].
    destruct (Z.eq_dec 2 v); discriminate.
Defined.

(** C7. The claim: in every game the type of the answer is tested before
    its range, so that an answer of the wrong type and out of range is
    reported for its type. [_safe_move] of the numeric game tests the range
    first: with 2 players the float 7.5, which is no int and is out of
    range, is reported by the message of the range test (inside the message
    of the handler), not by the message of the type test. The board games
    test the type first ([ttt_type_checked_first],
    [rev_type_checked_first]). *)
Theorem numeric_game_tests_range_before_type :
  Kirzhanovsky.isinstance_int (Kirzhanovsky.PyFloat (15 # 2)) = None
  /\ Kirzhanovsky.py_gt (Kirzhanovsky.PyFloat (15 # 2)) 2 = Some true
  /\ Kirzhanovsky.validate 2 (Kirzhanovsky.Returned (Kirzhanovsky.PyFloat (15 # 2)))
     = Py.Raise (Kirzhanovsky.IncorrectMove
                   (Kirzhanovsky.MoveError Kirzhanovsky.BadValue))
  /\ Kirzhanovsky.validate 2 (Kirzhanovsky.Returned (Kirzhanovsky.PyFloat (3 # 2)))
     = Py.Raise (Kirzhanovsky.IncorrectMove Kirzhanovsky.NotAnInt).
Proof. by_evaluation. Qed.

(** C8. In both board games, whatever calls of [apply_move] are made and
    however they end, every cell stays in place and changes only from
    EMPTY to the mark of a player or, in Reversi only, from the disc of one
    player to the disc of the other: no cell of a player becomes EMPTY
    again. *)
Theorem cells_never_return_to_empty :
  (forall b b',
     TicTacToe.moves_to b b' ->
     forall i j v,
       Py.cell_at b i j = Some v ->
       exists v', Py.cell_at b' i j = Some v' /\ TicTacToe.allowed_change v v')
  /\ (forall b b',
        Reversi.moves_to b b' ->
        forall i j v,
          Py.cell_at b i j = Some v ->
          exists v', Py.cell_at b' i j = Some v'
            /\ Reversi.allowed_change v v'
            /\ (v <> Reversi.BoardCell.EMPTY -> v' <> Reversi.BoardCell.EMPTY)).
Proof.
  split.
  - exact ttt_moves_to_cells.
  - intros b b' Hmoves i j v Hv.
    destruct (rev_moves_to_cells b b' Hmoves i j v Hv) as (v' & Hv' & Hch).
    exists v'. split; [exact Hv'|]. split; [exact Hch|].
    apply rev_allowed_change_owned. exact Hch.
Qed.

Lemma cells_never_return_to_empty_witness :
  (exists v', Py.cell_at TicTacToe.after_first_move 0 0 = Some v'
     /\ TicTacToe.allowed_change TicTacToe.BoardCell.EMPTY v')
  /\ (exists v', Py.cell_at Reversi.after_first_move 3 3 = Some v'
        /\ Reversi.allowed_change Reversi.BoardCell.WHITE v'
        /\ (Reversi.BoardCell.WHITE <> Reversi.BoardCell.EMPTY
            -> v' <> Reversi.BoardCell.EMPTY)).
Proof.
  split.
  - apply (proj1 cells_never_return_to_empty TicTacToe.GameBoard_init).
    + apply (TicTacToe.moves_more _ TicTacToe.PlayerType.X (TicTacToe.move_at 0 0)
               TicTacToe.after_first_move (Py.Ok tt)).
      * vm_compute. reflexivity.
      * apply TicTacToe.moves_none.
    + vm_compute. reflexivity.
  - apply (proj2 cells_never_return_to_empty Reversi.GameBoard_init).
    + apply (Reversi.moves_more _ Reversi.PlayerType.BLACK (Reversi.move_at 2 3)
               Reversi.after_first_move (Py.Ok tt)).
      * vm_compute. reflexivity.
      * apply Reversi.moves_none.
    + vm_compute. reflexivity.
Defined.

(** C9. In every game the state handed to a player is a copy of its own:
    whatever the player does to the objects it can reach from the copy
    (and from what it held before), the board of the engine, in both board
    games, and the history of the numeric game hold what they held. The
    copy is always made: the call returns. *)
Theorem snapshot_is_an_independent_copy :
  (forall h E known self b,
     separate E h known ->
     board_locs h self ⊆ E ->
     ttt_board h self b ->
     exists h1 board_copy,
       ttt_create_copy_for_player h self = Some (h1, board_copy)
       /\ forall acts h2,
            run_agent h1 (known ∪ {[ board_copy ]}) acts = Some h2 ->
            ttt_board h2 self b)
  /\ (forall h E known self b,
        separate E h known ->
        board_locs h self ⊆ E ->
        rev_board h self b ->
        exists h1 board_copy,
          rev_create_copy_for_player h self = Some (h1, board_copy)
          /\ forall acts h2,
               run_agent h1 (known ∪ {[ board_copy ]}) acts = Some h2 ->
               rev_board h2 self b)
  /\ (forall fuel h E known hist history,
        (2 <= fuel)%nat ->
        separate E h known ->
        grid_locs h hist ⊆ E ->
        kir_history h hist history ->
        exists h1 memo history_copy,
          deepcopy fuel h ∅ (VRef hist) = Some (h1, memo, VRef history_copy)
          /\ forall acts h2,
               run_agent h1 (known ∪ {[ history_copy ]}) acts = Some h2 ->
               kir_history h2 hist history).
Proof.
  split; [|split].
  - intros h E known self b Hsep Hlocs Hb.
    destruct (store_board_copy_independent _
                (map (map TicTacToe.BoardCell.value) TicTacToe.GameBoard_init)
                _ _ _ _ _ Hsep Hlocs Hb) as (h1 & cp & Hc & _ & Hind).
    exists h1, cp. split; [exact Hc|exact Hind].
  - intros h E known self b Hsep Hlocs Hb.
    destruct (store_board_copy_independent _
                (map (map Reversi.BoardCell.value) Reversi.GameBoard_init)
                _ _ _ _ _ Hsep Hlocs Hb) as (h1 & cp & Hc & _ & Hind).
    exists h1, cp. split; [exact Hc|exact Hind].
  - intros fuel h E known hist history Hfuel Hsep Hlocs Hh.
    destruct fuel as [|[|fuel]]; [lia..|].
    destruct (store_history_copy_independent fuel _ _ _ _ _ Hsep Hlocs Hh)
      as (h1 & memo & cp & Hc & _ & Hind).
    exists h1, memo, cp. split; [exact Hc|exact Hind].
Qed.

Lemma snapshot_is_an_independent_copy_witness :
  match ttt_create_copy_for_player ttt_store.1 ttt_store.2 with
  | Some (h1, board_copy) =>
      match run_agent h1 (∅ ∪ {[ board_copy ]})
              (ttt_meddling board_copy 14%positive 11%positive) with
      | Some h2 => ttt_board h2 ttt_store.2 TicTacToe.GameBoard_init
      | None => False
      end
  | None => False
  end
  /\ match rev_create_copy_for_player rev_store.1 rev_store.2 with
     | Some (h1, board_copy) =>
         match run_agent h1 (∅ ∪ {[ board_copy ]}) (meddling board_copy) with
         | Some h2 => rev_board h2 rev_store.2 Reversi.GameBoard_init
         | None => False
         end
     | None => False
     end
  /\ match deepcopy 2 kir_store.1 ∅ (VRef kir_store.2) with
     | Some (h1, _, VRef history_copy) =>
         match run_agent h1 (∅ ∪ {[ history_copy ]}) (meddling history_copy) with
         | Some h2 => kir_history h2 kir_store.2 [[1; 2]; [2; 2]]
         | None => False
         end
     | _ => False
     end.
Proof.
  assert (Ht : ttt_board ttt_store.1 ttt_store.2 TicTacToe.GameBoard_init)
    by apply store_new_GameBoard.
  assert (Hr : rev_board rev_store.1 rev_store.2 Reversi.GameBoard_init)
    by apply store_new_GameBoard.
  assert (Hk : kir_history kir_store.1 kir_store.2 [[1; 2]; [2; 2]]).
  { exists [1%positive; 2%positive]. split; [vm_compute; reflexivity|].
    repeat constructor. }
  split; [|split].
  - destruct (proj1 snapshot_is_an_independent_copy
                ttt_store.1 (dom ttt_store.1) ∅ ttt_store.2 TicTacToe.GameBoard_init
                (store_separate_all _) (store_board_locs_dom _ _ _ _ Ht) Ht)
      as (h1 & board_copy & Hcopy & Hkept).
    assert (Hrun := store_player_changes_its_copy).
    rewrite Hcopy in Hrun |- *.
    destruct (run_agent h1 _ _) as [h2|] eqn:Hh2; [|exact Hrun].
    exact (Hkept _ _ Hh2).
  - destruct (proj1 (proj2 snapshot_is_an_independent_copy)
                rev_store.1 (dom rev_store.1) ∅ rev_store.2 Reversi.GameBoard_init
                (store_separate_all _) (store_board_locs_dom _ _ _ _ Hr) Hr)
      as (h1 & board_copy & Hcopy & Hkept).
    assert (Hrun := store_player_empties_its_board).
    rewrite Hcopy in Hrun |- *.
    destruct (run_agent h1 _ _) as [h2|] eqn:Hh2; [|exact Hrun].
    exact (Hkept _ _ Hh2).
  - destruct (proj2 (proj2 snapshot_is_an_independent_copy)
                2%nat kir_store.1 (dom kir_store.1) ∅ kir_store.2 [[1; 2]; [2; 2]]
                (le_n 2) (store_separate_all _) (store_grid_locs_dom _ _ _ Hk) Hk)
      as (h1 & memo & history_copy & Hcopy & Hkept).
    assert (Hrun := store_player_empties_its_history).
    rewrite Hcopy in Hrun |- *.
    destruct (run_agent h1 _ _) as [h2|] eqn:Hh2; [|exact Hrun].
    exact (Hkept _ _ Hh2).
Defined.

(** C10. In both board games the copy handed to a player holds, at every
    coordinate, the int that is the value of the cell of the board there
    (0 for the empty cell, 1 and 2 for the players), and not the member of
    the enumeration: so for the values of the copy, and so for the object
    [create_copy_for_player] returns. *)
Theorem snapshot_holds_cell_values :
  (forall b i j c,
     Py.cell_at b i j = Some c ->
     Py.cell_at (TicTacToe.create_copy_for_player b) i j
     = Some (TicTacToe.BoardCell.value c)
     /\ 0 <= TicTacToe.BoardCell.value c <= 2
     /\ (TicTacToe.BoardCell.value c = 0 <-> c = TicTacToe.BoardCell.EMPTY))
  /\ (forall b i j c,
        Py.cell_at b i j = Some c ->
        Py.cell_at (Reversi.create_copy_for_player b) i j
        = Some (Reversi.BoardCell.value c)
        /\ 0 <= Reversi.BoardCell.value c <= 2
        /\ (Reversi.BoardCell.value c = 0 <-> c = Reversi.BoardCell.EMPTY))
  /\ (forall h self b h1 board_copy,
        ttt_board h self b ->
        ttt_create_copy_for_player h self = Some (h1, board_copy) ->
        ttt_snapshot h1 board_copy (TicTacToe.create_copy_for_player b))
  /\ (forall h self b h1 board_copy,
        rev_board h self b ->
        rev_create_copy_for_player h self = Some (h1, board_copy) ->
        rev_snapshot h1 board_copy (Reversi.create_copy_for_player b))
  /\ map TicTacToe.BoardCell.value
       [TicTacToe.BoardCell.EMPTY; TicTacToe.BoardCell.X; TicTacToe.BoardCell.O]
     = [0; 1; 2]
  /\ map Reversi.BoardCell.value
       [Reversi.BoardCell.EMPTY; Reversi.BoardCell.BLACK; Reversi.BoardCell.WHITE]
     = [0; 1; 2].
Proof.
  split; [|split; [|split; [|split; [|split; reflexivity]]]].
  - intros b i j c Hc. split; [|destruct c; cbn; split; try lia; split; congruence].
    unfold Py.cell_at, TicTacToe.create_copy_for_player in *.
    change (map (map TicTacToe.BoardCell.value) b)
      with (map TicTacToe.BoardCell.value <$> b).
    rewrite list_lookup_fmap. destruct (b !! i) as [line|]; [|discriminate].
    cbn. change (map TicTacToe.BoardCell.value line)
      with (TicTacToe.BoardCell.value <$> line).
    rewrite list_lookup_fmap, Hc. reflexivity.
  - intros b i j c Hc. split; [|destruct c; cbn; split; try lia; split; congruence].
    unfold Py.cell_at, Reversi.create_copy_for_player in *.
    change (map (map Reversi.BoardCell.value) b)
      with (map Reversi.BoardCell.value <$> b).
    rewrite list_lookup_fmap. destruct (b !! i) as [line|]; [|discriminate].
    cbn. change (map Reversi.BoardCell.value line)
      with (Reversi.BoardCell.value <$> line).
    rewrite list_lookup_fmap, Hc. reflexivity.
  - intros h self b h1 cp Hb Hcopy.
    destruct (store_create_copy TicTacToe.size
                (map (map TicTacToe.BoardCell.value) TicTacToe.GameBoard_init)
                h self _ Hb) as (h1' & cp' & Hc & _ & _ & Hs).
    unfold ttt_create_copy_for_player in Hcopy. rewrite Hc in Hcopy.
    injection Hcopy as <- <-. exact Hs.
  - intros h self b h1 cp Hb Hcopy.
    destruct (store_create_copy Reversi.size
                (map (map Reversi.BoardCell.value) Reversi.GameBoard_init)
                h self _ Hb) as (h1' & cp' & Hc & _ & _ & Hs).
    unfold rev_create_copy_for_player in Hcopy. rewrite Hc in Hcopy.
    injection Hcopy as <- <-. exact Hs.
Qed.

Lemma snapshot_holds_cell_values_witness :
  (Py.cell_at (TicTacToe.create_copy_for_player TicTacToe.after_first_move) 0 0
   = Some (TicTacToe.BoardCell.value TicTacToe.BoardCell.X)
   /\ 0 <= TicTacToe.BoardCell.value TicTacToe.BoardCell.X <= 2
   /\ (TicTacToe.BoardCell.value TicTacToe.BoardCell.X = 0
       <-> TicTacToe.BoardCell.X = TicTacToe.BoardCell.EMPTY))
  /\ (Py.cell_at (Reversi.create_copy_for_player Reversi.after_first_move) 4 4
      = Some (Reversi.BoardCell.value Reversi.BoardCell.WHITE)
      /\ 0 <= Reversi.BoardCell.value Reversi.BoardCell.WHITE <= 2
      /\ (Reversi.BoardCell.value Reversi.BoardCell.WHITE = 0
          <-> Reversi.BoardCell.WHITE = Reversi.BoardCell.EMPTY))
  /\ match ttt_create_copy_for_player ttt_store.1 ttt_store.2 with
     | Some (h1, board_copy) =>
         ttt_snapshot h1 board_copy
           (TicTacToe.create_copy_for_player TicTacToe.GameBoard_init)
     | None => False
     end
  /\ match rev_create_copy_for_player rev_store.1 rev_store.2 with
     | Some (h1, board_copy) =>
         rev_snapshot h1 board_copy
           (Reversi.create_copy_for_player Reversi.GameBoard_init)
     | None => False
     end.
Proof.
  split; [|split; [|split]].
  - apply (proj1 snapshot_holds_cell_values TicTacToe.after_first_move 0%nat 0%nat).
    reflexivity.
  - apply (proj1 (proj2 snapshot_holds_cell_values) Reversi.after_first_move 4%nat 4%nat).
    reflexivity.
  - destruct (ttt_create_copy_for_player ttt_store.1 ttt_store.2)
      as [[h1 board_copy]|] eqn:Hcopy.
    + apply (proj1 (proj2 (proj2 snapshot_holds_cell_values)) ttt_store.1 ttt_store.2);
        [apply store_new_GameBoard|exact Hcopy].
    + vm_compute in Hcopy. discriminate Hcopy.
  - destruct (rev_create_copy_for_player rev_store.1 rev_store.2)
      as [[h1 board_copy]|] eqn:Hcopy.
    + apply (proj1 (proj2 (proj2 (proj2 snapshot_holds_cell_values)))
               rev_store.1 rev_store.2);
        [apply store_new_GameBoard|exact Hcopy].
    + vm_compute in Hcopy. discriminate Hcopy.
Defined.
End Claims.

Section TicTacToeRulesFacts.
Import TicTacToe TicTacToeRules.

(** Evaluates the loops over [range(self.size)]. *)
Ltac ttt_eval :=
  repeat (progress (change (Py.range size) with [0; 1; 2]; unfold get; simpl)).

(** A well-formed board is nine cells. *)
Lemma ttt_well_formed_cells (b : cells) :
  well_formed b ->
  exists a0 a1 a2 a3 a4 a5 a6 a7 a8,
    b = [ [a0; a1; a2]; [a3; a4; a5]; [a6; a7; a8] ].
Proof.
  intros [Hlen Hall]. change (Z.to_nat size) with 3%nat in *.
  destruct b as [|r0 [|r1 [|r2 [|]]]]; try discriminate.
  apply Forall_cons in Hall as [H0 Hall].
  apply Forall_cons in Hall as [H1 Hall].
  apply Forall_cons in Hall as [H2 _].
  destruct r0 as [|? [|? [|? [|]]]]; try discriminate.
  destruct r1 as [|? [|? [|? [|]]]]; try discriminate.
  destruct r2 as [|? [|? [|? [|]]]]; try discriminate.
  eauto 10.
Qed.

Lemma ttt_cells_well_formed (a0 a1 a2 a3 a4 a5 a6 a7 a8 : BoardCell.t) :
  well_formed [ [a0; a1; a2]; [a3; a4; a5]; [a6; a7; a8] ].
Proof. split; [reflexivity|]. repeat constructor. Qed.

Lemma ttt_init_well_formed : well_formed GameBoard_init.
Proof. apply ttt_cells_well_formed. Qed.

Lemma ttt_in_range (i : Z) : 0 <= i < size -> i = 0 \/ i = 1 \/ i = 2.
Proof. unfold size. lia. Qed.

(** [_is_cells_full_by_player]: a winner exactly for a list that is not
    empty and holds the mark of one player only. *)
Lemma ttt_is_cells_full_by_player_some (cs : list BoardCell.t) (w : Winner.t) :
  _is_cells_full_by_player cs = Some w
  <-> exists p, w = Winner.of_player p /\ cs <> []
        /\ Forall (fun c => c = BoardCell_of_player p) cs.
Proof.
  destruct cs as [|c rest]; simpl.
  - split; [discriminate|]. intros (p & _ & H & _). contradiction.
  - split.
    + destruct (forallb (BoardCell.eqb c) rest) eqn:Hall; [|discriminate].
      assert (Hrest : Forall (fun c' => c' = c) rest).
      { apply Forall_forall. intros c' Hin.
        rewrite forallb_forall in Hall.
        apply list_elem_of_In, Hall, ttt_cell_eqb_eq in Hin. congruence. }
      destruct c; simpl; intros H; inversion H; subst.
      * exists PlayerType.X. split; [reflexivity|]. split; [discriminate|].
        constructor; [reflexivity|exact Hrest].
      * exists PlayerType.O. split; [reflexivity|]. split; [discriminate|].
        constructor; [reflexivity|exact Hrest].
    + intros (p & -> & _ & H). apply Forall_cons in H as [-> H].
      replace (forallb (BoardCell.eqb (BoardCell_of_player p)) rest) with true.
      * destruct p; reflexivity.
      * symmetry. apply forallb_forall. intros c' Hin.
        apply ttt_cell_eqb_eq. symmetry.
        rewrite Forall_forall in H. apply H, list_elem_of_In, Hin.
Qed.

Lemma ttt_is_cells_full_by_player_draw (cs : list BoardCell.t) :
  _is_cells_full_by_player cs <> Some Winner.DRAW.
Proof.
  intros H. apply ttt_is_cells_full_by_player_some in H as (p & Hp & _).
  destruct p; discriminate.
Qed.

(** The check of one line of a well-formed board. *)
Lemma ttt_line_check (x y z : BoardCell.t) :
  match _is_cells_full_by_player [x; y; z] with
  | Some w => exists p, w = Winner.of_player p
                /\ x = BoardCell_of_player p /\ y = BoardCell_of_player p
                /\ z = BoardCell_of_player p
  | None => forall p, ~ (x = BoardCell_of_player p /\ y = BoardCell_of_player p
                          /\ z = BoardCell_of_player p)
  end.
Proof.
  destruct (_is_cells_full_by_player [x; y; z]) as [w|] eqn:H.
  - apply ttt_is_cells_full_by_player_some in H as (p & -> & _ & H).
    exists p. split; [reflexivity|].
    repeat (apply Forall_cons in H as [? H]). auto.
  - intros p (-> & -> & ->).
    assert (H' : _is_cells_full_by_player
                   [BoardCell_of_player p; BoardCell_of_player p; BoardCell_of_player p]
                 = Some (Winner.of_player p)).
    { apply ttt_is_cells_full_by_player_some. exists p.
      split; [reflexivity|]. split; [discriminate|]. repeat constructor. }
    congruence.
Qed.

Lemma ttt_empty_eqb (c : BoardCell.t) :
  BoardCell.eqb c BoardCell.EMPTY = bool_decide (c = BoardCell.EMPTY).
Proof. destruct c; reflexivity. Qed.

(** [is_full] on a well-formed board: it returns, and says whether no
    cell is EMPTY. *)
Lemma ttt_is_full_decides (b : cells) :
  well_formed b -> is_full b = Py.Ok (bool_decide (full b)).
Proof.
  intros Hwf.
  destruct (ttt_well_formed_cells b Hwf)
    as (a0 & a1 & a2 & a3 & a4 & a5 & a6 & a7 & a8 & ->).
  assert (Hfull : forall v, full [ [a0; a1; a2]; [a3; a4; a5]; [a6; a7; a8] ] ->
            In v [a0; a1; a2; a3; a4; a5; a6; a7; a8] -> v <> BoardCell.EMPTY).
  { unfold full. intros v H Hin.
    repeat (apply Forall_cons in H as [?H H]).
    repeat match goal with
           | H : Forall _ (_ :: _) |- _ => apply Forall_cons in H as [? H]
           end.
    simpl in Hin. intuition congruence. }
  unfold is_full. ttt_eval.
  repeat match goal with
  | |- context [BoardCell.eqb ?a BoardCell.EMPTY] =>
      let E := fresh "E" in
      destruct (BoardCell.eqb a BoardCell.EMPTY) eqn:E;
        [apply ttt_cell_eqb_eq in E; simpl;
         rewrite bool_decide_eq_false_2; [reflexivity|];
         intros Hf; apply (Hfull _ Hf) in E; [exact E|simpl; tauto]
        |simpl]
  end.
  rewrite bool_decide_eq_true_2; [reflexivity|].
  unfold full.
  repeat match goal with
         | H : BoardCell.eqb ?a BoardCell.EMPTY = false |- _ =>
             assert (a <> BoardCell.EMPTY)
               by (intros ->; discriminate H); clear H
         end.
  repeat constructor; assumption.
Qed.

Lemma ttt_owns_cells (a0 a1 a2 a3 a4 a5 a6 a7 a8 : BoardCell.t) p i1 j1 i2 j2 i3 j3 :
  owns [ [a0; a1; a2]; [a3; a4; a5]; [a6; a7; a8] ] p [(i1, j1); (i2, j2); (i3, j3)]
  <-> Py.cell_at [ [a0; a1; a2]; [a3; a4; a5]; [a6; a7; a8] ] i1 j1
        = Some (BoardCell_of_player p)
      /\ Py.cell_at [ [a0; a1; a2]; [a3; a4; a5]; [a6; a7; a8] ] i2 j2
        = Some (BoardCell_of_player p)
      /\ Py.cell_at [ [a0; a1; a2]; [a3; a4; a5]; [a6; a7; a8] ] i3 j3
        = Some (BoardCell_of_player p).
Proof.
  unfold owns. rewrite !Forall_cons. simpl. intuition auto.
Qed.

Lemma ttt_winner_of_player_inj p q : Winner.of_player p = Winner.of_player q -> p = q.
Proof. destruct p, q; simpl; congruence. Qed.

#[local] Arguments TicTacToe._is_cells_full_by_player : simpl never.

(** Finds, among [ls], the line the player [p0] owns. *)
Ltac ttt_owned_line Hfound p0 ls :=
  match ls with
  | ?l :: ?ls' =>
      first
        [ solve [ apply (Hfound p0 l);
                  [ apply list_elem_of_In; simpl; tauto
                  | apply ttt_owns_cells; simpl; subst; auto
                  | reflexivity ] ]
        | ttt_owned_line Hfound p0 ls' ]
  end.

(** One line check of [get_winner] on a board of nine cells: the check
    finds a winner, who owns a line, or no player owns the line. *)
Ltac ttt_check_line Hfound :=
  match goal with
  | |- context [_is_cells_full_by_player [?x; ?y; ?z]] =>
      let H := fresh "Hline" in
      pose proof (ttt_line_check x y z) as H;
      destruct (_is_cells_full_by_player [x; y; z]);
      [ let p0 := fresh "p0" in
        destruct H as (p0 & -> & ? & ? & ?);
        simpl; eexists; split; [reflexivity|];
        let ls := eval unfold lines in lines in
        ttt_owned_line Hfound p0 ls
      | simpl ]
  end.

(** [get_winner] on a well-formed board: it returns; DRAW exactly on a
    full board; a player only when the board is not full and the player
    owns a line; no winner exactly when the board is not full and nobody
    owns a line. *)
Lemma ttt_get_winner_rules (b : cells) :
  well_formed b ->
  exists r, get_winner b = Py.Ok r
    /\ (r = Some Winner.DRAW <-> full b)
    /\ (forall p, r = Some (Winner.of_player p) ->
          ~ full b /\ exists line, line ∈ lines /\ owns b p line)
    /\ (r = None <-> ~ full b /\ forall p line, line ∈ lines -> ~ owns b p line).
Proof.
  intros Hwf. unfold get_winner. rewrite (ttt_is_full_decides b Hwf).
  destruct (bool_decide (full b)) eqn:Hfull; cbn [Py.bind].
  { apply bool_decide_eq_true in Hfull.
    eexists. split; [reflexivity|]. split; [tauto|]. split.
    - intros p Hp. destruct p; discriminate.
    - split; [discriminate|]. tauto. }
  apply bool_decide_eq_false in Hfull.
  destruct (ttt_well_formed_cells b Hwf)
    as (a0 & a1 & a2 & a3 & a4 & a5 & a6 & a7 & a8 & Hb).
  assert (Hfound : forall p0 line r,
            line ∈ lines -> owns b p0 line -> r = Some (Winner.of_player p0) ->
            (r = Some Winner.DRAW <-> full b)
            /\ (forall p, r = Some (Winner.of_player p) ->
                  ~ full b /\ exists line, line ∈ lines /\ owns b p line)
            /\ (r = None <-> ~ full b /\ forall p line, line ∈ lines -> ~ owns b p line)).
  { intros p0 line r Hin Hown ->. split; [|split].
    - split; [destruct p0; discriminate|contradiction].
    - intros p Hp. injection Hp as Hp. apply ttt_winner_of_player_inj in Hp as ->.
      eauto.
    - split; [discriminate|]. intros [_ Hno]. destruct (Hno _ _ Hin Hown). }
  rewrite Hb in *. clear Hb b.
  ttt_eval.
  do 8 ttt_check_line Hfound.
  eexists. split; [reflexivity|]. split; [|split].
  - split; [discriminate|contradiction].
  - discriminate.
  - split; [|reflexivity]. intros _. split; [exact Hfull|].
    intros p line Hin Hown.
    apply list_elem_of_In in Hin. simpl in Hin.
    repeat (destruct Hin as [<-|Hin]);
      try (apply ttt_owns_cells in Hown; simpl in Hown;
           destruct Hown as (Ha & Hb & Hc);
           injection Ha as ->; injection Hb as ->; injection Hc as ->;
           match goal with
           | H : forall p, ~ (BoardCell_of_player ?q = _ /\ _) |- _ =>
               solve [apply (H q); auto]
           end).
    destruct Hin.
Qed.


(** [apply_move] on a well-formed board, a cell of the board that is
    EMPTY: the call returns, the cell holds the mark of the mover and no
    other cell has changed. *)
Lemma ttt_apply_move_empty (b : cells) (p : PlayerType.t) (m : Move) :
  well_formed b ->
  0 <= row m < size -> 0 <= column m < size ->
  Py.cell_at b (Z.to_nat (row m)) (Z.to_nat (column m)) = Some BoardCell.EMPTY ->
  exists b',
    apply_move b p m = (b', Py.Ok tt)
    /\ well_formed b'
    /\ empties b = S (empties b')
    /\ forall i j,
         Py.cell_at b' i j
         = if decide (i = Z.to_nat (row m) /\ j = Z.to_nat (column m))
           then Some (BoardCell_of_player p) else Py.cell_at b i j.
Proof.
  intros Hwf Hr Hc Hcell.
  destruct (ttt_well_formed_cells b Hwf)
    as (a0 & a1 & a2 & a3 & a4 & a5 & a6 & a7 & a8 & ->).
  destruct m as [r c]. simpl in *.
  apply ttt_in_range in Hr, Hc.
  destruct Hr as [-> | [-> | ->]], Hc as [-> | [-> | ->]];
    simpl in Hcell; injection Hcell as ->;
    (eexists; split; [reflexivity|]; split; [apply ttt_cells_well_formed|]; split;
     [unfold empties; simpl; destruct p; simpl; lia
     |intros [|[|[|i]]] [|[|[|j]]]; reflexivity]).
Qed.




End TicTacToeRulesFacts.

(** ** TicTacToe: the turn engine with any two players *)

Section TicTacToeTurns.
Import TicTacToe TicTacToeRules.
Variables x_player o_player : Player.


Lemma replicate_middle {A} (n : nat) (x : A) (l : list A) :
  replicate n x ++ x :: l = x :: replicate n x ++ l.
Proof. induction n as [|n IH]; simpl; congruence. Qed.








(** A first answer that is a move onto an EMPTY cell is taken at once:
    one call, and the turn passes. *)
Lemma ttt_first_answer_taken (fuel : nat) (g : Game) (m : Move) :
  (1 <= fuel)%nat ->
  well_formed (board g) ->
  player_of x_player o_player (current_move g)
    (create_copy_for_player (board g) :: seen_by g (current_move g)) = Returned m ->
  0 <= row m < size -> 0 <= column m < size ->
  Py.cell_at (board g) (Z.to_nat (row m)) (Z.to_nat (column m)) = Some BoardCell.EMPTY ->
  exists g',
    _make_one_move x_player o_player fuel g = (g', Py.Ok tt)
    /\ apply_move (board g) (current_move g) m = (board g', Py.Ok tt)
    /\ seen_by g' (current_move g)
       = create_copy_for_player (board g) :: seen_by g (current_move g)
    /\ seen_by g' (PlayerType.inverse (current_move g))
       = seen_by g (PlayerType.inverse (current_move g))
    /\ current_move g' = PlayerType.inverse (current_move g)
    /\ winner g' = winner g.
Proof.
  intros Hfuel Hwf Ha Hr Hc Hcell.
  destruct (ttt_apply_move_empty (board g) (current_move g) m Hwf Hr Hc Hcell)
    as (b' & Happ & _).
  destruct fuel as [|fuel]; [lia|].
  unfold _make_one_move. cbn [tries].
  change (1 <? INCORRECT_MOVE_TRIES_LIMIT) with true. cbn match.
  unfold try_once. cbn [board current_move x_seen o_seen move_counter winner].
  destruct (current_move g) eqn:Hp; simpl in Ha; rewrite Ha;
    cbn [board current_move x_seen o_seen move_counter winner];
    rewrite Happ; eexists; (split; [reflexivity|]); simpl; auto 10.
Qed.

End TicTacToeTurns.

(** ** TicTacToe: the bot of the module's test game *)

Section TicTacToeStupidBot.
Import TicTacToe TicTacToeRules.

Lemma ttt_value_zero (c : BoardCell.t) :
  (BoardCell.value c =? 0) = bool_decide (c = BoardCell.EMPTY).
Proof. destruct c; reflexivity. Qed.

(** [StupidBot.move] on the copy of a well-formed board: the first EMPTY
    cell in the order of its loops, and None exactly on a full board. *)
Lemma ttt_stupid_bot_answer (b : cells) (seen : list (list (list Z))) :
  well_formed b ->
  match StupidBot (create_copy_for_player b :: seen) with
  | Returned m =>
      0 <= row m < size /\ 0 <= column m < size
      /\ Py.cell_at b (Z.to_nat (row m)) (Z.to_nat (column m)) = Some BoardCell.EMPTY
      /\ forall i j, before i j m -> Py.cell_at b i j <> Some BoardCell.EMPTY
  | ReturnedOther => full b
  | _ => False
  end.
Proof.
  intros Hwf.
  destruct (ttt_well_formed_cells b Hwf)
    as (a0 & a1 & a2 & a3 & a4 & a5 & a6 & a7 & a8 & ->).
  unfold StupidBot, before. change (Py.range size) with [0; 1; 2].
  cbn [first_zero_in_rows]. change (Py.range size) with [0; 1; 2]. simpl.
  repeat match goal with
  | |- context [BoardCell.value ?a =? 0] =>
      let E := fresh "E" in
      rewrite (ttt_value_zero a);
      destruct (bool_decide (a = BoardCell.EMPTY)) eqn:E;
        [apply bool_decide_eq_true in E; subst a; simpl;
         split; [unfold size; lia|]; split; [unfold size; lia|];
         split; [reflexivity|];
         intros [|[|[|i]]] [|[|[|j]]]; unfold size, Py.cell_at; intros [? ?]; simpl;
         first [lia | congruence]
        |apply bool_decide_eq_false in E; simpl]
  end.
  unfold full. repeat constructor; assumption.
Qed.

End TicTacToeStupidBot.

Section BattleFacts.
Import TicTacToe TicTacToeRules Battle.












End BattleFacts.

(** ** Kirzhanovsky: moves and rounds with any players *)

Section KirzhanovskyTurns.
Import Kirzhanovsky KirzhanovskyRules.

(** The body of the outer [try]: an int of the range is returned as it
    is; every other answer is an IncorrectMove. *)
Lemma kir_validate_cases (players_count : Z) (a : Response) :
  (exists n, validate players_count a = Py.Ok n
             /\ a = Returned (PyInt n) /\ 1 <= n <= players_count)
  \/ bad_answer players_count a.
Proof.
  unfold bad_answer, validate, checked_call.
  destruct a as [[n|q| |]| |]; cbn; eauto.
  - destruct (n <? 1) eqn:E1; [eauto|]. destruct (n >? players_count) eqn:E2; [eauto|].
    left. exists n. apply Z.ltb_ge in E1. rewrite Z.gtb_ltb in E2. apply Z.ltb_ge in E2.
    auto.
  - destruct (Qle_bool (inject_Z 1) q); cbn; [|eauto].
    destruct (Qle_bool q (inject_Z players_count)); cbn; eauto.
Qed.

(** The retry loop with [n] tries left, whoever plays: it returns the
    first answer that is an int of the range, or -1 after [n] refused
    answers; every call hands over a copy of the history. *)
Lemma kir_tries_cases (players_count : Z) (history : list (list Z)) (player : Player)
    (n : nat) :
  forall fuel seen,
    (n < fuel)%nat -> Z.of_nat n <= INCORRECT_MOVE_TRIES_LIMIT ->
    exists calls move,
      tries fuel players_count history player seen
        (INCORRECT_MOVE_TRIES_LIMIT - Z.of_nat n)
      = (replicate calls history ++ seen, Py.Ok move)
      /\ ((move = -1 /\ calls = n
           /\ forall k, (k < n)%nat ->
                bad_answer players_count (player (replicate (S k) history ++ seen)))
          \/ ((1 <= calls <= n)%nat /\ 1 <= move <= players_count
              /\ player (replicate calls history ++ seen) = Returned (PyInt move))).
Proof.
  induction n as [|n IH]; intros fuel seen Hfuel Hn.
  - destruct fuel as [|fuel]; [lia|]. cbn [tries].
    replace (_ <? _) with false by (symmetry; apply Z.ltb_ge; lia).
    exists 0%nat, (-1). split; [reflexivity|]. left. split; [reflexivity|].
    split; [reflexivity|]. intros k Hk. lia.
  - destruct fuel as [|fuel]; [lia|]. cbn [tries].
    replace (_ <? _) with true by (symmetry; apply Z.ltb_lt; lia).
    replace (INCORRECT_MOVE_TRIES_LIMIT - Z.of_nat (S n) + 1)
      with (INCORRECT_MOVE_TRIES_LIMIT - Z.of_nat n) by lia.
    destruct (kir_validate_cases players_count (player (history :: seen)))
      as [(m & Hv & Ha & Hm)|Hbad].
    + rewrite Hv. exists 1%nat, m. split; [reflexivity|]. right.
      split; [lia|]. split; [exact Hm|exact Ha].
    + destruct Hbad as [r Hr]. rewrite Hr.
      destruct (IH fuel (history :: seen)) as (calls & move & -> & Hcases); [lia|lia|].
      exists (S calls), move. split.
      { rewrite replicate_middle. reflexivity. }
      destruct Hcases as [(-> & -> & Hall)|(Hcalls & Hmove & Ha)].
      * left. split; [reflexivity|]. split; [reflexivity|].
        intros [|k] Hk.
        -- exists r. exact Hr.
        -- specialize (Hall k ltac:(lia)).
           rewrite replicate_middle in Hall. exact Hall.
      * right. split; [lia|]. split; [exact Hmove|].
        rewrite replicate_middle in Ha. exact Ha.
Qed.

(** [_safe_move], whoever plays: it returns after one to four calls, each
    with a copy of the history, and its value is the first answer that is
    an int of the range, or -1 when all four answers were refused. *)
Lemma kir_safe_move_cases (fuel : nat) (players_count : Z) (history : list (list Z))
    (player : Player) (seen : list (list (list Z))) :
  (Z.to_nat INCORRECT_MOVE_TRIES_LIMIT <= fuel)%nat ->
  exists calls move,
    _safe_move fuel players_count history player seen
    = (replicate calls history ++ seen, Py.Ok move)
    /\ (1 <= calls <= 4)%nat
    /\ ((move = -1 /\ calls = 4%nat
         /\ forall k, (k < 4)%nat ->
              bad_answer players_count (player (replicate (S k) history ++ seen)))
        \/ (1 <= move <= players_count
            /\ player (replicate calls history ++ seen) = Returned (PyInt move))).
Proof.
  intros Hfuel. unfold _safe_move.
  destruct (kir_tries_cases players_count history player 4 fuel seen)
    as (calls & move & Ht & Hcases);
    [unfold INCORRECT_MOVE_TRIES_LIMIT in *; lia|unfold INCORRECT_MOVE_TRIES_LIMIT; lia|].
  change (INCORRECT_MOVE_TRIES_LIMIT - Z.of_nat 4) with 1 in Ht.
  exists calls, move. split; [exact Ht|].
  destruct Hcases as [(-> & -> & Hall)|(Hcalls & Hmove & Ha)].
  - split; [lia|]. left. auto.
  - split; [lia|]. right. auto.
Qed.

(** The moves of a round, whoever plays: one recorded move per player. *)
Lemma kir_safe_moves_cases (fuel : nat) (players_count : Z) (history : list (list Z)) :
  (Z.to_nat INCORRECT_MOVE_TRIES_LIMIT <= fuel)%nat ->
  forall (players : list Player) (seens : list (list (list (list Z)))),
    length seens = length players ->
    exists seens' moves,
      safe_moves fuel players_count history players seens = (seens', Py.Ok moves)
      /\ length seens' = length players
      /\ length moves = length players
      /\ Forall (recorded_move players_count) moves.
Proof.
  intros Hfuel. induction players as [|player players IH]; intros seens Hlen.
  - destruct seens; [|discriminate]. exists [], []. simpl. auto.
  - destruct seens as [|s seens]; [discriminate|]. injection Hlen as Hlen.
    cbn [safe_moves].
    destruct (kir_safe_move_cases fuel players_count history player s Hfuel)
      as (calls & move & -> & _ & Hmove).
    destruct (IH seens Hlen) as (seens' & moves & -> & Hl1 & Hl2 & Hall).
    eexists. eexists. split; [reflexivity|]. simpl.
    split; [congruence|]. split; [congruence|].
    constructor; [|exact Hall].
    unfold recorded_move. destruct Hmove as [(-> & _)|(Hm & _)]; auto.
Qed.

(** [_make_one_move], whoever plays: the call returns and the history has
    one round more, of one recorded move per player. *)
Lemma kir_make_one_move_cases (fuel : nat) (players : list Player) (g : Game) :
  (Z.to_nat INCORRECT_MOVE_TRIES_LIMIT <= fuel)%nat ->
  length (seen g) = length players ->
  exists g' moves,
    _make_one_move fuel players g = (g', Py.Ok tt)
    /\ history g' = history g ++ [moves]
    /\ length moves = length players
    /\ Forall (recorded_move (Z.of_nat (length players))) moves
    /\ move_number g' = move_number g + 1
    /\ winner g' = winner g
    /\ length (seen g') = length players.
Proof.
  intros Hfuel Hlen. unfold _make_one_move.
  destruct (kir_safe_moves_cases fuel (Z.of_nat (length players)) (history g) Hfuel
              players (seen g) Hlen)
    as (seens' & moves & -> & Hl1 & Hl2 & Hall).
  eexists. exists moves. split; [reflexivity|]. simpl. auto 10.
Qed.

Lemma kir_rounds_of_snoc (n : nat) (h : list (list Z)) (moves : list Z) :
  rounds_of n h -> length moves = n -> Forall (recorded_move (Z.of_nat n)) moves ->
  rounds_of n (h ++ [moves]).
Proof.
  intros Hh Hl Hm. apply Forall_app. split; [exact Hh|].
  constructor; [auto|constructor].
Qed.

(** The first loop of [play] from a game at round [k]: it ends at round
    100, whoever plays. *)
Lemma kir_base_rounds_cases (tfuel : nat) (players : list Player) :
  (Z.to_nat INCORRECT_MOVE_TRIES_LIMIT <= tfuel)%nat ->
  forall (left fuel : nat) (g : Game),
    (left < fuel)%nat ->
    move_number g = ROUNDS_IN_GAME - Z.of_nat left ->
    length (seen g) = length players ->
    rounds_of (length players) (history g) ->
    exists g',
      base_rounds players tfuel fuel g = (g', Py.Ok tt)
      /\ move_number g' = ROUNDS_IN_GAME
      /\ length (history g') = (length (history g) + left)%nat
      /\ rounds_of (length players) (history g')
      /\ length (seen g') = length players
      /\ winner g' = winner g.
Proof.
  intros Ht. induction left as [|left IH]; intros fuel g Hfuel Hnum Hlen Hrounds.
  - destruct fuel as [|fuel]; [lia|]. cbn [base_rounds].
    replace (move_number g =? ROUNDS_IN_GAME) with true
      by (symmetry; apply Z.eqb_eq; lia).
    exists g. split; [reflexivity|]. split; [lia|]. split; [lia|]. auto.
  - destruct fuel as [|fuel]; [lia|]. cbn [base_rounds].
    replace (move_number g =? ROUNDS_IN_GAME) with false
      by (symmetry; apply Z.eqb_neq; lia).
    destruct (kir_make_one_move_cases tfuel players g Ht Hlen)
      as (g1 & moves & -> & Hh & Hl & Hm & Hn & Hw & Hs).
    destruct (IH fuel g1) as (g' & -> & Hn' & Hl' & Hr' & Hs' & Hw');
      [lia|lia|exact Hs|rewrite Hh; apply kir_rounds_of_snoc; assumption|].
    exists g'. split; [reflexivity|]. split; [exact Hn'|].
    split; [rewrite Hl', Hh, length_app; simpl; lia|]. split; [exact Hr'|].
    split; [exact Hs'|congruence].
Qed.

End KirzhanovskyTurns.

(** ** Kirzhanovsky: the winner of the game *)

Section KirzhanovskyWinner.
Import Kirzhanovsky KirzhanovskyRules.

Lemma kir_foldl_max (l : list Z) :
  forall x,
    x <= foldl Z.max x l
    /\ (forall y, y ∈ l -> y <= foldl Z.max x l)
    /\ (foldl Z.max x l = x \/ foldl Z.max x l ∈ l).
Proof.
  induction l as [|z l IH]; intros x; simpl.
  - split; [lia|]. split; [|auto]. intros y Hy. inversion Hy.
  - destruct (IH (Z.max x z)) as (H1 & H2 & H3). split; [lia|]. split.
    + intros y Hy. apply elem_of_cons in Hy as [->|Hy]; [lia|auto].
    + destruct H3 as [H3|H3].
      * rewrite H3. destruct (Z.max_spec x z) as [[_ ->]|[_ ->]].
        -- right. apply list_elem_of_here.
        -- left. reflexivity.
      * right. apply list_elem_of_further. exact H3.
Qed.

(** [max(scores)] of a list that is not empty: an element of the list
    that no element exceeds. *)
Lemma kir_py_max_spec (scores : list Z) :
  scores <> [] ->
  exists m, py_max scores = Py.Ok m
    /\ m ∈ scores /\ forall i s, scores !! i = Some s -> s <= m.
Proof.
  destruct scores as [|x l]; [contradiction|]. intros _. simpl.
  destruct (kir_foldl_max l x) as (H1 & H2 & H3).
  eexists. split; [reflexivity|]. split.
  - destruct H3 as [->|H3]; [apply list_elem_of_here|apply list_elem_of_further, H3].
  - intros [|i] s Hs; simpl in Hs.
    + injection Hs as <-. exact H1.
    + apply H2. eapply list_elem_of_lookup_2. exact Hs.
Qed.

(** The indices of the scores equal to [m], counted from [k]. *)
Lemma kir_best_from_cons (k : nat) (x : Z) (l : list Z) (m : Z) :
  fst <$> filter (fun p : nat * Z => snd p = m) (imap (fun i y => ((k + i)%nat, y)) (x :: l))
  = (if decide (x = m) then [k] else [])
    ++ (fst <$> filter (fun p : nat * Z => snd p = m)
                  (imap (fun i y => ((S k + i)%nat, y)) l)).
Proof.
  rewrite imap_cons.
  rewrite (imap_ext _ (fun i y => ((S k + i)%nat, y)) l)
    by (intros i y _; simpl; f_equal; lia).
  replace (k + 0)%nat with k by lia.
  destruct (decide (x = m)) as [->|Hne].
  - rewrite filter_cons_True by reflexivity. reflexivity.
  - rewrite filter_cons_False by exact Hne. reflexivity.
Qed.

Lemma kir_best_from_elem_of (l : list Z) (m : Z) :
  forall (k i : nat),
    i ∈ (fst <$> filter (fun p : nat * Z => snd p = m)
                   (imap (fun i y => ((k + i)%nat, y)) l))
    <-> (k <= i)%nat /\ l !! (i - k)%nat = Some m.
Proof.
  induction l as [|x l IH]; intros k i.
  - simpl. split; [intros H; inversion H|intros [_ H]; discriminate].
  - rewrite kir_best_from_cons, elem_of_app, IH.
    destruct (decide (x = m)) as [->|Hne].
    + rewrite list_elem_of_singleton. split.
      * intros [->|[Hk Hl]].
        -- split; [lia|]. replace (k - k)%nat with 0%nat by lia. reflexivity.
        -- split; [lia|]. replace (i - k)%nat with (S (i - S k)) by lia. exact Hl.
      * intros [Hk Hl]. destruct (decide (i = k)) as [->|Hik]; [auto|].
        right. split; [lia|].
        replace (i - k)%nat with (S (i - S k)) in Hl by lia. exact Hl.
    + split.
      * intros [H|[Hk Hl]]; [inversion H|].
        split; [lia|]. replace (i - k)%nat with (S (i - S k)) by lia. exact Hl.
      * intros [Hk Hl]. right.
        destruct (decide (i = k)) as [->|Hik].
        -- replace (k - k)%nat with 0%nat in Hl by lia. simpl in Hl. congruence.
        -- split; [lia|].
           replace (i - k)%nat with (S (i - S k)) in Hl by lia. exact Hl.
Qed.

Lemma kir_best_from_NoDup (l : list Z) (m : Z) :
  forall k : nat,
    NoDup (fst <$> filter (fun p : nat * Z => snd p = m)
                     (imap (fun i y => ((k + i)%nat, y)) l)).
Proof.
  induction l as [|x l IH]; intros k.
  - simpl. constructor.
  - rewrite kir_best_from_cons. destruct (decide (x = m)); cbn [app]; [|apply IH].
    constructor; [|apply IH]. rewrite kir_best_from_elem_of. lia.
Qed.

(** [best_players]: the indices of the scores equal to [max_score], each
    once. *)
Lemma kir_best_players_spec (scores : list Z) (max_score : Z) :
  NoDup (best_players scores max_score)
  /\ forall i, i ∈ best_players scores max_score <-> scores !! i = Some max_score.
Proof.
  unfold best_players. split.
  - apply (kir_best_from_NoDup scores max_score 0).
  - intros i. rewrite (kir_best_from_elem_of scores max_score 0 i).
    replace (i - 0)%nat with i by lia. split; [tauto|]. intros H. split; [lia|exact H].
Qed.

(** [_find_winner] on the history of a game of at least one player: the
    call returns True and names the winner exactly when one player alone
    has the highest score; otherwise it returns False and changes
    nothing. *)
Lemma kir_find_winner_cases (n : nat) (g : Game) :
  (0 < n)%nat ->
  Forall (fun round => length round = n) (history g) ->
  exists scores m,
    compute_scores n (history g) = Py.Ok scores
    /\ length scores = n
    /\ (forall i s, scores !! i = Some s -> s <= m)
    /\ ((exists best,
           _find_winner n g
           = ({| history := history g; move_number := move_number g;
                 winner := Some best; seen := seen g |}, Py.Ok true)
           /\ scores !! best = Some m
           /\ forall i s, i <> best -> scores !! i = Some s -> s < m)
        \/ (_find_winner n g = (g, Py.Ok false)
            /\ exists i j, i <> j /\ scores !! i = Some m /\ scores !! j = Some m)).
Proof.
  intros Hn Hrounds. unfold _find_winner.
  destruct (kir_compute_scores_total n (history g) Hrounds) as (scores & -> & Hlen).
  destruct (kir_py_max_spec scores) as (m & -> & Hin & Hmax).
  { intros ->. simpl in Hlen. lia. }
  exists scores, m. split; [reflexivity|]. split; [exact Hlen|]. split; [exact Hmax|].
  destruct (kir_best_players_spec scores m) as [Hnd Hbest].
  apply list_elem_of_lookup_1 in Hin as [i0 Hi0].
  destruct (best_players scores m) as [|best [|second rest]] eqn:Hb.
  - apply Hbest in Hi0. inversion Hi0.
  - left. exists best. split; [reflexivity|]. split.
    + apply Hbest. apply list_elem_of_here.
    + intros i s Hi Hs. pose proof (Hmax i s Hs) as Hle.
      destruct (decide (s = m)) as [->|Hne]; [|lia].
      apply Hbest in Hs. apply list_elem_of_singleton in Hs. contradiction.
  - right. split; [reflexivity|]. exists best, second. split.
    + intros ->. apply NoDup_cons in Hnd as [Hnotin _]. apply Hnotin, list_elem_of_here.
    + split; apply Hbest.
      * apply list_elem_of_here.
      * apply list_elem_of_further, list_elem_of_here.
Qed.

(** [_find_winner] of a game without players raises ValueError: [max] of
    an empty list. *)
Lemma kir_find_winner_no_players (g : Game) :
  Forall (fun round => length round = 0%nat) (history g) ->
  _find_winner 0 g = (g, Py.Raise ValueError).
Proof.
  intros Hrounds. unfold _find_winner.
  destruct (kir_compute_scores_total 0 (history g) Hrounds) as (scores & -> & Hlen).
  destruct scores; [reflexivity|discriminate].
Qed.

End KirzhanovskyWinner.

(** ** Kirzhanovsky: a game between copies of one player *)

Section KirzhanovskySamePlayers.
Import Kirzhanovsky KirzhanovskyRules.
Variable player : Player.

Lemma kir_safe_moves_same (fuel : nat) (players_count : Z) (history : list (list Z))
    (s : list (list (list Z))) :
  (Z.to_nat INCORRECT_MOVE_TRIES_LIMIT <= fuel)%nat ->
  exists s' move,
    forall k : nat,
      safe_moves fuel players_count history (replicate k player) (replicate k s)
      = (replicate k s', Py.Ok (replicate k move)).
Proof.
  intros Hfuel.
  destruct (kir_safe_move_cases fuel players_count history player s Hfuel)
    as (calls & move & Hmove & _).
  exists (replicate calls history ++ s), move.
  induction k as [|k IH]; [reflexivity|].
  cbn [replicate safe_moves]. rewrite Hmove, IH. reflexivity.
Qed.

Lemma kir_make_one_move_same (fuel n : nat) (g : Game) :
  (Z.to_nat INCORRECT_MOVE_TRIES_LIMIT <= fuel)%nat ->
  in_step n g ->
  exists g',
    _make_one_move fuel (replicate n player) g = (g', Py.Ok tt)
    /\ in_step n g'
    /\ move_number g' = move_number g + 1.
Proof.
  intros Hfuel [Hsame [s Hs]]. unfold _make_one_move. rewrite Hs.
  destruct (kir_safe_moves_same fuel (Z.of_nat (length (replicate n player)))
              (history g) s Hfuel) as (s' & move & Hmoves).
  rewrite Hmoves. eexists. split; [reflexivity|]. simpl.
  split; [|reflexivity]. split.
  - apply Forall_app. split; [exact Hsame|]. constructor; [eauto|constructor].
  - eauto.
Qed.

Lemma kir_count_replicate (n : nat) (move w : Z) :
  count w (replicate n move) = if decide (w = move) then n else 0%nat.
Proof.
  unfold count. induction n as [|n IH]; simpl.
  - destruct (decide (w = move)); reflexivity.
  - destruct (Z.eq_dec move w) as [->|Hne].
    + rewrite IH. rewrite !decide_True by reflexivity. reflexivity.
    + rewrite IH. rewrite !decide_False by congruence. reflexivity.
Qed.

(** A round in which two players or more have all played the same move
    gives no points. *)
Lemma kir_score_round_same (n : nat) (move : Z) (scores : list Z) :
  (2 <= n)%nat -> score_round scores (replicate n move) = Py.Ok scores.
Proof.
  intros Hn. unfold score_round.
  pose proof (kir_first_unique_round (replicate n move)) as H.
  destruct (first_unique _ _) as [[[player_id player_move]|]| |].
  - destruct H as (_ & Hc & _). rewrite kir_count_replicate in Hc.
    destruct (decide (player_move = move)); lia.
  - reflexivity.
  - contradiction.
  - contradiction.
Qed.

Lemma kir_score_rounds_same (n : nat) (h : list (list Z)) :
  (2 <= n)%nat -> same_moves n h ->
  forall scores, score_rounds scores h = Py.Ok scores.
Proof.
  intros Hn Hsame. induction Hsame as [|round h [move ->] _ IH]; intros scores.
  - reflexivity.
  - cbn [score_rounds]. rewrite (kir_score_round_same n move scores Hn).
    cbn [Py.bind]. apply IH.
Qed.

(** A game of two players or more that are in step has no winner. *)
Lemma kir_find_winner_same (n : nat) (g : Game) :
  (2 <= n)%nat -> in_step n g -> _find_winner n g = (g, Py.Ok false).
Proof.
  intros Hn [Hsame _].
  assert (Hrounds : Forall (fun round => length round = n) (history g)).
  { eapply Forall_impl; [exact Hsame|]. intros round [move ->].
    apply length_replicate. }
  destruct (kir_find_winner_cases n g ltac:(lia) Hrounds)
    as (scores & m & Hscores & Hlen & Hmax & [(best & _ & Hbest & Hless)|[Hf _]]);
    [|exact Hf].
  unfold compute_scores in Hscores.
  rewrite (kir_score_rounds_same n (history g) Hn Hsame) in Hscores.
  injection Hscores as <-.
  apply lookup_replicate in Hbest as [Hm Hb]. subst m. exfalso.
  destruct (decide (best = 0%nat)) as [->|Hne].
  - specialize (Hless 1%nat 0 ltac:(lia)).
    rewrite lookup_replicate_2 in Hless by lia. specialize (Hless eq_refl). lia.
  - specialize (Hless 0%nat 0 ltac:(lia)).
    rewrite lookup_replicate_2 in Hless by lia. specialize (Hless eq_refl). lia.
Qed.

(** The second loop of [play] between players in step is never left. *)
Lemma kir_extra_rounds_same (tfuel n : nat) :
  (Z.to_nat INCORRECT_MOVE_TRIES_LIMIT <= tfuel)%nat -> (2 <= n)%nat ->
  forall (fuel : nat) (g : Game),
    in_step n g ->
    snd (extra_rounds (replicate n player) tfuel fuel g) = Py.OutOfFuel.
Proof.
  intros Ht Hn. induction fuel as [|fuel IH]; intros g Hg; [reflexivity|].
  cbn [extra_rounds]. rewrite length_replicate.
  rewrite (kir_find_winner_same n g Hn Hg).
  destruct (kir_make_one_move_same tfuel n g Ht Hg) as (g' & -> & Hg' & _).
  apply IH. exact Hg'.
Qed.

(** The first loop of [play] keeps the players in step. *)
Lemma kir_base_rounds_same (tfuel n : nat) :
  (Z.to_nat INCORRECT_MOVE_TRIES_LIMIT <= tfuel)%nat ->
  forall (fuel : nat) (g : Game),
    in_step n g ->
    exists g' r,
      base_rounds (replicate n player) tfuel fuel g = (g', r)
      /\ (r = Py.OutOfFuel \/ (r = Py.Ok tt /\ in_step n g')).
Proof.
  intros Ht. induction fuel as [|fuel IH]; intros g Hg.
  - exists g, Py.OutOfFuel. auto.
  - cbn [base_rounds]. destruct (move_number g =? ROUNDS_IN_GAME).
    + exists g, (Py.Ok tt). auto.
    + destruct (kir_make_one_move_same tfuel n g Ht Hg) as (g1 & -> & Hg1 & _).
      apply IH. exact Hg1.
Qed.

Lemma kir_play_same (tfuel fuel n : nat) :
  (Z.to_nat INCORRECT_MOVE_TRIES_LIMIT <= tfuel)%nat -> (2 <= n)%nat ->
  play (replicate n player) tfuel fuel = Py.OutOfFuel.
Proof.
  intros Ht Hn. unfold play. rewrite length_replicate.
  destruct (kir_base_rounds_same tfuel n Ht fuel (_init_game n))
    as (g & r & -> & [->|[-> Hg]]).
  - split; [constructor|]. exists []. reflexivity.
  - reflexivity.
  - pose proof (kir_extra_rounds_same tfuel n Ht Hn fuel g Hg) as H.
    destruct (extra_rounds (replicate n player) tfuel fuel g) as [g' r].
    simpl in H. rewrite H. reflexivity.
Qed.

End KirzhanovskySamePlayers.

(** ** Reversi: the walks on a board of eight rows of eight cells *)

Section ReversiWalks.
Import Reversi ReversiRules.

Lemma rev_valid_range (x y : Z) :
  _is_valid_coordinates x y = true <-> 0 <= x < size /\ 0 <= y < size.
Proof.
  unfold _is_valid_coordinates. rewrite !andb_true_iff, !Z.leb_le, !Z.ltb_lt. tauto.
Qed.

(** On a well-formed board [self.board[x][y]] with valid coordinates
    reads the cell (x, y). *)
Lemma rev_get_valid (b : cells) (x y : Z) :
  well_formed b -> _is_valid_coordinates x y = true ->
  exists v, get b x y = Py.Ok v /\ cell b (x, y) = Some v.
Proof.
  intros [Hlen Hall] Hv. apply rev_valid_range in Hv as [Hx Hy].
  unfold get, Py.get2, Py.index, cell, Py.cell_at. simpl.
  rewrite position_in_range by (rewrite Hlen; unfold size in *; lia).
  destruct (b !! Z.to_nat x) as [line|] eqn:Hline.
  - assert (Hl : length line = Z.to_nat size).
    { rewrite Forall_lookup in Hall. eapply Hall. exact Hline. }
    rewrite position_in_range by (rewrite Hl; unfold size in *; lia).
    destruct (line !! Z.to_nat y) as [v|] eqn:Hcell; [eauto|].
    apply lookup_ge_None in Hcell. unfold size in *. lia.
  - apply lookup_ge_None in Hline. unfold size in *. lia.
Qed.


Lemma rev_ray_S (dx dy x y : Z) (k : nat) :
  ray dx dy x y (S k) = (x, y) :: ray dx dy (x + dx) (y + dy) k.
Proof.
  unfold ray. cbn [seq fmap list_fmap]. f_equal.
  - f_equal; lia.
  - rewrite <- fmap_S_seq, <- list_fmap_compose. apply list_fmap_ext.
    intros _ i _. simpl. f_equal; lia.
Qed.

Lemma rev_ray_elem_of (dx dy x y : Z) (k : nat) (place : Z * Z) :
  place ∈ ray dx dy x y k
  <-> exists i : nat, (i < k)%nat /\ place = (x + Z.of_nat i * dx, y + Z.of_nat i * dy).
Proof.
  unfold ray. rewrite list_elem_of_fmap. split.
  - intros (i & -> & Hi). apply elem_of_seq in Hi. exists i. split; [lia|reflexivity].
  - intros (i & Hi & ->). exists i. split; [reflexivity|]. apply elem_of_seq. lia.
Qed.

(** What a walk returns on a well-formed board: nothing, or what it was
    given and the cells from (x, y) up to a cell of the mover, none of
    them a cell of the mover. *)
Lemma rev_walk_run (b : cells) (board_cell : BoardCell.t) (dx dy : Z) :
  well_formed b ->
  forall (fuel : nat) (x y : Z) (run : list (Z * Z)),
    walk fuel b board_cell dx dy x y run = Py.OutOfFuel
    \/ walk fuel b board_cell dx dy x y run = Py.Ok []
    \/ exists k : nat,
         walk fuel b board_cell dx dy x y run = Py.Ok (run ++ ray dx dy x y k)
         /\ Forall (fun place => _is_valid_coordinates place.1 place.2 = true
                                 /\ exists v, cell b place = Some v /\ v <> board_cell)
              (ray dx dy x y k)
         /\ _is_valid_coordinates (x + Z.of_nat k * dx) (y + Z.of_nat k * dy) = true
         /\ cell b (x + Z.of_nat k * dx, y + Z.of_nat k * dy) = Some board_cell.
Proof.
  intros Hwf. induction fuel as [|fuel IH]; intros x y run; [left; reflexivity|].
  cbn [walk]. destruct (_is_valid_coordinates x y) eqn:Hv; [|right; left; reflexivity].
  destruct (rev_get_valid b x y Hwf Hv) as (v & Hg & Hc). rewrite Hg. cbn [Py.bind].
  destruct (BoardCell.eqb v board_cell) eqn:E.
  - apply rev_cell_eqb_eq in E. subst v. right. right. exists 0%nat.
    split; [unfold ray; simpl; rewrite app_nil_r; reflexivity|].
    split; [constructor|]. replace (x + Z.of_nat 0 * dx) with x by lia.
    replace (y + Z.of_nat 0 * dy) with y by lia. auto.
  - destruct (IH (x + dx) (y + dy) (run ++ [(x, y)])) as [H|[H|(k & H & Hall & Hvk & Hck)]].
    + left. exact H.
    + right. left. exact H.
    + right. right. exists (S k). rewrite rev_ray_S. split.
      * rewrite H, <- app_assoc. reflexivity.
      * split.
        -- constructor; [|exact Hall]. split; [exact Hv|]. exists v. split; [exact Hc|].
           intros ->. destruct board_cell; discriminate.
        -- replace (x + Z.of_nat (S k) * dx) with (x + dx + Z.of_nat k * dx) by lia.
           replace (y + Z.of_nat (S k) * dy) with (y + dy + Z.of_nat k * dy) by lia.
           auto.
Qed.

(** A place at [j] steps from (row, column) in a direction is a place of
    the board only through the first component of this pair. *)
Lemma rev_direction_cases (dx dy : Z) :
  In (dx, dy) directions ->
  (dx = 0 \/ dx = 1 \/ dx = -1) /\ (dy = 0 \/ dy = 1 \/ dy = -1)
  /\ (dx <> 0 \/ dy <> 0).
Proof.
  unfold directions. simpl. intros H.
  repeat (destruct H as [H|H]; [injection H as <- <-; lia|]). destruct H.
Qed.






(** One direction of [_get_flipped_cells_for_move] on a well-formed
    board: nothing, or the cells next to (row, column) up to a cell of
    the mover, none of them a cell of the mover and the first not
    EMPTY. *)
Lemma rev_flipped_in_cases (b : cells) (board_cell : BoardCell.t)
    (row column dx dy : Z) :
  well_formed b -> In (dx, dy) directions ->
  exists k : nat,
    flipped_in b row column board_cell (dx, dy)
    = Py.Ok (ray dx dy (row + dx) (column + dy) k)
    /\ Forall (turnable b board_cell) (ray dx dy (row + dx) (column + dy) k).
Proof.
  intros Hwf Hd.
  pose proof (rev_flipped_in_ends b row column board_cell (dx, dy) Hd) as Hends.
  unfold flipped_in in *.
  destruct (_is_valid_coordinates (row + dx) (column + dy)) eqn:Hv; cbn [negb] in *;
    [|exists 0%nat; split; [reflexivity|constructor]].
  destruct (rev_get_valid b _ _ Hwf Hv) as (v & Hg & Hc). rewrite Hg in *.
  cbn [Py.bind] in *.
  destruct (BoardCell.eqb v BoardCell.EMPTY || BoardCell.eqb v board_cell);
    [exists 0%nat; split; [reflexivity|constructor]|].
  destruct (rev_walk_run b board_cell dx dy Hwf walk_fuel (row + dx) (column + dy) [])
    as [H|[H|(k & H & Hall & _)]].
  - contradiction.
  - exists 0%nat. split; [exact H|constructor].
  - exists k. split; [exact H|exact Hall].
Qed.

Lemma rev_ray_on_ray (row column dx dy : Z) (k : nat) :
  In (dx, dy) directions ->
  Forall (on_ray row column (dx, dy)) (ray dx dy (row + dx) (column + dy) k).
Proof.
  intros Hd. apply Forall_forall. intros place Hin.
  apply rev_ray_elem_of in Hin as (i & _ & ->).
  split; [exact Hd|]. exists (S i). split; [lia|]. simpl. f_equal; lia.
Qed.

Lemma rev_ray_NoDup (dx dy x y : Z) (k : nat) :
  In (dx, dy) directions -> NoDup (ray dx dy x y k).
Proof.
  intros Hd. apply rev_direction_cases in Hd as (_ & _ & Hnz).
  unfold ray. apply NoDup_fmap_2_strong; [|apply NoDup_seq].
  intros i j _ _ H. injection H as H1 H2. nia.
Qed.

(** A place is on the ray of one direction only. *)
Lemma rev_on_ray_direction (row column : Z) (d d' : Z * Z) (place : Z * Z) :
  on_ray row column d place -> on_ray row column d' place -> d = d'.
Proof.
  intros [Hd (j & Hj & ->)] [Hd' (j' & Hj' & H)].
  destruct d as [dx dy], d' as [dx' dy']. simpl in *. injection H as H1 H2.
  apply rev_direction_cases in Hd as (Hx & Hy & _).
  apply rev_direction_cases in Hd' as (Hx' & Hy' & _).
  f_equal; nia.
Qed.


(** [_get_flipped_cells_for_move] on a well-formed board, direction by
    direction. *)
Lemma rev_flipped_over_parts (b : cells) (board_cell : BoardCell.t) (row column : Z) :
  well_formed b ->
  forall (ds : list (Z * Z)) (acc : list (Z * Z)),
    (forall d, In d ds -> In d directions) ->
    exists parts,
      flipped_over b row column board_cell ds acc = Py.Ok (acc ++ concat parts)
      /\ Forall2 (fun d part =>
                    flipped_in b row column board_cell d = Py.Ok part
                    /\ NoDup part
                    /\ Forall (on_ray row column d) part
                    /\ Forall (turnable b board_cell) part) ds parts.
Proof.
  intros Hwf. induction ds as [|[dx dy] ds IH]; intros acc Hds.
  - exists []. simpl. rewrite app_nil_r. split; [reflexivity|constructor].
  - assert (Hd : In (dx, dy) directions) by (apply Hds; left; reflexivity).
    destruct (rev_flipped_in_cases b board_cell row column dx dy Hwf Hd) as (k & Hk & Hall).
    cbn [flipped_over]. rewrite Hk. cbn [Py.bind].
    destruct (IH (acc ++ ray dx dy (row + dx) (column + dy) k)) as (parts & Hp & Hparts).
    { intros d' Hd'. apply Hds. right. exact Hd'. }
    exists (ray dx dy (row + dx) (column + dy) k :: parts). split.
    + rewrite Hp. simpl. rewrite <- app_assoc. reflexivity.
    + constructor; [|exact Hparts].
      split; [exact Hk|]. split; [apply rev_ray_NoDup; exact Hd|].
      split; [apply rev_ray_on_ray; exact Hd|exact Hall].
Qed.

Lemma rev_parts_NoDup (row column : Z) (ds : list (Z * Z)) (parts : list (list (Z * Z))) :
  NoDup ds ->
  Forall2 (fun d part => NoDup part /\ Forall (on_ray row column d) part) ds parts ->
  NoDup (concat parts)
  /\ forall place, place ∈ concat parts -> exists d, d ∈ ds /\ on_ray row column d place.
Proof.
  intros Hnd Hparts. induction Hparts as [|d part ds parts [Hpart Hon] _ IH].
  - simpl. split; [constructor|]. intros place H. inversion H.
  - apply NoDup_cons in Hnd as [Hd Hnd]. destruct (IH Hnd) as [IH1 IH2].
    rewrite Forall_forall in Hon. simpl. split.
    + apply NoDup_app. split; [exact Hpart|]. split; [|exact IH1].
      intros place Hin Hin'. destruct (IH2 place Hin') as (d' & Hd' & Hon').
      assert (d = d') by (eapply rev_on_ray_direction; eauto). subst d'. contradiction.
    + intros place Hin. apply elem_of_app in Hin as [Hin|Hin].
      * exists d. split; [apply list_elem_of_here|auto].
      * destruct (IH2 place Hin) as (d' & Hd' & Hon').
        exists d'. split; [apply list_elem_of_further; exact Hd'|exact Hon'].
Qed.

Lemma rev_directions_NoDup : NoDup directions.
Proof. apply (bool_decide_unpack _). vm_compute. exact I. Qed.

(** [_get_flipped_cells_for_move] on a well-formed board: it returns; no
    cell is listed twice; every cell listed is a cell of the board in one
    of the eight directions from (row, column), and none is a cell of the
    mover. *)
Lemma rev_get_flipped_cases (b : cells) (board_cell : BoardCell.t) (row column : Z) :
  well_formed b ->
  exists flipped,
    _get_flipped_cells_for_move b row column board_cell = Py.Ok flipped
    /\ NoDup flipped
    /\ Forall (turnable b board_cell) flipped
    /\ Forall (fun place => exists d, on_ray row column d place) flipped.
Proof.
  intros Hwf. unfold _get_flipped_cells_for_move.
  destruct (rev_flipped_over_parts b board_cell row column Hwf directions [])
    as (parts & Hp & Hparts); [auto|].
  exists (concat parts). split; [exact Hp|].
  destruct (rev_parts_NoDup row column directions parts rev_directions_NoDup) as [Hnd Hon].
  { eapply Forall2_impl; [exact Hparts|]. simpl. tauto. }
  split; [exact Hnd|]. split.
  - apply Forall_concat. eapply Forall2_Forall_r; [exact Hparts|].
    apply Forall_forall. intros d _ part H. apply H.
  - apply Forall_forall. intros place Hin.
    destruct (Hon place Hin) as (d & _ & Hd). eauto.
Qed.

End ReversiWalks.

(** ** Reversi: a move on a board of eight rows of eight cells *)

Section ReversiMoves.
Import Reversi ReversiRules.






End ReversiMoves.

(** ** Reversi: the walks of the code and the rule of the game *)

Section ReversiRule.
Import Reversi ReversiRules.

(** A walk of the code against the run of the rule: they agree, and then
    the walk has crossed no EMPTY cell, or the rule gives nothing and the
    walk has listed an EMPTY cell. *)
Lemma rev_walk_spec_run (b : cells) (board_cell : BoardCell.t) (dx dy : Z) :
  well_formed b ->
  forall (fuel : nat) (x y : Z) (run flipped : list (Z * Z)),
    walk fuel b board_cell dx dy x y run = Py.Ok flipped ->
    (spec_run fuel b board_cell dx dy x y run = flipped
     /\ (Forall (holds_disc b) run -> Forall (holds_disc b) flipped))
    \/ (spec_run fuel b board_cell dx dy x y run = []
        /\ exists place, place ∈ flipped /\ cell b place = Some BoardCell.EMPTY).
Proof.
  intros Hwf. induction fuel as [|fuel IH]; intros x y run flipped Hwalk; [discriminate|].
  cbn [walk spec_run] in *.
  destruct (_is_valid_coordinates x y) eqn:Hv.
  - destruct (rev_get_valid b x y Hwf Hv) as (v & Hg & Hc). rewrite Hg in *.
    cbn [Py.bind] in Hwalk.
    destruct (BoardCell.eqb v board_cell) eqn:E.
    + injection Hwalk as <-. left. auto.
    + destruct (BoardCell.eqb v BoardCell.EMPTY) eqn:E0.
      * apply rev_cell_eqb_eq in E0. subst v.
        destruct (rev_walk_run b board_cell dx dy Hwf fuel (x + dx) (y + dy)
                    (run ++ [(x, y)])) as [H|[H|(k & H & _)]];
          rewrite H in Hwalk; [discriminate| |]; injection Hwalk as <-.
        -- left. split; [reflexivity|]. intros _. constructor.
        -- right. split; [reflexivity|]. exists (x, y). split; [|exact Hc].
           rewrite !elem_of_app, list_elem_of_singleton. auto.
      * destruct (IH _ _ _ _ Hwalk) as [[Hs Hall]|Hgap]; [|right; exact Hgap].
        left. split; [exact Hs|]. intros Hrun. apply Hall.
        apply Forall_app. split; [exact Hrun|]. constructor; [|constructor].
        unfold holds_disc. rewrite Hc. intros H. injection H as ->. discriminate E0.
  - injection Hwalk as <-. left. split; [reflexivity|]. intros _. constructor.
Qed.

Lemma rev_flipped_in_spec_run (b : cells) (board_cell : BoardCell.t)
    (row column dx dy : Z) (part : list (Z * Z)) :
  well_formed b ->
  flipped_in b row column board_cell (dx, dy) = Py.Ok part ->
  (spec_run walk_fuel b board_cell dx dy (row + dx) (column + dy) [] = part
   /\ Forall (holds_disc b) part)
  \/ (spec_run walk_fuel b board_cell dx dy (row + dx) (column + dy) [] = []
      /\ exists place, place ∈ part /\ cell b place = Some BoardCell.EMPTY).
Proof.
  intros Hwf Hpart. unfold flipped_in in Hpart.
  change walk_fuel with (S (Z.to_nat size)) in *. cbn [spec_run].
  destruct (_is_valid_coordinates (row + dx) (column + dy)) eqn:Hv; cbn [negb] in Hpart.
  - destruct (rev_get_valid b _ _ Hwf Hv) as (v & Hg & Hc). rewrite Hg in *.
    cbn [Py.bind] in Hpart.
    destruct (BoardCell.eqb v board_cell) eqn:E.
    + rewrite orb_true_r in Hpart. injection Hpart as <-. left. split; constructor.
    + rewrite orb_false_r in Hpart.
      destruct (BoardCell.eqb v BoardCell.EMPTY) eqn:E0.
      * injection Hpart as <-. left. split; constructor.
      * pose proof (rev_walk_spec_run b board_cell dx dy Hwf _ _ _ _ _ Hpart) as H.
        cbn [spec_run] in H. rewrite Hv, Hg, E, E0 in H.
        destruct H as [[Hs Hall]|Hgap]; [left|right; exact Hgap].
        split; [exact Hs|]. apply Hall. constructor.
  - injection Hpart as <-. left. split; constructor.
Qed.

Lemma rev_parts_spec (b : cells) (board_cell : BoardCell.t) (row column : Z)
    (ds : list (Z * Z)) (parts : list (list (Z * Z))) :
  well_formed b ->
  Forall2 (fun d part => flipped_in b row column board_cell d = Py.Ok part) ds parts ->
  flat_map (fun d => spec_run walk_fuel b board_cell d.1 d.2
                       (row + d.1) (column + d.2) []) ds
    `sublist_of` concat parts
  /\ (flat_map (fun d => spec_run walk_fuel b board_cell d.1 d.2
                           (row + d.1) (column + d.2) []) ds
      = concat parts
      <-> Forall (holds_disc b) (concat parts)).
Proof.
  intros Hwf Hparts. induction Hparts as [|[dx dy] part ds parts Hpart _ IH].
  - split; [constructor|]. split; [constructor|reflexivity].
  - destruct IH as [IH1 IH2]. cbn [flat_map concat fst snd].
    destruct (rev_flipped_in_spec_run b board_cell row column dx dy part Hwf Hpart)
      as [[-> Hall]|[-> (place & Hin & Hempty)]].
    + split; [apply sublist_app; [reflexivity|exact IH1]|].
      rewrite Forall_app. split.
      * intros H. apply app_inv_head in H. split; [exact Hall|]. apply IH2. exact H.
      * intros [_ H]. f_equal. apply IH2. exact H.
    + split; [apply sublist_inserts_l; exact IH1|]. split.
      * intros H. apply (f_equal length) in H. cbn [app] in H. rewrite length_app in H.
        apply sublist_length in IH1.
        exfalso. destruct part as [|q part]; [inversion Hin|]. cbn [length] in H. lia.
      * intros H. apply Forall_app in H as [H _].
        rewrite Forall_forall in H. destruct (H place Hin Hempty).
Qed.

(** The cells the code lists for a move against the cells the rule of
    the game turns: the rule's are among the code's, in the same order,
    and the two lists are the same exactly when the code lists no EMPTY
    cell. *)
Lemma rev_get_flipped_spec (b : cells) (board_cell : BoardCell.t) (row column : Z) :
  well_formed b ->
  exists flipped,
    _get_flipped_cells_for_move b row column board_cell = Py.Ok flipped
    /\ spec_flipped b row column board_cell `sublist_of` flipped
    /\ (spec_flipped b row column board_cell = flipped
        <-> Forall (holds_disc b) flipped).
Proof.
  intros Hwf. unfold _get_flipped_cells_for_move, spec_flipped.
  destruct (rev_flipped_over_parts b board_cell row column Hwf directions [])
    as (parts & -> & Hparts); [auto|].
  exists (concat parts). split; [reflexivity|].
  apply rev_parts_spec; [exact Hwf|].
  eapply Forall2_impl; [exact Hparts|]. intros d part H. apply H.
Qed.

End ReversiRule.

(** ** Reversi: who can move, and who has won *)

Section ReversiSearch.
Import Reversi ReversiRules.

Lemma rev_range_elem_of (n x : Z) : x ∈ Py.range n <-> 0 <= x < n.
Proof.
  unfold Py.range. rewrite list_elem_of_fmap. split.
  - intros (i & -> & Hi). apply elem_of_seq in Hi. lia.
  - intros H. exists (Z.to_nat x). split; [lia|]. apply elem_of_seq. lia.
Qed.

(** [_is_valid_move] on a well-formed board says whether the code lists a
    cell for the move. *)
Lemma rev_is_valid_move_cases (b : cells) (board_cell : BoardCell.t) (row column : Z) :
  well_formed b ->
  exists flipped,
    _get_flipped_cells_for_move b row column board_cell = Py.Ok flipped
    /\ _is_valid_move b row column board_cell = Py.Ok (bool_decide (flipped <> [])).
Proof.
  intros Hwf.
  destruct (rev_get_flipped_cases b board_cell row column Hwf) as (flipped & Hf & _).
  exists flipped. split; [exact Hf|]. unfold _is_valid_move. rewrite Hf. cbn [Py.bind].
  f_equal. destruct flipped; reflexivity.
Qed.

(** The inner loop of [has_player_correct_move]. *)
Lemma rev_correct_move_in_columns (b : cells) (board_cell : BoardCell.t) (row : Z) :
  well_formed b -> 0 <= row < size ->
  forall cols : list Z,
    Forall (fun column => 0 <= column < size) cols ->
    exists found,
      correct_move_in_columns b board_cell row cols = Py.Ok found
      /\ (found = true <-> exists column, column ∈ cols /\ takes b board_cell row column).
Proof.
  intros Hwf Hrow. induction cols as [|column cols IH]; intros Hall.
  - exists false. split; [reflexivity|]. split; [discriminate|].
    intros (column & H & _). inversion H.
  - apply Forall_cons in Hall as [Hcol Hall]. destruct (IH Hall) as (found & Hfound & Hiff).
    assert (Hv : _is_valid_coordinates row column = true) by (apply rev_valid_range; auto).
    destruct (rev_get_valid b row column Hwf Hv) as (v & Hg & Hc).
    destruct (rev_is_valid_move_cases b board_cell row column Hwf) as (flipped & Hf & Hok).
    cbn [correct_move_in_columns]. rewrite Hg. cbn [Py.bind].
    assert (Hrest : (exists column', column' ∈ column :: cols
                                     /\ takes b board_cell row column')
                    <-> takes b board_cell row column
                        \/ exists column', column' ∈ cols /\ takes b board_cell row column').
    { split.
      - intros (c' & Hin & Ht). apply elem_of_cons in Hin as [->|Hin]; eauto.
      - intros [Ht|(c' & Hin & Ht)].
        + exists column. split; [apply list_elem_of_here|exact Ht].
        + exists c'. split; [apply list_elem_of_further; exact Hin|exact Ht]. }
    destruct (BoardCell.eqb v BoardCell.EMPTY) eqn:E; cbn [negb].
    + apply rev_cell_eqb_eq in E. subst v. rewrite Hok. cbn [Py.bind].
      destruct (bool_decide (flipped <> [])) eqn:Hb.
      * apply bool_decide_eq_true in Hb. exists true. split; [reflexivity|].
        split; [intros _|reflexivity]. apply Hrest. left. unfold takes. eauto 10.
      * apply bool_decide_eq_false in Hb. exists found. split; [exact Hfound|].
        rewrite Hrest, Hiff. split; [auto|]. intros [(_ & _ & fl & Hfl & Hne)|H]; [|exact H].
        rewrite Hf in Hfl. injection Hfl as <-. contradiction.
    + exists found. split; [exact Hfound|]. rewrite Hrest, Hiff. split; [auto|].
      intros [(_ & Hcell & _)|H]; [|exact H].
      rewrite Hc in Hcell. injection Hcell as ->. discriminate E.
Qed.

(** The outer loop of [has_player_correct_move]. *)
Lemma rev_correct_move_in_rows (b : cells) (board_cell : BoardCell.t) :
  well_formed b ->
  forall rows : list Z,
    Forall (fun row => 0 <= row < size) rows ->
    exists found,
      correct_move_in_rows b board_cell rows = Py.Ok found
      /\ (found = true
          <-> exists row column, row ∈ rows /\ takes b board_cell row column).
Proof.
  intros Hwf. induction rows as [|row rows IH]; intros Hall.
  - exists false. split; [reflexivity|]. split; [discriminate|].
    intros (row & column & H & _). inversion H.
  - apply Forall_cons in Hall as [Hrow Hall]. destruct (IH Hall) as (found & Hfound & Hiff).
    destruct (rev_correct_move_in_columns b board_cell row Hwf Hrow (Py.range size))
      as (found0 & Hfound0 & Hiff0).
    { apply Forall_forall. intros c Hc. apply rev_range_elem_of. exact Hc. }
    cbn [correct_move_in_rows]. rewrite Hfound0. cbn [Py.bind].
    destruct found0.
    + exists true. split; [reflexivity|]. split; [intros _|reflexivity].
      destruct (proj1 Hiff0 eq_refl) as (column & _ & Ht).
      exists row, column. split; [apply list_elem_of_here|exact Ht].
    + exists found. split; [exact Hfound|]. rewrite Hiff. split.
      * intros (r & c & Hin & Ht). exists r, c.
        split; [apply list_elem_of_further; exact Hin|exact Ht].
      * intros (r & c & Hin & Ht). apply elem_of_cons in Hin as [->|Hin]; [|eauto].
        assert (false = true); [|discriminate]. apply Hiff0. exists c.
        split; [|exact Ht]. apply rev_range_elem_of.
        destruct Ht as (Hv & _). apply rev_valid_range in Hv. tauto.
Qed.

(** [has_player_correct_move] on a well-formed board: True exactly when
    there is an EMPTY cell for which the code lists a cell to turn. *)
Lemma rev_has_player_correct_move_cases (b : cells) (p : PlayerType.t) :
  well_formed b ->
  exists found,
    has_player_correct_move b p = Py.Ok found
    /\ (found = true
        <-> exists row column, takes b (BoardCell_of_player p) row column).
Proof.
  intros Hwf. unfold has_player_correct_move.
  destruct (rev_correct_move_in_rows b (BoardCell_of_player p) Hwf (Py.range size))
    as (found & Hfound & Hiff).
  { apply Forall_forall. intros r Hr. apply rev_range_elem_of. exact Hr. }
  exists found. split; [exact Hfound|]. rewrite Hiff. split.
  - intros (r & c & _ & Ht). eauto.
  - intros (r & c & Ht). exists r, c. split; [|exact Ht].
    apply rev_range_elem_of. destruct Ht as (Hv & _). apply rev_valid_range in Hv. tauto.
Qed.

(** [get_winner] on a well-formed board: it returns; False exactly when
    a player can take a cell; otherwise the player with more discs, or
    DRAW. *)
Lemma rev_get_winner_cases (b : cells) :
  well_formed b ->
  exists r,
    get_winner b = Py.Ok r
    /\ (r = None
        <-> exists p row column, takes b (BoardCell_of_player p) row column)
    /\ (r = Some Winner.BLACK
        -> count_cells b BoardCell.BLACK > count_cells b BoardCell.WHITE)
    /\ (r = Some Winner.WHITE
        -> count_cells b BoardCell.WHITE > count_cells b BoardCell.BLACK)
    /\ (r = Some Winner.DRAW
        -> count_cells b BoardCell.BLACK = count_cells b BoardCell.WHITE).
Proof.
  intros Hwf. unfold get_winner, has_anybody_correct_move.
  destruct (rev_has_player_correct_move_cases b PlayerType.BLACK Hwf) as (fb & -> & Hb).
  destruct (rev_has_player_correct_move_cases b PlayerType.WHITE Hwf) as (fw & Hw' & Hw).
  cbn [Py.bind].
  assert (Hany : (exists p row column, takes b (BoardCell_of_player p) row column)
                 <-> fb = true \/ fw = true).
  { rewrite Hb, Hw. split.
    - intros ([] & r & c & Ht); eauto.
    - intros [(r & c & Ht)|(r & c & Ht)]; eauto. }
  destruct fb; cbn [Py.bind].
  - exists None. split; [reflexivity|]. rewrite Hany.
    split; [split; [intros _; auto|reflexivity]|]. split; [|split]; discriminate.
  - rewrite Hw'. cbn [Py.bind]. destruct fw.
    + exists None. split; [reflexivity|]. rewrite Hany.
      split; [split; [intros _; auto|reflexivity]|]. split; [|split]; discriminate.
    + destruct (count_cells b BoardCell.BLACK >? count_cells b BoardCell.WHITE) eqn:E1.
      * eexists. split; [reflexivity|]. rewrite Hany. rewrite Z.gtb_ltb in E1.
        apply Z.ltb_lt in E1.
        split; [split; [discriminate|intros [H|H]; discriminate]|].
        split; [|split]; intros H; try discriminate H; lia.
      * rewrite Z.gtb_ltb in E1. apply Z.ltb_ge in E1.
        destruct (count_cells b BoardCell.WHITE >? count_cells b BoardCell.BLACK) eqn:E2;
          rewrite Z.gtb_ltb in E2.
        -- apply Z.ltb_lt in E2. eexists. split; [reflexivity|]. rewrite Hany.
           split; [split; [discriminate|intros [H|H]; discriminate]|].
           split; [|split]; intros H; try discriminate H; lia.
        -- apply Z.ltb_ge in E2. eexists. split; [reflexivity|]. rewrite Hany.
           split; [split; [discriminate|intros [H|H]; discriminate]|].
           split; [|split]; intros H; try discriminate H; lia.
Qed.

(** The inner loop of [is_full]. *)
Lemma rev_is_full_columns (b : cells) (row : Z) :
  well_formed b -> 0 <= row < size ->
  forall cols : list Z,
    Forall (fun column => 0 <= column < size) cols ->
    exists full,
      is_full_columns b row cols = Py.Ok full
      /\ (full = true <-> forall column, column ∈ cols -> holds_disc b (row, column)).
Proof.
  intros Hwf Hrow. induction cols as [|column cols IH]; intros Hall.
  - exists true. split; [reflexivity|]. split; [|reflexivity].
    intros _ column H. inversion H.
  - apply Forall_cons in Hall as [Hcol Hall]. destruct (IH Hall) as (full & Hfull & Hiff).
    assert (Hv : _is_valid_coordinates row column = true) by (apply rev_valid_range; auto).
    destruct (rev_get_valid b row column Hwf Hv) as (v & Hg & Hc).
    cbn [is_full_columns]. rewrite Hg. cbn [Py.bind].
    destruct (BoardCell.eqb v BoardCell.EMPTY) eqn:E.
    + apply rev_cell_eqb_eq in E. subst v. exists false. split; [reflexivity|].
      split; [discriminate|]. intros H. destruct (H column (list_elem_of_here _ _) Hc).
    + exists full. split; [exact Hfull|]. rewrite Hiff. split.
      * intros H c' Hin. apply elem_of_cons in Hin as [->|Hin]; [|auto].
        unfold holds_disc. rewrite Hc. intros H'. injection H' as ->. discriminate E.
      * intros H c' Hin. apply H. apply list_elem_of_further. exact Hin.
Qed.

Lemma rev_is_full_rows (b : cells) :
  well_formed b ->
  forall rows : list Z,
    Forall (fun row => 0 <= row < size) rows ->
    exists full,
      is_full_rows b rows = Py.Ok full
      /\ (full = true
          <-> forall row column, row ∈ rows -> 0 <= column < size ->
                holds_disc b (row, column)).
Proof.
  intros Hwf. induction rows as [|row rows IH]; intros Hall.
  - exists true. split; [reflexivity|]. split; [|reflexivity].
    intros _ row column H. inversion H.
  - apply Forall_cons in Hall as [Hrow Hall]. destruct (IH Hall) as (full & Hfull & Hiff).
    destruct (rev_is_full_columns b row Hwf Hrow (Py.range size)) as (full0 & Hfull0 & Hiff0).
    { apply Forall_forall. intros c Hc. apply rev_range_elem_of. exact Hc. }
    cbn [is_full_rows]. rewrite Hfull0. cbn [Py.bind]. destruct full0.
    + exists full. split; [exact Hfull|]. rewrite Hiff. split.
      * intros H r c Hin Hc. apply elem_of_cons in Hin as [->|Hin]; [|auto].
        apply (proj1 Hiff0 eq_refl). apply rev_range_elem_of. exact Hc.
      * intros H r c Hin Hc. apply H; [apply list_elem_of_further; exact Hin|exact Hc].
    + exists false. split; [reflexivity|]. split; [discriminate|]. intros H.
      apply Hiff0. intros c Hc. apply H; [apply list_elem_of_here|].
      apply rev_range_elem_of. exact Hc.
Qed.

(** [is_full] on a well-formed board: it returns, and returns True
    exactly when no cell of the board is EMPTY. *)
Lemma rev_is_full_cases (b : cells) :
  well_formed b ->
  exists full,
    is_full b = Py.Ok full
    /\ (full = true
        <-> forall row column, _is_valid_coordinates row column = true ->
              holds_disc b (row, column)).
Proof.
  intros Hwf. unfold is_full.
  destruct (rev_is_full_rows b Hwf (Py.range size)) as (full & Hfull & Hiff).
  { apply Forall_forall. intros r Hr. apply rev_range_elem_of. exact Hr. }
  exists full. split; [exact Hfull|]. rewrite Hiff. split.
  - intros H r c Hv. apply rev_valid_range in Hv as [Hr Hc].
    apply H; [apply rev_range_elem_of; exact Hr|exact Hc].
  - intros H r c Hr Hc. apply H. apply rev_valid_range. apply rev_range_elem_of in Hr. auto.
Qed.

End ReversiSearch.

(** ** Reversi: the turn engine with any two players *)

Section ReversiTurnsFacts.
Import Reversi ReversiRules ReversiTurns.







End ReversiTurnsFacts.

Section ReversiEngineFacts.
Import Reversi ReversiRules ReversiTurns.
Variables black_player white_player : Player.











End ReversiEngineFacts.

(** * More of the code: TicTacToe and its tournament *)

Section TicTacToeCoverage.
Import TicTacToe TicTacToeRules.



(** X2. [GameBoard.is_full] of TicTacToe on a board of three rows of three
    cells returns, and returns True exactly when no cell is EMPTY. *)
Theorem tictactoe_is_full_means_no_empty_cell (b : cells) :
  well_formed b ->
  exists full_or_not,
    is_full b = Py.Ok full_or_not
    /\ (full_or_not = true <-> forall i j c, Py.cell_at b i j = Some c -> c <> BoardCell.EMPTY).
Proof.
  intros Hwf. exists (bool_decide (full b)).
  split; [apply ttt_is_full_decides; exact Hwf|].
  rewrite bool_decide_eq_true. unfold full, Py.cell_at. split.
  - intros H i j c Hc. destruct (b !! i) as [line|] eqn:Hline; [|discriminate].
    rewrite Forall_lookup in H. specialize (H i line Hline).
    rewrite Forall_lookup in H. exact (H j c Hc).
  - intros H. apply Forall_lookup. intros i line Hline.
    apply Forall_lookup. intros j c Hc. apply (H i j c). rewrite Hline. exact Hc.
Qed.

Lemma tictactoe_is_full_means_no_empty_cell_witness :
  well_formed last_cell_board
  /\ exists full_or_not,
       is_full last_cell_board = Py.Ok full_or_not
       /\ (full_or_not = true
           <-> forall i j c, Py.cell_at last_cell_board i j = Some c -> c <> BoardCell.EMPTY).
Proof.
  assert (Hwf : well_formed last_cell_board) by apply ttt_cells_well_formed.
  split; [exact Hwf|].
  exact (tictactoe_is_full_means_no_empty_cell last_cell_board Hwf).
Defined.

(** X3. [GameBoard._is_cells_full_by_player] names a winner exactly for a
    list of cells that is not empty and holds the mark of one player in
    every place, and the winner is that player; for every other list
    (an empty one, mixed cells, EMPTY cells only) it returns False. It never
    returns DRAW. *)
Theorem tictactoe_is_cells_full_by_player_spec (cs : list BoardCell.t) :
  (forall w,
     _is_cells_full_by_player cs = Some w
     <-> exists p, w = Winner.of_player p /\ cs <> []
           /\ Forall (fun c => c = BoardCell_of_player p) cs)
  /\ (_is_cells_full_by_player cs = Some Winner.DRAW -> False).
Proof.
  split.
  - intros w. apply ttt_is_cells_full_by_player_some.
  - apply ttt_is_cells_full_by_player_draw.
Qed.

(** X4. [GameBoard.get_winner] of TicTacToe on a board of three rows of
    three cells returns, and its answer follows the eight lines (rows,
    columns, diagonals) only on a board that is not full: DRAW exactly on
    a full board; a player only if the board is not full and that player
    owns a line; False exactly if the board is not full and no player owns
    a line. *)
Theorem tictactoe_get_winner_follows_the_lines (b : cells) :
  well_formed b ->
  exists r,
    get_winner b = Py.Ok r
    /\ (r = Some Winner.DRAW <-> full b)
    /\ (forall p, r = Some (Winner.of_player p) ->
          ~ full b /\ exists line, line ∈ lines /\ owns b p line)
    /\ (r = None <-> ~ full b /\ forall p line, line ∈ lines -> ~ owns b p line).
Proof. intros Hwf. apply ttt_get_winner_rules. exact Hwf. Qed.

Lemma tictactoe_get_winner_follows_the_lines_witness :
  well_formed after_first_move
  /\ exists r,
       get_winner after_first_move = Py.Ok r
       /\ (r = Some Winner.DRAW <-> full after_first_move)
       /\ (forall p, r = Some (Winner.of_player p) ->
             ~ full after_first_move
             /\ exists line, line ∈ lines /\ owns after_first_move p line)
       /\ (r = None
           <-> ~ full after_first_move
               /\ forall p line, line ∈ lines -> ~ owns after_first_move p line).
Proof.
  assert (Hwf : well_formed after_first_move) by apply ttt_cells_well_formed.
  split; [exact Hwf|].
  exact (tictactoe_get_winner_follows_the_lines after_first_move Hwf).
Defined.





(** X7. [StupidBot], the bot of the test game of tictactoe.py, is never
    refused: on a board of three rows of three cells that is not full its
    answer is the first EMPTY cell in the order of its loops (row by row),
    so [_make_one_move] asks it once, makes that move and passes the
    turn. *)
Theorem tictactoe_stupid_bot_is_never_refused (x_player o_player : Player)
    (fuel : nat) (g : Game) :
  (1 <= fuel)%nat ->
  well_formed (board g) ->
  ~ full (board g) ->
  player_of x_player o_player (current_move g) = StupidBot ->
  exists g' m,
    _make_one_move x_player o_player fuel g = (g', Py.Ok tt)
    /\ apply_move (board g) (current_move g) m = (board g', Py.Ok tt)
    /\ Py.cell_at (board g) (Z.to_nat (row m)) (Z.to_nat (column m))
       = Some BoardCell.EMPTY
    /\ (forall i j, before i j m -> Py.cell_at (board g) i j <> Some BoardCell.EMPTY)
    /\ seen_by g' (current_move g)
       = create_copy_for_player (board g) :: seen_by g (current_move g)
    /\ seen_by g' (PlayerType.inverse (current_move g))
       = seen_by g (PlayerType.inverse (current_move g))
    /\ current_move g' = PlayerType.inverse (current_move g)
    /\ winner g' = winner g.
Proof.
  intros Hfuel Hwf Hnf Hbot.
  pose proof (ttt_stupid_bot_answer (board g) (seen_by g (current_move g)) Hwf) as Ha.
  destruct (StupidBot (create_copy_for_player (board g) :: seen_by g (current_move g)))
    as [m| | |] eqn:Hm; try contradiction.
  destruct Ha as (Hr & Hc & Hcell & Hfirst).
  destruct (ttt_first_answer_taken x_player o_player fuel g m Hfuel Hwf)
    as (g' & H1 & H2 & H3 & H4 & H5 & H6); try assumption.
  { rewrite Hbot. exact Hm. }
  exists g', m. auto 10.
Qed.

Lemma tictactoe_stupid_bot_is_never_refused_witness :
  exists g' m,
    _make_one_move StupidBot StupidBot 1 _init_game = (g', Py.Ok tt)
    /\ apply_move GameBoard_init PlayerType.X m = (board g', Py.Ok tt)
    /\ Py.cell_at GameBoard_init (Z.to_nat (row m)) (Z.to_nat (column m))
       = Some BoardCell.EMPTY
    /\ (forall i j, before i j m -> Py.cell_at GameBoard_init i j <> Some BoardCell.EMPTY)
    /\ seen_by g' PlayerType.X = create_copy_for_player GameBoard_init :: []
    /\ seen_by g' PlayerType.O = []
    /\ current_move g' = PlayerType.O
    /\ winner g' = None.
Proof.
  apply (tictactoe_stupid_bot_is_never_refused StupidBot StupidBot 1 _init_game).
  - lia.
  - apply ttt_init_well_formed.
  - intros H. apply Forall_cons in H as [H _]. apply Forall_cons in H as [H _].
    apply H. reflexivity.
  - reflexivity.
Defined.

End TicTacToeCoverage.

Section BattleCoverage.
Import TicTacToe TicTacToeRules Battle.







End BattleCoverage.

Section KirzhanovskyCoverage.
Import Kirzhanovsky KirzhanovskyRules.

(** X11. [Game._safe_move] of the numeric game, whoever the player is and
    whatever it answers: the call returns (no exception leaves it) after
    one to four calls of the player, each with a copy of the history as it
    is. Its value is -1 exactly when all four answers were refused;
    otherwise it is the last answer, an int of 1..players_count. *)
Theorem kirzhanovsky_safe_move_outcomes (fuel : nat) (players_count : Z)
    (history : list (list Z)) (player : Player) (seen : list (list (list Z))) :
  (Z.to_nat INCORRECT_MOVE_TRIES_LIMIT <= fuel)%nat ->
  exists calls move,
    _safe_move fuel players_count history player seen
    = (replicate calls history ++ seen, Py.Ok move)
    /\ (1 <= calls <= 4)%nat
    /\ ((move = -1 /\ calls = 4%nat
         /\ forall k, (k < 4)%nat ->
              bad_answer players_count (player (replicate (S k) history ++ seen)))
        \/ (1 <= move <= players_count
            /\ player (replicate calls history ++ seen) = Returned (PyInt move))).
Proof. intros Hfuel. apply kir_safe_move_cases. exact Hfuel. Qed.

Lemma kirzhanovsky_safe_move_outcomes_witness :
  exists calls move,
    _safe_move 5 2 [[1; 1]] (constant (PyFloat 1.5)) []
    = (replicate calls [[1; 1]] ++ [], Py.Ok move)
    /\ (1 <= calls <= 4)%nat
    /\ ((move = -1 /\ calls = 4%nat
         /\ forall k, (k < 4)%nat ->
              bad_answer 2 (constant (PyFloat 1.5) (replicate (S k) [[1; 1]] ++ [])))
        \/ (1 <= move <= 2
            /\ constant (PyFloat 1.5) (replicate calls [[1; 1]] ++ [])
               = Returned (PyInt move))).
Proof.
  apply (kirzhanovsky_safe_move_outcomes 5 2 [[1; 1]] (constant (PyFloat 1.5)) []).
  vm_compute. lia.
Defined.

(** X12. [Game._make_one_move] of the numeric game, whoever the players
    are: the call returns, the round number grows by one, and the history
    grows by exactly one round that holds one move per player, each the
    forfeit -1 or a number of 1..n; the rounds played before and the winner
    are untouched. *)
Theorem kirzhanovsky_make_one_move_appends_a_round (fuel : nat)
    (players : list Player) (g : Game) :
  (Z.to_nat INCORRECT_MOVE_TRIES_LIMIT <= fuel)%nat ->
  length (seen g) = length players ->
  exists g' moves,
    _make_one_move fuel players g = (g', Py.Ok tt)
    /\ history g' = history g ++ [moves]
    /\ length moves = length players
    /\ Forall (recorded_move (Z.of_nat (length players))) moves
    /\ move_number g' = move_number g + 1
    /\ winner g' = winner g
    /\ length (seen g') = length players.
Proof. intros Hfuel Hlen. apply kir_make_one_move_cases; assumption. Qed.

Lemma kirzhanovsky_make_one_move_appends_a_round_witness :
  exists g' moves,
    _make_one_move 5 forfeit_players (_init_game 3) = (g', Py.Ok tt)
    /\ history g' = [] ++ [moves]
    /\ length moves = 3%nat
    /\ Forall (recorded_move 3) moves
    /\ move_number g' = 0 + 1
    /\ winner g' = None
    /\ length (seen g') = 3%nat.
Proof.
  apply (kirzhanovsky_make_one_move_appends_a_round 5 forfeit_players (_init_game 3)).
  - vm_compute. lia.
  - reflexivity.
Defined.

(** X13. The first loop of [Game.play] of the numeric game, whoever the
    players are: it ends, and when it ends exactly ROUNDS_IN_GAME = 100
    rounds have been played, every round with one recorded move per
    player, and no winner has been named yet. *)
Theorem kirzhanovsky_first_loop_plays_100_rounds (tfuel fuel : nat)
    (players : list Player) :
  (Z.to_nat INCORRECT_MOVE_TRIES_LIMIT <= tfuel)%nat ->
  (Z.to_nat ROUNDS_IN_GAME < fuel)%nat ->
  exists g,
    base_rounds players tfuel fuel (_init_game (length players)) = (g, Py.Ok tt)
    /\ move_number g = ROUNDS_IN_GAME
    /\ Z.of_nat (length (history g)) = ROUNDS_IN_GAME
    /\ rounds_of (length players) (history g)
    /\ winner g = None.
Proof.
  intros Ht Hfuel.
  destruct (kir_base_rounds_cases tfuel players Ht (Z.to_nat ROUNDS_IN_GAME) fuel
              (_init_game (length players)))
    as (g & Hg & Hn & Hl & Hr & _ & Hw).
  - exact Hfuel.
  - reflexivity.
  - simpl. apply length_replicate.
  - constructor.
  - exists g. split; [exact Hg|]. split; [exact Hn|].
    split; [rewrite Hl; reflexivity|]. split; [exact Hr|exact Hw].
Qed.

Lemma kirzhanovsky_first_loop_plays_100_rounds_witness :
  exists g,
    base_rounds forfeit_players 5 101 (_init_game (length forfeit_players))
    = (g, Py.Ok tt)
    /\ move_number g = ROUNDS_IN_GAME
    /\ Z.of_nat (length (history g)) = ROUNDS_IN_GAME
    /\ rounds_of (length forfeit_players) (history g)
    /\ winner g = None.
Proof.
  apply (kirzhanovsky_first_loop_plays_100_rounds 5 101 forfeit_players).
  - vm_compute. lia.
  - vm_compute. lia.
Defined.

(** X14. [Game._find_winner] on a history of rounds of n moves, n at least
    1: the call returns; it returns True and sets the winner exactly when
    one player alone has the highest score, which every other score is
    strictly below; otherwise two different players share the highest
    score, the call returns False and the game is unchanged. No score
    exceeds the value [max] found. *)
Theorem kirzhanovsky_find_winner_needs_a_single_leader (n : nat) (g : Game) :
  (0 < n)%nat ->
  Forall (fun round => length round = n) (history g) ->
  exists scores m,
    compute_scores n (history g) = Py.Ok scores
    /\ length scores = n
    /\ (forall i s, scores !! i = Some s -> s <= m)
    /\ ((exists best,
           _find_winner n g
           = ({| history := history g; move_number := move_number g;
                 winner := Some best; seen := seen g |}, Py.Ok true)
           /\ scores !! best = Some m
           /\ forall i s, i <> best -> scores !! i = Some s -> s < m)
        \/ (_find_winner n g = (g, Py.Ok false)
            /\ exists i j, i <> j /\ scores !! i = Some m /\ scores !! j = Some m)).
Proof. intros Hn Hrounds. apply kir_find_winner_cases; assumption. Qed.

Lemma kirzhanovsky_find_winner_needs_a_single_leader_witness :
  exists scores m,
    compute_scores 2 [[1; 2]] = Py.Ok scores
    /\ length scores = 2%nat
    /\ (forall i s, scores !! i = Some s -> s <= m)
    /\ ((exists best,
           _find_winner 2
             {| history := [[1; 2]]; move_number := 1; winner := None; seen := [[]; []] |}
           = ({| history := [[1; 2]]; move_number := 1;
                 winner := Some best; seen := [[]; []] |}, Py.Ok true)
           /\ scores !! best = Some m
           /\ forall i s, i <> best -> scores !! i = Some s -> s < m)
        \/ (_find_winner 2
              {| history := [[1; 2]]; move_number := 1; winner := None; seen := [[]; []] |}
            = ({| history := [[1; 2]]; move_number := 1; winner := None;
                  seen := [[]; []] |}, Py.Ok false)
            /\ exists i j, i <> j /\ scores !! i = Some m /\ scores !! j = Some m)).
Proof.
  apply (kirzhanovsky_find_winner_needs_a_single_leader 2
           {| history := [[1; 2]]; move_number := 1; winner := None; seen := [[]; []] |}).
  - lia.
  - repeat constructor.
Defined.

(** X15. [Game._find_winner] of a game without players raises ValueError,
    the [max] of an empty list of scores, and so does [Game.play] after
    its hundred empty rounds. *)
Theorem kirzhanovsky_no_players_is_a_value_error (tfuel fuel : nat) :
  (Z.to_nat ROUNDS_IN_GAME < fuel)%nat ->
  (forall g,
     Forall (fun round => length round = 0%nat) (history g) ->
     _find_winner 0 g = (g, Py.Raise ValueError))
  /\ play [] tfuel fuel = Py.Raise ValueError.
Proof.
  intros Hfuel. split; [apply kir_find_winner_no_players|].
  unfold play.
  assert (Hbase : forall (left f : nat) (g : Game),
            (left < f)%nat -> move_number g = ROUNDS_IN_GAME - Z.of_nat left ->
            seen g = [] ->
            Forall (fun round => length round = 0%nat) (history g) ->
            exists g', base_rounds [] tfuel f g = (g', Py.Ok tt)
              /\ Forall (fun round => length round = 0%nat) (history g')).
  { induction left as [|left IH]; intros f g Hf Hnum Hseen Hh.
    - destruct f as [|f]; [lia|]. cbn [base_rounds].
      replace (move_number g =? ROUNDS_IN_GAME) with true
        by (symmetry; apply Z.eqb_eq; lia).
      exists g. auto.
    - destruct f as [|f]; [lia|]. cbn [base_rounds].
      replace (move_number g =? ROUNDS_IN_GAME) with false
        by (symmetry; apply Z.eqb_neq; lia).
      unfold _make_one_move. rewrite Hseen. cbn [safe_moves].
      apply IH; simpl; [lia|lia|reflexivity|].
      apply Forall_app. split; [exact Hh|]. repeat constructor. }
  destruct (Hbase (Z.to_nat ROUNDS_IN_GAME) fuel (_init_game 0)) as (g & Hg & Hh);
    [exact Hfuel|reflexivity|reflexivity|constructor|].
  simpl length. rewrite Hg.
  destruct fuel as [|f]; [lia|]. cbn [extra_rounds]. simpl length.
  rewrite (kir_find_winner_no_players g Hh). reflexivity.
Qed.

Lemma kirzhanovsky_no_players_is_a_value_error_witness :
  play [] 5 101 = Py.Raise ValueError.
Proof.
  apply (kirzhanovsky_no_players_is_a_value_error 5 101).
  vm_compute. lia.
Defined.

(** X16. [Game.play] of the numeric game never returns when its players,
    two or more, are copies of one player (one that answers by what it has
    been handed): they are handed the same histories, so they play the same
    move in every round, no move is unique, every score stays 0 and
    [_find_winner] never finds a single leader; the second loop of [play]
    goes on for ever. *)
Theorem kirzhanovsky_copies_of_one_player_never_finish (player : Player)
    (n tfuel fuel : nat) :
  (Z.to_nat INCORRECT_MOVE_TRIES_LIMIT <= tfuel)%nat ->
  (2 <= n)%nat ->
  play (replicate n player) tfuel fuel = Py.OutOfFuel.
Proof. intros Ht Hn. apply kir_play_same; assumption. Qed.

Lemma kirzhanovsky_copies_of_one_player_never_finish_witness :
  play (replicate 2 (constant (PyInt 1))) 5 150 = Py.OutOfFuel.
Proof.
  apply (kirzhanovsky_copies_of_one_player_never_finish (constant (PyInt 1)) 2 5 150).
  - vm_compute. lia.
  - lia.
Defined.

End KirzhanovskyCoverage.

Section ReversiCoverage.
Import Reversi ReversiRules.

Lemma rev_init_well_formed : well_formed GameBoard_init.
Proof. split; [reflexivity|]. repeat constructor. Qed.

Lemma rev_gap_board_well_formed : well_formed gap_board.
Proof. split; [reflexivity|]. repeat constructor. Qed.

(** X17. [GameBoard._get_flipped_cells_for_move] of Reversi on a board of
    eight rows of eight cells, for any coordinates: the call returns (no
    IndexError, and every walk ends); no cell is listed twice; every cell
    listed is a cell of the board, lies in one of the eight directions
    from (row, column) at one step or more, and does not hold the disc of
    the mover. *)
Theorem reversi_flipped_cells_shape (b : cells) (board_cell : BoardCell.t)
    (row column : Z) :
  well_formed b ->
  exists flipped,
    _get_flipped_cells_for_move b row column board_cell = Py.Ok flipped
    /\ NoDup flipped
    /\ Forall (turnable b board_cell) flipped
    /\ Forall (fun place => exists d, on_ray row column d place) flipped.
Proof. intros Hwf. apply rev_get_flipped_cases. exact Hwf. Qed.

Lemma reversi_flipped_cells_shape_witness :
  exists flipped,
    _get_flipped_cells_for_move gap_board 1 2 BoardCell.BLACK = Py.Ok flipped
    /\ NoDup flipped
    /\ Forall (turnable gap_board BoardCell.BLACK) flipped
    /\ Forall (fun place => exists d, on_ray 1 2 d place) flipped.
Proof.
  apply (reversi_flipped_cells_shape gap_board BoardCell.BLACK 1 2).
  apply rev_gap_board_well_formed.
Defined.

(** X18. The cells [_get_flipped_cells_for_move] lists against the cells
    the rule of the game turns (in each direction the run of opposing
    discs that a disc of the mover ends): on a board of eight rows of
    eight cells the rule's cells are among the listed ones, in the same
    order, and the two lists are equal exactly when no listed cell is
    EMPTY. The code departs from the rule only by walking over EMPTY
    cells. *)
Theorem reversi_flipped_cells_against_the_rule (b : cells) (board_cell : BoardCell.t)
    (row column : Z) :
  well_formed b ->
  exists flipped,
    _get_flipped_cells_for_move b row column board_cell = Py.Ok flipped
    /\ spec_flipped b row column board_cell `sublist_of` flipped
    /\ (spec_flipped b row column board_cell = flipped
        <-> Forall (holds_disc b) flipped).
Proof. intros Hwf. apply rev_get_flipped_spec. exact Hwf. Qed.

Lemma reversi_flipped_cells_against_the_rule_witness :
  exists flipped,
    _get_flipped_cells_for_move GameBoard_init 2 3 BoardCell.BLACK = Py.Ok flipped
    /\ spec_flipped GameBoard_init 2 3 BoardCell.BLACK `sublist_of` flipped
    /\ (spec_flipped GameBoard_init 2 3 BoardCell.BLACK = flipped
        <-> Forall (holds_disc GameBoard_init) flipped).
Proof.
  apply (reversi_flipped_cells_against_the_rule GameBoard_init BoardCell.BLACK 2 3).
  apply rev_init_well_formed.
Defined.



(** X20. [GameBoard.has_player_correct_move] of Reversi on a board of
    eight rows of eight cells returns, and returns True exactly when the
    board has an EMPTY cell for which [_get_flipped_cells_for_move] lists
    a cell for that player. *)
Theorem reversi_has_player_correct_move_finds_a_cell (b : cells) (p : PlayerType.t) :
  well_formed b ->
  exists found,
    has_player_correct_move b p = Py.Ok found
    /\ (found = true
        <-> exists row column, takes b (BoardCell_of_player p) row column).
Proof. intros Hwf. apply rev_has_player_correct_move_cases. exact Hwf. Qed.

Lemma reversi_has_player_correct_move_finds_a_cell_witness :
  exists found,
    has_player_correct_move GameBoard_init PlayerType.BLACK = Py.Ok found
    /\ (found = true
        <-> exists row column, takes GameBoard_init BoardCell.BLACK row column).
Proof.
  apply (reversi_has_player_correct_move_finds_a_cell GameBoard_init PlayerType.BLACK).
  apply rev_init_well_formed.
Defined.

(** X21. [GameBoard.get_winner] of Reversi on a board of eight rows of
    eight cells returns: False exactly when one of the two players can
    take a cell; otherwise BLACK only with more black discs than white,
    WHITE only with more white than black, DRAW only with as many. *)
Theorem reversi_get_winner_counts_discs (b : cells) :
  well_formed b ->
  exists r,
    get_winner b = Py.Ok r
    /\ (r = None
        <-> exists p row column, takes b (BoardCell_of_player p) row column)
    /\ (r = Some Winner.BLACK
        -> count_cells b BoardCell.BLACK > count_cells b BoardCell.WHITE)
    /\ (r = Some Winner.WHITE
        -> count_cells b BoardCell.WHITE > count_cells b BoardCell.BLACK)
    /\ (r = Some Winner.DRAW
        -> count_cells b BoardCell.BLACK = count_cells b BoardCell.WHITE).
Proof. intros Hwf. apply rev_get_winner_cases. exact Hwf. Qed.

Lemma reversi_get_winner_counts_discs_witness :
  exists r,
    get_winner GameBoard_init = Py.Ok r
    /\ (r = None
        <-> exists p row column, takes GameBoard_init (BoardCell_of_player p) row column)
    /\ (r = Some Winner.BLACK
        -> count_cells GameBoard_init BoardCell.BLACK
           > count_cells GameBoard_init BoardCell.WHITE)
    /\ (r = Some Winner.WHITE
        -> count_cells GameBoard_init BoardCell.WHITE
           > count_cells GameBoard_init BoardCell.BLACK)
    /\ (r = Some Winner.DRAW
        -> count_cells GameBoard_init BoardCell.BLACK
           = count_cells GameBoard_init BoardCell.WHITE).
Proof.
  apply (reversi_get_winner_counts_discs GameBoard_init).
  apply rev_init_well_formed.
Defined.

(** X22. [GameBoard.is_full] of Reversi, which the engine never calls, on
    a board of eight rows of eight cells: it returns, True exactly when no
    cell is EMPTY; and on a full board nobody can move, so [get_winner]
    names a winner or DRAW: the game is over without [is_full]. *)
Theorem reversi_full_board_ends_the_game (b : cells) :
  well_formed b ->
  exists full,
    is_full b = Py.Ok full
    /\ (full = true
        <-> forall row column, _is_valid_coordinates row column = true ->
              holds_disc b (row, column))
    /\ (full = true -> exists w, get_winner b = Py.Ok (Some w)).
Proof.
  intros Hwf. destruct (rev_is_full_cases b Hwf) as (full & Hfull & Hiff).
  exists full. split; [exact Hfull|]. split; [exact Hiff|].
  intros Hf. destruct (rev_get_winner_cases b Hwf) as (r & Hr & Hnone & _).
  destruct r as [w|]; [eauto|].
  destruct (proj1 Hnone eq_refl) as (p & row & column & Hv & Hcell & _).
  destruct (proj1 Hiff Hf row column Hv Hcell).
Qed.

Lemma reversi_full_board_ends_the_game_witness :
  exists full,
    is_full GameBoard_init = Py.Ok full
    /\ (full = true
        <-> forall row column, _is_valid_coordinates row column = true ->
              holds_disc GameBoard_init (row, column))
    /\ (full = true -> exists w, get_winner GameBoard_init = Py.Ok (Some w)).
Proof.
  apply (reversi_full_board_ends_the_game GameBoard_init).
  apply rev_init_well_formed.
Defined.

End ReversiCoverage.

Section ReversiEngineCoverage.
Import Reversi ReversiRules ReversiTurns.





End ReversiEngineCoverage.
